(** * PyPSO 0.22: the PSO engine ([pypso/Pso.py])

    A shallow embedding of the engine class [PSO.Singleton] and of the
    singleton handle [PSO], followed by the properties of the engine's
    run control, parameter check, bound setters, inertia schedule and
    singleton delegation.

    Conventions of the embedding.
    - Python floats are exact rationals ([Q]); Python ints are [Z].
      [x % y] on ints is [Z.modulo] (both take the sign of the divisor).
    - The collaborators whose classes live in other modules (the topology,
      the report adapter, the terminal) are opaque: a call to one of them is
      recorded as an [Event] in a chronological [trace].  A topology event
      carries the step counter and the inertia weight the engine exposes at
      the moment of the call, which is what the swarm update can read.
    - Methods are computations in a state-and-exception monad [M]: a raise
      keeps every mutation made before it, as in Python.
    - A pending [KeyboardInterrupt] is a countdown [sigint]: it is delivered
      at the collaborator call at which the countdown is zero. *)

From Stdlib Require Import ZArith QArith Qabs List Bool String Lia.
Import ListNotations.

Local Open Scope string_scope.
Local Open Scope list_scope.
Local Open Scope Z_scope.
#[local] Set Warnings "-register-all".

(** ** Python values and exceptions *)

(** The values a bound slot can hold: the setters store whatever they are
    given. *)
Inductive PyVal : Type :=
| PyNone
| PyFloat (q : Q)
| PyTuple (items : list PyVal).

Inductive PyExc : Type :=
| TypeError (msg : string)
| ValueError (msg : string)
| IndexError
| ZeroDivisionError
| AttributeError
| KeyboardInterrupt.

(** [type(v) is tuple] *)
Definition is_tuple (v : PyVal) : bool :=
  match v with
  | PyTuple _ => true
  | _ => false
  end.

(** Truth value of an attribute that is [None] or a float: [None] and [0.0]
    are both false. *)
Definition truthy_float (x : option Q) : bool :=
  match x with
  | None => false
  | Some q => negb (Qeq_bool q 0)
  end.

(** Truth value of an attribute that is [None] or an instance of a class
    without [__len__]/[__nonzero__]. *)
Definition truthy_obj {A : Type} (x : option A) : bool :=
  match x with
  | None => false
  | Some _ => true
  end.

(** Truth value of a list: false exactly when empty. *)
Definition truthy_list {A : Type} (l : list A) : bool :=
  match l with
  | [] => false
  | _ :: _ => true
  end.

(** ** Constants of [Consts.py] and collaborators *)

Inductive PsoType : Type := BASIC | CONSTRICTED | INERTIA.

Inductive Minimax : Type := minimize | maximize.

Definition PsoType_eqb (a b : PsoType) : bool :=
  match a, b with
  | BASIC, BASIC | CONSTRICTED, CONSTRICTED | INERTIA, INERTIA => true
  | _, _ => false
  end.

(** The defaults of [Consts.py], which the engine only reads. *)
Record Consts : Type := {
  CDefPsoType : PsoType;
  CDefCoefficients : Q * Q;
  CDefSteps : Z;
  CDefInertiaFactorStart : Q;
  CDefInertiaFactorEnd : Q
}.

(** The class of the topology object, as [type(self.topology)] sees it. *)
Inductive TopologyClass : Type :=
| GlobalTopology
| LocalTopology
| OtherTopology.

Definition is_LocalTopology (t : TopologyClass) : bool :=
  match t with
  | LocalTopology => true
  | _ => false
  end.

(** The one attribute of a report adapter the engine reads. *)
Record ReportAdapter : Type := { statsGenFreq : Z }.

(** ** The engine object *)

Record Singleton : Type := {
  psoType : PsoType;
  topology : option TopologyClass;
  C1 : Q;
  C2 : Q;
  timeSteps : Z;
  interactiveMode : bool;
  currentStep : Z;
  function : option string;
  inertiaFactorMinus : option Q;
  inertiaFactor : option Q;
  time_init : option nat;
  positionBounds : list PyVal;
  initialPositionBounds : list PyVal;
  velocityBounds : list PyVal;
  minimax : Minimax;
  reportAdapter : option ReportAdapter
}.

(** [PSO.Singleton.__init__] *)
Definition Singleton___init__ (k : Consts) (interactive : bool) : Singleton :=
  {| psoType := CDefPsoType k;
     topology := None;
     C1 := fst (CDefCoefficients k);
     C2 := snd (CDefCoefficients k);
     timeSteps := CDefSteps k;
     interactiveMode := interactive;
     currentStep := 0;
     function := None;
     inertiaFactorMinus := None;
     inertiaFactor := None;
     time_init := None;
     positionBounds := [];
     initialPositionBounds := [];
     velocityBounds := [];
     minimax := minimize;
     reportAdapter := None |}.

(** Attribute assignment, one function per attribute. *)
Definition set_psoType (v : PsoType) (s : Singleton) : Singleton :=
  {| psoType := v; topology := topology s; C1 := C1 s; C2 := C2 s;
     timeSteps := timeSteps s; interactiveMode := interactiveMode s;
     currentStep := currentStep s; function := function s;
     inertiaFactorMinus := inertiaFactorMinus s;
     inertiaFactor := inertiaFactor s; time_init := time_init s;
     positionBounds := positionBounds s;
     initialPositionBounds := initialPositionBounds s;
     velocityBounds := velocityBounds s; minimax := minimax s;
     reportAdapter := reportAdapter s |}.

Definition set_topology (v : option TopologyClass) (s : Singleton) : Singleton :=
  {| psoType := psoType s; topology := v; C1 := C1 s; C2 := C2 s;
     timeSteps := timeSteps s; interactiveMode := interactiveMode s;
     currentStep := currentStep s; function := function s;
     inertiaFactorMinus := inertiaFactorMinus s;
     inertiaFactor := inertiaFactor s; time_init := time_init s;
     positionBounds := positionBounds s;
     initialPositionBounds := initialPositionBounds s;
     velocityBounds := velocityBounds s; minimax := minimax s;
     reportAdapter := reportAdapter s |}.

Definition set_C1 (v : Q) (s : Singleton) : Singleton :=
  {| psoType := psoType s; topology := topology s; C1 := v; C2 := C2 s;
     timeSteps := timeSteps s; interactiveMode := interactiveMode s;
     currentStep := currentStep s; function := function s;
     inertiaFactorMinus := inertiaFactorMinus s;
     inertiaFactor := inertiaFactor s; time_init := time_init s;
     positionBounds := positionBounds s;
     initialPositionBounds := initialPositionBounds s;
     velocityBounds := velocityBounds s; minimax := minimax s;
     reportAdapter := reportAdapter s |}.

Definition set_C2 (v : Q) (s : Singleton) : Singleton :=
  {| psoType := psoType s; topology := topology s; C1 := C1 s; C2 := v;
     timeSteps := timeSteps s; interactiveMode := interactiveMode s;
     currentStep := currentStep s; function := function s;
     inertiaFactorMinus := inertiaFactorMinus s;
     inertiaFactor := inertiaFactor s; time_init := time_init s;
     positionBounds := positionBounds s;
     initialPositionBounds := initialPositionBounds s;
     velocityBounds := velocityBounds s; minimax := minimax s;
     reportAdapter := reportAdapter s |}.

Definition set_timeSteps (v : Z) (s : Singleton) : Singleton :=
  {| psoType := psoType s; topology := topology s; C1 := C1 s; C2 := C2 s;
     timeSteps := v; interactiveMode := interactiveMode s;
     currentStep := currentStep s; function := function s;
     inertiaFactorMinus := inertiaFactorMinus s;
     inertiaFactor := inertiaFactor s; time_init := time_init s;
     positionBounds := positionBounds s;
     initialPositionBounds := initialPositionBounds s;
     velocityBounds := velocityBounds s; minimax := minimax s;
     reportAdapter := reportAdapter s |}.

Definition set_interactiveMode (v : bool) (s : Singleton) : Singleton :=
  {| psoType := psoType s; topology := topology s; C1 := C1 s; C2 := C2 s;
     timeSteps := timeSteps s; interactiveMode := v;
     currentStep := currentStep s; function := function s;
     inertiaFactorMinus := inertiaFactorMinus s;
     inertiaFactor := inertiaFactor s; time_init := time_init s;
     positionBounds := positionBounds s;
     initialPositionBounds := initialPositionBounds s;
     velocityBounds := velocityBounds s; minimax := minimax s;
     reportAdapter := reportAdapter s |}.

Definition set_currentStep (v : Z) (s : Singleton) : Singleton :=
  {| psoType := psoType s; topology := topology s; C1 := C1 s; C2 := C2 s;
     timeSteps := timeSteps s; interactiveMode := interactiveMode s;
     currentStep := v; function := function s;
     inertiaFactorMinus := inertiaFactorMinus s;
     inertiaFactor := inertiaFactor s; time_init := time_init s;
     positionBounds := positionBounds s;
     initialPositionBounds := initialPositionBounds s;
     velocityBounds := velocityBounds s; minimax := minimax s;
     reportAdapter := reportAdapter s |}.

Definition set_function (v : option string) (s : Singleton) : Singleton :=
  {| psoType := psoType s; topology := topology s; C1 := C1 s; C2 := C2 s;
     timeSteps := timeSteps s; interactiveMode := interactiveMode s;
     currentStep := currentStep s; function := v;
     inertiaFactorMinus := inertiaFactorMinus s;
     inertiaFactor := inertiaFactor s; time_init := time_init s;
     positionBounds := positionBounds s;
     initialPositionBounds := initialPositionBounds s;
     velocityBounds := velocityBounds s; minimax := minimax s;
     reportAdapter := reportAdapter s |}.

Definition set_inertiaFactorMinus (v : option Q) (s : Singleton) : Singleton :=
  {| psoType := psoType s; topology := topology s; C1 := C1 s; C2 := C2 s;
     timeSteps := timeSteps s; interactiveMode := interactiveMode s;
     currentStep := currentStep s; function := function s;
     inertiaFactorMinus := v;
     inertiaFactor := inertiaFactor s; time_init := time_init s;
     positionBounds := positionBounds s;
     initialPositionBounds := initialPositionBounds s;
     velocityBounds := velocityBounds s; minimax := minimax s;
     reportAdapter := reportAdapter s |}.

Definition set_inertiaFactor (v : option Q) (s : Singleton) : Singleton :=
  {| psoType := psoType s; topology := topology s; C1 := C1 s; C2 := C2 s;
     timeSteps := timeSteps s; interactiveMode := interactiveMode s;
     currentStep := currentStep s; function := function s;
     inertiaFactorMinus := inertiaFactorMinus s;
     inertiaFactor := v; time_init := time_init s;
     positionBounds := positionBounds s;
     initialPositionBounds := initialPositionBounds s;
     velocityBounds := velocityBounds s; minimax := minimax s;
     reportAdapter := reportAdapter s |}.

Definition set_time_init (v : option nat) (s : Singleton) : Singleton :=
  {| psoType := psoType s; topology := topology s; C1 := C1 s; C2 := C2 s;
     timeSteps := timeSteps s; interactiveMode := interactiveMode s;
     currentStep := currentStep s; function := function s;
     inertiaFactorMinus := inertiaFactorMinus s;
     inertiaFactor := inertiaFactor s; time_init := v;
     positionBounds := positionBounds s;
     initialPositionBounds := initialPositionBounds s;
     velocityBounds := velocityBounds s; minimax := minimax s;
     reportAdapter := reportAdapter s |}.

Definition set_positionBounds (v : list PyVal) (s : Singleton) : Singleton :=
  {| psoType := psoType s; topology := topology s; C1 := C1 s; C2 := C2 s;
     timeSteps := timeSteps s; interactiveMode := interactiveMode s;
     currentStep := currentStep s; function := function s;
     inertiaFactorMinus := inertiaFactorMinus s;
     inertiaFactor := inertiaFactor s; time_init := time_init s;
     positionBounds := v;
     initialPositionBounds := initialPositionBounds s;
     velocityBounds := velocityBounds s; minimax := minimax s;
     reportAdapter := reportAdapter s |}.

Definition set_initialPositionBounds (v : list PyVal) (s : Singleton) : Singleton :=
  {| psoType := psoType s; topology := topology s; C1 := C1 s; C2 := C2 s;
     timeSteps := timeSteps s; interactiveMode := interactiveMode s;
     currentStep := currentStep s; function := function s;
     inertiaFactorMinus := inertiaFactorMinus s;
     inertiaFactor := inertiaFactor s; time_init := time_init s;
     positionBounds := positionBounds s;
     initialPositionBounds := v;
     velocityBounds := velocityBounds s; minimax := minimax s;
     reportAdapter := reportAdapter s |}.

Definition set_velocityBounds (v : list PyVal) (s : Singleton) : Singleton :=
  {| psoType := psoType s; topology := topology s; C1 := C1 s; C2 := C2 s;
     timeSteps := timeSteps s; interactiveMode := interactiveMode s;
     currentStep := currentStep s; function := function s;
     inertiaFactorMinus := inertiaFactorMinus s;
     inertiaFactor := inertiaFactor s; time_init := time_init s;
     positionBounds := positionBounds s;
     initialPositionBounds := initialPositionBounds s;
     velocityBounds := v; minimax := minimax s;
     reportAdapter := reportAdapter s |}.

Definition set_minimax (v : Minimax) (s : Singleton) : Singleton :=
  {| psoType := psoType s; topology := topology s; C1 := C1 s; C2 := C2 s;
     timeSteps := timeSteps s; interactiveMode := interactiveMode s;
     currentStep := currentStep s; function := function s;
     inertiaFactorMinus := inertiaFactorMinus s;
     inertiaFactor := inertiaFactor s; time_init := time_init s;
     positionBounds := positionBounds s;
     initialPositionBounds := initialPositionBounds s;
     velocityBounds := velocityBounds s; minimax := v;
     reportAdapter := reportAdapter s |}.

Definition set_reportAdapter (v : option ReportAdapter) (s : Singleton) : Singleton :=
  {| psoType := psoType s; topology := topology s; C1 := C1 s; C2 := C2 s;
     timeSteps := timeSteps s; interactiveMode := interactiveMode s;
     currentStep := currentStep s; function := function s;
     inertiaFactorMinus := inertiaFactorMinus s;
     inertiaFactor := inertiaFactor s; time_init := time_init s;
     positionBounds := positionBounds s;
     initialPositionBounds := initialPositionBounds s;
     velocityBounds := velocityBounds s; minimax := minimax s;
     reportAdapter := v |}.

(** ** Collaborator calls, the run state and the monad *)

Inductive TopologyCall : Type :=
| T_initialize
| T_updateParticlesPosition
| T_updateParticlesInformation
| T_storeBestParticle
| T_statistics
| T_getStatistics
| T_printStats.

Inductive ReportCall : Type :=
| R_open
| R_insert (step : Z)
| R_saveAndClose.

(** What [execute] prints; the three lines that announce the interactive
    session are one message. *)
Inductive Message : Type :=
| MsgStartingLoop
| MsgInitialized
| MsgBreak
| MsgStep (step : Z) (percent : Q)
| MsgTimeElapsed (since : option nat)
| MsgInteractive.

Inductive Event : Type :=
| TopologyEv (c : TopologyCall) (step : Z) (w : option Q)
| ReportEv (c : ReportCall)
| PrintEv (m : Message)
| InteractEv.

(** The engine together with its environment: the calls made so far, the
    countdown of a pending interrupt, and the keyboard ([keyboard k] tells
    whether the poll made after step [k] finds the escape key on a platform
    that polls). *)
Record Run : Type := {
  engine : Singleton;
  trace : list Event;
  sigint : option nat;
  keyboard : Z -> bool
}.

Inductive Outcome (A : Type) : Type :=
| Ret (a : A)
| Raise (e : PyExc)
| OutOfFuel.
Arguments Ret {A} a.
Arguments Raise {A} e.
Arguments OutOfFuel {A}.

Definition M (A : Type) : Type := Run -> Outcome A * Run.

Definition ret {A : Type} (a : A) : M A := fun r => (Ret a, r).

Definition bind {A B : Type} (m : M A) (f : A -> M B) : M B :=
  fun r =>
    match m r with
    | (Ret a, r') => f a r'
    | (Raise e, r') => (Raise e, r')
    | (OutOfFuel, r') => (OutOfFuel, r')
    end.

Definition raise {A : Type} (e : PyExc) : M A := fun r => (Raise e, r).

Declare Scope py_scope.
Delimit Scope py_scope with py.
Notation "x <- m ;; k" := (bind m (fun x => k))
  (at level 61, m at next level, right associativity) : py_scope.
Notation "m ;; k" := (bind m (fun _ => k))
  (at level 61, right associativity) : py_scope.
Local Open Scope py_scope.

(** Read the engine object. *)
Definition self : M Singleton := fun r => (Ret (engine r), r).

(** Mutate the engine object. *)
Definition assign (f : Singleton -> Singleton) : M unit :=
  fun r =>
    (Ret tt,
     {| engine := f (engine r); trace := trace r;
        sigint := sigint r; keyboard := keyboard r |}).

Definition add_events (evs : list Event) (r : Run) : Run :=
  {| engine := engine r; trace := trace r ++ evs;
     sigint := sigint r; keyboard := keyboard r |}.

(** A call into a collaborator: the pending interrupt, if due, is raised
    in its place. *)
Definition call (ev : Event) : M unit :=
  fun r =>
    match sigint r with
    | Some O =>
        (Raise KeyboardInterrupt,
         {| engine := engine r; trace := trace r;
            sigint := None; keyboard := keyboard r |})
    | Some (S k) =>
        (Ret tt,
         {| engine := engine r; trace := trace r ++ [ev];
            sigint := Some k; keyboard := keyboard r |})
    | None => (Ret tt, add_events [ev] r)
    end.

(** [Util.raiseException(message, expt)] *)
Definition raiseException {A : Type} (message : string) (expt : string -> PyExc) : M A :=
  raise (expt message).

(** [self.topology.<c>()]; an unset topology has no such method. *)
Definition topology_call (c : TopologyCall) : M unit :=
  s <- self ;;
  match topology s with
  | None => raise AttributeError
  | Some _ => call (TopologyEv c (currentStep s) (inertiaFactor s))
  end.

(** [self.reportAdapter.<c>()] *)
Definition report_call (c : ReportCall) : M unit :=
  s <- self ;;
  match reportAdapter s with
  | None => raise AttributeError
  | Some _ => call (ReportEv c)
  end.

Definition print (m : Message) : M unit := call (PrintEv m).

(** [time()]: the clock is the number of collaborator calls made so far. *)
Definition time : M nat := fun r => (Ret (List.length (trace r)), r).

(** [for x in xs: body(x)] *)
Fixpoint for_each {A : Type} (xs : list A) (body : A -> M unit) : M unit :=
  match xs with
  | [] => ret tt
  | x :: xs' => body x ;; for_each xs' body
  end.

(** [range(first, last)] *)
Definition range (first last : Z) : list Z :=
  map (fun k => first + Z.of_nat k) (seq 0 (Z.to_nat (last - first))).

(** [xs[i] = v] on a Python list: a negative index counts from the end, an
    index outside [-len, len) is an [IndexError]. *)
Fixpoint list_update {A : Type} (xs : list A) (n : nat) (v : A) : list A :=
  match xs, n with
  | [], _ => []
  | _ :: xs', O => v :: xs'
  | x :: xs', S n' => x :: list_update xs' n' v
  end.

Definition setitem {A : Type} (xs : list A) (i : Z) (v : A) : option (list A) :=
  let n := Z.of_nat (List.length xs) in
  if (0 <=? i) && (i <? n) then Some (list_update xs (Z.to_nat i) v)
  else if (- n <=? i) && (i <? 0) then Some (list_update xs (Z.to_nat (n + i)) v)
  else None.

(** ** Methods of [PSO.Singleton] *)

Definition setFunction (f : option string) : M unit :=
  assign (set_function f).

(** The argument is [None] when the value passed is not one of
    [Consts.minimaxType.values()]. *)
Definition setMinimax (v : option Minimax) : M unit :=
  match v with
  | None => raiseException "Optimization type must be Maximize or Minimize !" TypeError
  | Some m => assign (set_minimax m)
  end.

(** The argument is [None] when the value passed is not one of
    [Consts.psoType.values()]. *)
Definition setPsoType (v : option PsoType) : M unit :=
  match v with
  | None => raiseException "PsoType must be implemented !" TypeError
  | Some t => assign (set_psoType t)
  end.

Definition setTopology (t : option TopologyClass) : M unit :=
  assign (set_topology t).

Definition zero_pair : PyVal := PyTuple [PyFloat 0; PyFloat 0].

Definition initializeBounds (dimensions : Z) : M unit :=
  for_each (range 0 dimensions) (fun _ =>
    assign (fun s => set_initialPositionBounds (initialPositionBounds s ++ [zero_pair]) s) ;;
    assign (fun s => set_positionBounds (positionBounds s ++ [zero_pair]) s) ;;
    assign (fun s => set_velocityBounds (velocityBounds s ++ [PyFloat 0]) s)).

(** [self.<bounds>[i] = value] for one of the three bound lists. *)
Definition store_bound (get : Singleton -> list PyVal)
    (set : list PyVal -> Singleton -> Singleton) (i : Z) (value : PyVal) : M unit :=
  s <- self ;;
  match setitem (get s) i value with
  | None => raise IndexError
  | Some l => assign (set l)
  end.

Definition definePositionBounds (firstDimension lastDimension : Z) (minMaxValue : PyVal) : M unit :=
  (if negb (is_tuple minMaxValue)
   then raiseException "minMaxValue type must be a tuple (a,b)." TypeError
   else ret tt) ;;
  for_each (range firstDimension lastDimension) (fun i =>
    store_bound positionBounds set_positionBounds i minMaxValue).

Definition defineInitialPositionBounds (firstDimension lastDimension : Z) (minMaxValue : PyVal) : M unit :=
  (if negb (is_tuple minMaxValue)
   then raiseException "minMaxValue type must be a tuple (a,b)." TypeError
   else ret tt) ;;
  for_each (range firstDimension lastDimension) (fun i =>
    store_bound initialPositionBounds set_initialPositionBounds i minMaxValue).

Definition setTimeSteps (num_steps : Z) : M unit :=
  (if num_steps <? 1
   then raiseException "Number of steps must be >=1" ValueError
   else ret tt) ;;
  assign (set_timeSteps num_steps).

Definition defineVelocityBounds (firstDimensiom lastDimensiom : Z) (value : PyVal) : M unit :=
  for_each (range firstDimensiom lastDimensiom) (fun i =>
    store_bound velocityBounds set_velocityBounds i value).

(** [setInitialInertiaFactor], called with two floats.  The subtraction and
    the division by the budget are those of exact rationals: the rounding of
    doubles, their underflow to [0.0] and the OverflowError of a budget no
    double can hold are not represented, and neither is a call with two
    ints, which Python 2 divides with a floor. *)
Definition setInitialInertiaFactor (inertiaFactorStart inertiaFactorEnd : Q) : M unit :=
  s <- self ;;
  if PsoType_eqb (psoType s) INERTIA then
    if timeSteps s =? 0 then raise ZeroDivisionError
    else
      assign (set_inertiaFactorMinus
                (Some (Qabs (inertiaFactorStart - inertiaFactorEnd) / inject_Z (timeSteps s))%Q)) ;;
      assign (set_inertiaFactor (Some inertiaFactorStart))
  else ret tt.

Definition updateInertiaFactor : M unit :=
  s <- self ;;
  match inertiaFactor s, inertiaFactorMinus s with
  | Some w, Some d => assign (set_inertiaFactor (Some (w - d)%Q))
  | _, _ => raise (TypeError "unsupported operand type(s) for -")
  end.

Definition setReportAdapter (repadapter : option ReportAdapter) : M unit :=
  assign (set_reportAdapter repadapter).

Definition getStatistics : M unit := topology_call T_getStatistics.

Definition dumpStatsReport : M unit :=
  topology_call T_statistics ;;
  s <- self ;;
  match reportAdapter s with
  | None => raise AttributeError
  | Some _ => getStatistics ;; report_call (R_insert (currentStep s))
  end.

Definition printStats : M unit :=
  s <- self ;;
  if timeSteps s =? 0 then raise ZeroDivisionError
  else
    print (MsgStep (currentStep s)
             (inject_Z (currentStep s * 100) / inject_Z (timeSteps s))%Q) ;;
    topology_call T_statistics ;;
    topology_call T_printStats.

Definition printTimeElapsed : M unit :=
  s <- self ;;
  match time_init s with
  | None => raise (TypeError "unsupported operand type(s) for -")
  | Some t0 => print (MsgTimeElapsed (Some t0))
  end.

Definition initialize : M unit :=
  topology_call T_initialize ;;
  print MsgInitialized.

Definition checkParametersSet : M unit :=
  s <- self ;;
  (if negb (truthy_obj (topology s)) || negb (truthy_obj (function s))
   then raiseException "Topology/Evaluation fuction not yet defined." TypeError
   else ret tt) ;;
  (if PsoType_eqb (psoType s) INERTIA then
     if negb (truthy_float (inertiaFactorMinus s)) || negb (truthy_float (inertiaFactor s))
     then raiseException "Set the setInitialInertiaFactor() for the Inertia weight." TypeError
     else ret tt
   else ret tt) ;;
  (if negb (truthy_list (initialPositionBounds s))
      || negb (truthy_list (velocityBounds s))
      || negb (truthy_list (positionBounds s))
   then raiseException "The Position/Velocity/InitialPos Bounds not yet defined." TypeError
   else ret tt).

Definition constructSolution : M bool :=
  topology_call T_updateParticlesPosition ;;
  topology_call T_updateParticlesInformation ;;
  s <- self ;;
  (match topology s with
   | Some t => if is_LocalTopology t then topology_call T_storeBestParticle else ret tt
   | None => ret tt
   end) ;;
  (if PsoType_eqb (psoType s) INERTIA then updateInertiaFactor else ret tt) ;;
  assign (fun s => set_currentStep (currentStep s + 1) s) ;;
  s' <- self ;;
  ret (currentStep s' =? timeSteps s').

(** The key poll of the interactive mode, with the platform test and the
    comparison with the escape key folded into [keyboard]. *)
Definition escape_pressed : M bool :=
  fun r => (Ret (keyboard r (currentStep (engine r))), r).

(** [if self.currentStep % self.reportAdapter.statsGenFreq == 0: then_] *)
Definition on_report_step (then_ : M unit) : M unit :=
  s <- self ;;
  match reportAdapter s with
  | None => ret tt
  | Some a =>
      if statsGenFreq a =? 0 then raise ZeroDivisionError
      else if currentStep s mod statsGenFreq a =? 0 then then_
      else ret tt
  end.

(** The body of the [while] loop of [execute]. *)
Definition loop_body (freq_stats : Z) : M unit :=
  if freq_stats =? 0 then ret tt
  else
    s <- self ;;
    (if (currentStep s mod freq_stats =? 0) || (currentStep s =? 1)
     then printStats else ret tt) ;;
    on_report_step dumpStatsReport ;;
    (if interactiveMode s then
       k <- escape_pressed ;;
       if k then print MsgInteractive ;; call InteractEv else ret tt
     else ret tt).

(** [while not self.constructSolution(): body] *)
Fixpoint run_loop (fuel : nat) (freq_stats : Z) : M unit :=
  match fuel with
  | O => fun r => (OutOfFuel, r)
  | S fuel' =>
      done <- constructSolution ;;
      if done then ret tt
      else loop_body freq_stats ;; run_loop fuel' freq_stats
  end.

(** [try: body except KeyboardInterrupt: handler] *)
Definition try_except_KeyboardInterrupt (body handler : M unit) : M unit :=
  fun r =>
    match body r with
    | (Raise KeyboardInterrupt, r') => handler r'
    | res => res
    end.

(** What [execute] does before the loop. *)
Definition prelude : M unit :=
  checkParametersSet ;;
  t <- time ;;
  assign (set_time_init (Some t)) ;;
  s <- self ;;
  (if truthy_obj (reportAdapter s) then report_call R_open else ret tt) ;;
  initialize ;;
  print MsgStartingLoop.

(** What [execute] does after the loop. *)
Definition final_output (freq_stats : Z) : M unit :=
  (if freq_stats =? 0 then ret tt else printStats ;; printTimeElapsed) ;;
  on_report_step (dumpStatsReport ;; report_call R_saveAndClose).

Definition guarded_loop (fuel : nat) (freq_stats : Z) : M unit :=
  try_except_KeyboardInterrupt (run_loop fuel freq_stats) (print MsgBreak).

Definition execute (fuel : nat) (freq_stats : Z) : M unit :=
  prelude ;;
  guarded_loop fuel freq_stats ;;
  final_output freq_stats.

(** ** The singleton handle [PSO] *)

(** The attributes of the engine object. *)
Inductive attr : Type :=
| a_psoType | a_topology | a_C1 | a_C2 | a_timeSteps | a_interactiveMode
| a_currentStep | a_function | a_inertiaFactorMinus | a_inertiaFactor
| a_time_init | a_positionBounds | a_initialPositionBounds
| a_velocityBounds | a_minimax | a_reportAdapter.

Definition attr_type (a : attr) : Type :=
  match a with
  | a_psoType => PsoType
  | a_topology => option TopologyClass
  | a_C1 | a_C2 => Q
  | a_timeSteps | a_currentStep => Z
  | a_interactiveMode => bool
  | a_function => option string
  | a_inertiaFactorMinus | a_inertiaFactor => option Q
  | a_time_init => option nat
  | a_positionBounds | a_initialPositionBounds | a_velocityBounds => list PyVal
  | a_minimax => Minimax
  | a_reportAdapter => option ReportAdapter
  end.

(** [getattr(instance, a)] *)
Definition getattr (s : Singleton) (a : attr) : attr_type a :=
  match a with
  | a_psoType => psoType s
  | a_topology => topology s
  | a_C1 => C1 s
  | a_C2 => C2 s
  | a_timeSteps => timeSteps s
  | a_interactiveMode => interactiveMode s
  | a_currentStep => currentStep s
  | a_function => function s
  | a_inertiaFactorMinus => inertiaFactorMinus s
  | a_inertiaFactor => inertiaFactor s
  | a_time_init => time_init s
  | a_positionBounds => positionBounds s
  | a_initialPositionBounds => initialPositionBounds s
  | a_velocityBounds => velocityBounds s
  | a_minimax => minimax s
  | a_reportAdapter => reportAdapter s
  end.

(** [setattr(instance, a, v)] *)
Definition setattr (s : Singleton) (a : attr) : attr_type a -> Singleton :=
  match a as a' return attr_type a' -> Singleton with
  | a_psoType => fun v => set_psoType v s
  | a_topology => fun v => set_topology v s
  | a_C1 => fun v => set_C1 v s
  | a_C2 => fun v => set_C2 v s
  | a_timeSteps => fun v => set_timeSteps v s
  | a_interactiveMode => fun v => set_interactiveMode v s
  | a_currentStep => fun v => set_currentStep v s
  | a_function => fun v => set_function v s
  | a_inertiaFactorMinus => fun v => set_inertiaFactorMinus v s
  | a_inertiaFactor => fun v => set_inertiaFactor v s
  | a_time_init => fun v => set_time_init v s
  | a_positionBounds => fun v => set_positionBounds v s
  | a_initialPositionBounds => fun v => set_initialPositionBounds v s
  | a_velocityBounds => fun v => set_velocityBounds v s
  | a_minimax => fun v => set_minimax v s
  | a_reportAdapter => fun v => set_reportAdapter v s
  end.

(** The interpreter state the class [PSO] lives in: the objects allocated
    so far, addressed by their position, and the class attribute
    [PSO._iInstance], a reference into them or [None]. *)
Record Process : Type := {
  heap : list Singleton;
  _iInstance : option nat
}.

(** A handle: its [__dict__] holds the one entry [EventHandler_instance]. *)
Record PSO : Type := { EventHandler_instance : nat }.

(** [PSO.__init__]: returns the new handle and the interpreter state. *)
Definition PSO___init__ (k : Consts) (p : Process) : PSO * Process :=
  let p' :=
    match _iInstance p with
    | None =>
        {| heap := heap p ++ [Singleton___init__ k true];
           _iInstance := Some (List.length (heap p)) |}
    | Some _ => p
    end in
  match _iInstance p' with
  | Some l => ({| EventHandler_instance := l |}, p')
  | None => ({| EventHandler_instance := O |}, p')
  end.

(** The object [self._iInstance] denotes; the handle has no entry of that
    name, so the lookup reaches the class attribute. *)
Definition instance_of (p : Process) (h : PSO) : option Singleton :=
  match _iInstance p with
  | None => None
  | Some l => nth_error (heap p) l
  end.

(** [PSO.__getattr__]; [None] stands for [AttributeError]. *)
Definition PSO___getattr__ (p : Process) (h : PSO) (a : attr) : option (attr_type a) :=
  match instance_of p h with
  | None => None
  | Some s => Some (getattr s a)
  end.

(** [PSO.__setattr__] *)
Definition PSO___setattr__ (p : Process) (h : PSO) (a : attr) (v : attr_type a) : option Process :=
  match _iInstance p with
  | None => None
  | Some l =>
      match nth_error (heap p) l with
      | None => None
      | Some s =>
          Some {| heap := list_update (heap p) l (setattr s a v);
                  _iInstance := _iInstance p |}
      end
  end.

(** A method looked up through a handle is the engine's bound method: it
    runs on the shared object, in the environment [env]. *)
Definition PSO_method {A : Type} (p : Process) (h : PSO) (m : M A) (env : Run)
  : option (Outcome A * Run * Process) :=
  match _iInstance p with
  | None => None
  | Some l =>
      match nth_error (heap p) l with
      | None => None
      | Some s =>
          let res :=
            m {| engine := s; trace := trace env;
                 sigint := sigint env; keyboard := keyboard env |} in
          Some (fst res, snd res,
                {| heap := list_update (heap p) l (engine (snd res));
                   _iInstance := _iInstance p |})
      end
  end.

(** Every reference held by the class points to an allocated object. *)
Definition well_formed (p : Process) : Prop :=
  match _iInstance p with
  | None => True
  | Some l => (l < List.length (heap p))%nat
  end.

Definition fresh_process : Process := {| heap := []; _iInstance := None |}.

(** ** Reading traces *)

Definition is_topology_call (c : TopologyCall) (ev : Event) : bool :=
  match ev, c with
  | TopologyEv T_initialize _ _, T_initialize
  | TopologyEv T_updateParticlesPosition _ _, T_updateParticlesPosition
  | TopologyEv T_updateParticlesInformation _ _, T_updateParticlesInformation
  | TopologyEv T_storeBestParticle _ _, T_storeBestParticle
  | TopologyEv T_statistics _ _, T_statistics
  | TopologyEv T_getStatistics _ _, T_getStatistics
  | TopologyEv T_printStats _ _, T_printStats => true
  | _, _ => false
  end.

Definition is_report_call (ev : Event) : bool :=
  match ev with
  | ReportEv _ => true
  | _ => false
  end.

Definition is_insert (ev : Event) : bool :=
  match ev with
  | ReportEv (R_insert _) => true
  | _ => false
  end.

Definition is_saveAndClose (ev : Event) : bool :=
  match ev with
  | ReportEv R_saveAndClose => true
  | _ => false
  end.

(** How many times the topology method [c] was called. *)
Definition count_calls (c : TopologyCall) (t : list Event) : nat :=
  List.length (filter (is_topology_call c) t).

(** An environment with no call made, no interrupt pending, no key pressed. *)
Definition quiet (s : Singleton) : Run :=
  {| engine := s; trace := []; sigint := None; keyboard := fun _ => false |}.

(** The same, with an interrupt due at the collaborator call number [n]
    (counting from zero). *)
Definition interrupted_at (n : nat) (s : Singleton) : Run :=
  {| engine := s; trace := []; sigint := Some n; keyboard := fun _ => false |}.

(** ** Example engines, built through the configuration methods *)

Module Examples.

Definition consts : Consts :=
  {| CDefPsoType := BASIC;
     CDefCoefficients := ((2 # 1)%Q, (2 # 1)%Q);
     CDefSteps := 100;
     CDefInertiaFactorStart := (9 # 10)%Q;
     CDefInertiaFactorEnd := (4 # 10)%Q |}.

(** The calls a driver script makes before [execute]. *)
Definition configure (ty : PsoType) (T dims : Z) (t : TopologyClass)
    (ad : option ReportAdapter) (w_start w_end : Q) : M unit :=
  setTopology (Some t) ;;
  setFunction (Some "sphere") ;;
  setPsoType (Some ty) ;;
  setTimeSteps T ;;
  initializeBounds dims ;;
  definePositionBounds 0 dims (PyTuple [PyFloat (-10 # 1); PyFloat (10 # 1)]) ;;
  defineInitialPositionBounds 0 dims (PyTuple [PyFloat (-5 # 1); PyFloat (5 # 1)]) ;;
  defineVelocityBounds 0 dims (PyFloat (2 # 1)) ;;
  setReportAdapter ad ;;
  setInitialInertiaFactor w_start w_end.

Definition configured_engine ty T dims t ad w_start w_end : Singleton :=
  engine (snd (configure ty T dims t ad w_start w_end
                 (quiet (Singleton___init__ consts true)))).

(** BASIC, three steps, two dimensions, local topology, no adapter. *)
Definition basic3 : Singleton :=
  Eval vm_compute in configured_engine BASIC 3 2 LocalTopology None (9 # 10) (4 # 10).

(** INERTIA with the weight going from 0.9 down to 0.4 in ten steps. *)
Definition inertia_down : Singleton :=
  Eval vm_compute in configured_engine INERTIA 10 2 GlobalTopology None (9 # 10) (4 # 10).

(** INERTIA with the weight meant to go from 0.4 up to 0.9. *)
Definition inertia_up : Singleton :=
  Eval vm_compute in configured_engine INERTIA 10 2 GlobalTopology None (4 # 10) (9 # 10).

(** INERTIA with a constant weight 0.9. *)
Definition inertia_constant : Singleton :=
  Eval vm_compute in configured_engine INERTIA 100 2 GlobalTopology None (9 # 10) (9 # 10).

(** BASIC, [T] steps, with a report adapter of frequency [f]. *)
Definition reporting (T f : Z) : Singleton :=
  configured_engine BASIC T 2 GlobalTopology (Some {| statsGenFreq := f |})
    (9 # 10) (4 # 10).

End Examples.

(** ** Vocabulary of the statements *)

(** [emits m r evs]: run from [r], [m] returns normally, having made the
    calls [evs] and nothing else. *)
Definition emits (m : M unit) (r : Run) (evs : list Event) : Prop :=
  m r = (Ret tt, add_events evs r).

(** The test the three guards of [checkParametersSet] make, as one boolean. *)
Definition check_passes (s : Singleton) : bool :=
  truthy_obj (topology s) && truthy_obj (function s)
  && (if PsoType_eqb (psoType s) INERTIA
      then truthy_float (inertiaFactorMinus s) && truthy_float (inertiaFactor s)
      else true)
  && truthy_list (initialPositionBounds s)
  && truthy_list (velocityBounds s)
  && truthy_list (positionBounds s).

(** The schedule of the INERTIA variant is set: both attributes hold a
    number. *)
Definition schedule_set (s : Singleton) : Prop :=
  inertiaFactorMinus s <> None /\ inertiaFactor s <> None.

(** The run [r] with [s] as its engine. *)
Definition with_engine (s : Singleton) (r : Run) : Run :=
  {| engine := s; trace := trace r; sigint := sigint r; keyboard := keyboard r |}.

(** The engine a step that returns leaves; [constructSolution_run] proves
    that [constructSolution] leaves it.  It stands for no step that fails. *)
Definition advance (s : Singleton) : Singleton :=
  let s' :=
    if PsoType_eqb (psoType s) INERTIA then
      match inertiaFactor s, inertiaFactorMinus s with
      | Some w, Some d => set_inertiaFactor (Some (w - d)%Q) s
      | _, _ => s
      end
    else s in
  set_currentStep (currentStep s' + 1) s'.

(** The collaborator calls of one step, tagged with the step counter and
    inertia weight of the engine [s] the step starts from. *)
Definition step_events (t : TopologyClass) (s : Singleton) : list Event :=
  [TopologyEv T_updateParticlesPosition (currentStep s) (inertiaFactor s);
   TopologyEv T_updateParticlesInformation (currentStep s) (inertiaFactor s)]
  ++ (if is_LocalTopology t
      then [TopologyEv T_storeBestParticle (currentStep s) (inertiaFactor s)]
      else []).

(** The attributes the step loop needs in order not to fail. *)
Definition steppable (s : Singleton) : Prop :=
  (exists t, topology s = Some t) /\
  (psoType s = INERTIA ->
   exists w d, inertiaFactor s = Some w /\ inertiaFactorMinus s = Some d).

(** The calls of [printStats] on the engine [s]. *)
Definition stats_events (s : Singleton) : list Event :=
  [PrintEv (MsgStep (currentStep s)
              (inject_Z (currentStep s * 100) / inject_Z (timeSteps s))%Q);
   TopologyEv T_statistics (currentStep s) (inertiaFactor s);
   TopologyEv T_printStats (currentStep s) (inertiaFactor s)].

(** The calls of [dumpStatsReport] on the engine [s]. *)
Definition dump_events (s : Singleton) : list Event :=
  [TopologyEv T_statistics (currentStep s) (inertiaFactor s);
   TopologyEv T_getStatistics (currentStep s) (inertiaFactor s);
   ReportEv (R_insert (currentStep s))].

(** An adapter is set and the step counter is a multiple of its frequency. *)
Definition report_due (s : Singleton) : bool :=
  match reportAdapter s with
  | Some a => currentStep s mod statsGenFreq a =? 0
  | None => false
  end.

(** A report adapter, when set, has a frequency one can divide by. *)
Definition adapter_ok (s : Singleton) : Prop :=
  forall a, reportAdapter s = Some a -> statsGenFreq a <> 0.

(** The calls of one pass through the body of the loop. *)
Definition body_events (freq_stats : Z) (s : Singleton) (esc : bool) : list Event :=
  if freq_stats =? 0 then []
  else
    (if (currentStep s mod freq_stats =? 0) || (currentStep s =? 1)
     then stats_events s else [])
    ++ (if report_due s then dump_events s else [])
    ++ (if interactiveMode s && esc then [PrintEv MsgInteractive; InteractEv] else []).

(** What the body of the loop needs in order not to fail. *)
Definition body_ready (freq_stats : Z) (s : Singleton) : Prop :=
  freq_stats <> 0 -> timeSteps s <> 0 /\ adapter_ok s.

(** The engine [n] steps that return leave; [run_loop_run] proves that the
    loop of [execute] leaves it. *)
Fixpoint advance_n (n : nat) (s : Singleton) : Singleton :=
  match n with
  | O => s
  | S n' => advance_n n' (advance s)
  end.

(** The calls of a loop that is left after at most [n] steps: each step is
    followed by a pass through the body unless it was the last. *)
Fixpoint loop_events (n : nat) (freq_stats : Z) (t : TopologyClass)
    (kb : Z -> bool) (s : Singleton) : list Event :=
  match n with
  | O => []
  | S n' =>
      step_events t s
      ++ (if currentStep (advance s) =? timeSteps (advance s) then []
          else body_events freq_stats (advance s) (kb (currentStep (advance s)))
               ++ loop_events n' freq_stats t kb (advance s))
  end.

(** The two calls every step makes. *)
Definition every_step (c : TopologyCall) : Prop :=
  c = T_updateParticlesPosition \/ c = T_updateParticlesInformation.

(** The engine with its two running attributes blanked: two engines with
    the same [frozen] image differ at most in [currentStep] and
    [inertiaFactor]. *)
Definition frozen (s : Singleton) : Singleton :=
  set_currentStep 0 (set_inertiaFactor None s).

(** The outcome is an uncaught interrupt. *)
Definition is_interrupt {A : Type} (o : Outcome A) : Prop :=
  match o with
  | Raise KeyboardInterrupt => True
  | _ => False
  end.

(** [settled m]: however [m] ends, it has only added calls to the trace, has
    left the configuration and the keyboard alone, has not armed an
    interrupt, and an interrupt it ends with has been consumed. *)
Definition settled {A : Type} (m : M A) : Prop :=
  forall r o r',
    m r = (o, r') ->
    frozen (engine r') = frozen (engine r) /\
    keyboard r' = keyboard r /\
    (exists evs, trace r' = trace r ++ evs) /\
    (sigint r = None -> sigint r' = None) /\
    (is_interrupt o -> sigint r' = None).

(** The calls [execute] makes before the loop. *)
Definition prelude_events (s : Singleton) : list Event :=
  (if truthy_obj (reportAdapter s) then [ReportEv R_open] else [])
  ++ [TopologyEv T_initialize (currentStep s) (inertiaFactor s);
      PrintEv MsgInitialized; PrintEv MsgStartingLoop].

(** The calls [execute] makes after the loop, on the engine [s] the loop
    has left. *)
Definition final_events (freq_stats : Z) (s : Singleton) : list Event :=
  (if freq_stats =? 0 then []
   else stats_events s ++ [PrintEv (MsgTimeElapsed (time_init s))])
  ++ (if report_due s then dump_events s ++ [ReportEv R_saveAndClose] else []).

(** What the output after the loop needs in order not to fail. *)
Definition output_ready (freq_stats : Z) (s : Singleton) : Prop :=
  freq_stats <> 0 -> timeSteps s <> 0 /\ exists t0, time_init s = Some t0.

(** The calls made to the report adapter, in order. *)
Definition report_calls (t : list Event) : list Event :=
  filter is_report_call t.

(** [l'] is [l] with the slots [first .. last - 1] holding [v]. *)
Definition filled (l l' : list PyVal) (first last : Z) (v : PyVal) : Prop :=
  List.length l' = List.length l /\
  forall i : nat,
    nth_error l' i =
      if (first <=? Z.of_nat i) && (Z.of_nat i <? last) then Some v
      else nth_error l i.

(** ** Further methods of [PSO.Singleton] and of the handle *)

Definition Minimax_eqb (a b : Minimax) : bool :=
  match a, b with
  | minimize, minimize | maximize, maximize => true
  | _, _ => false
  end.

(** [for key, value in d.items(): if value == x: return key], then
    [return ""]; [items] lists the dict in its iteration order. *)
Definition dict_key_of {V : Type} (eqb : V -> V -> bool)
    (items : list (string * V)) (x : V) : string :=
  match find (fun kv => eqb (snd kv) x) items with
  | Some kv => fst kv
  | None => ""
  end.

(** [x in d.values()] *)
Definition in_values {V : Type} (eqb : V -> V -> bool)
    (items : list (string * V)) (x : V) : bool :=
  existsb (fun kv => eqb (snd kv) x) items.

(** [getPsoType], the dict [Consts.psoType] being [items]. *)
Definition getPsoType (items : list (string * PsoType)) : M string :=
  s <- self ;;
  ret (dict_key_of PsoType_eqb items (psoType s)).

(** [getMinimaxType], the dict [Consts.minimaxType] being [items]. *)
Definition getMinimaxType (items : list (string * Minimax)) : M string :=
  s <- self ;;
  ret (dict_key_of Minimax_eqb items (minimax s)).

(** [setPsoType(v)] with its membership test made against [items]. *)
Definition setPsoType_in (items : list (string * PsoType)) (v : PsoType) : M unit :=
  setPsoType (if in_values PsoType_eqb items v then Some v else None).

(** [setMinimax(v)] with its membership test made against [items]. *)
Definition setMinimax_in (items : list (string * Minimax)) (v : Minimax) : M unit :=
  setMinimax (if in_values Minimax_eqb items v then Some v else None).

(** [n] constructions [PSO()] in a row: the handles, oldest first, and the
    interpreter state they leave. *)
Fixpoint constructions (k : Consts) (n : nat) (p : Process) : list PSO * Process :=
  match n with
  | O => ([], p)
  | S n' =>
      let hp := PSO___init__ k p in
      let rest := constructions k n' (snd hp) in
      (fst hp :: fst rest, snd rest)
  end.

(** The attribute holds a number other than zero. *)
Definition holds_nonzero (x : option Q) : Prop :=
  exists q, x = Some q /\ ~ (q == 0)%Q.

(** [idle m]: however [m] ends, the step counter and the number of position
    updates are what they were. *)
Definition idle {A : Type} (m : M A) : Prop :=
  forall r o r',
    m r = (o, r') ->
    currentStep (engine r') = currentStep (engine r) /\
    count_calls T_updateParticlesPosition (trace r')
    = count_calls T_updateParticlesPosition (trace r).

(** The outcome is a normal return. *)
Definition is_return {A : Type} (o : Outcome A) : Prop :=
  match o with
  | Ret _ => True
  | _ => False
  end.

(** [paced m]: however [m] ends, the step counter has grown by the number
    of completed steps, and the swarm has been moved once per completed
    step, plus once more at most when [m] did not return. *)
Definition paced {A : Type} (m : M A) : Prop :=
  forall r o r',
    m r = (o, r') ->
    let steps := currentStep (engine r') - currentStep (engine r) in
    let moves :=
      Z.of_nat (count_calls T_updateParticlesPosition (trace r'))
      - Z.of_nat (count_calls T_updateParticlesPosition (trace r)) in
    0 <= steps <= moves /\ moves <= steps + 1 /\
    (is_return o -> moves = steps).

(** [advancing m]: [m] moves no particle, and it completes the step,
    adding one to the step counter, exactly when it returns. *)
Definition advancing {A : Type} (m : M A) : Prop :=
  forall r o r',
    m r = (o, r') ->
    count_calls T_updateParticlesPosition (trace r')
    = count_calls T_updateParticlesPosition (trace r) /\
    (is_return o -> currentStep (engine r') = currentStep (engine r) + 1) /\
    (~ is_return o -> currentStep (engine r') = currentStep (engine r)).

(** The steps [lo + 1 .. lo + n] at which a report of frequency [f] is
    due, in increasing order. *)
Definition due_steps (f lo : Z) (n : nat) : list Z :=
  filter (fun k => k mod f =? 0) (map (fun i => lo + 1 + Z.of_nat i) (seq 0 n)).

(** ** The monad: basic equations *)

Lemma add_events_nil (r : Run) : add_events [] r = r.
Proof. destruct r; unfold add_events; simpl. now rewrite app_nil_r. Qed.

Lemma add_events_app (a b : list Event) (r : Run) :
  add_events b (add_events a r) = add_events (a ++ b) r.
Proof. unfold add_events; simpl. now rewrite app_assoc. Qed.

Lemma bind_Ret {A B : Type} (m : M A) (f : A -> M B) r a r' :
  m r = (Ret a, r') -> bind m f r = f a r'.
Proof. intros H; unfold bind; now rewrite H. Qed.

Lemma bind_Raise {A B : Type} (m : M A) (f : A -> M B) r e r' :
  m r = (Raise e, r') -> bind m f r = (Raise e, r').
Proof. intros H; unfold bind; now rewrite H. Qed.

Lemma bind_self {B : Type} (f : Singleton -> M B) r :
  bind self f r = f (engine r) r.
Proof. reflexivity. Qed.

Lemma emits_ret r : emits (ret tt) r [].
Proof. unfold emits, ret. now rewrite add_events_nil. Qed.

Lemma emits_seq (m k : M unit) r a b :
  emits m r a -> emits k (add_events a r) b -> emits (m ;; k) r (a ++ b).
Proof.
  unfold emits; intros Hm Hk.
  rewrite (bind_Ret _ _ _ _ _ Hm), Hk. now rewrite add_events_app.
Qed.

Lemma emits_call ev r : sigint r = None -> emits (call ev) r [ev].
Proof. unfold emits, call; intros ->; reflexivity. Qed.

Lemma emits_topology_call c r t :
  sigint r = None -> topology (engine r) = Some t ->
  emits (topology_call c) r
    [TopologyEv c (currentStep (engine r)) (inertiaFactor (engine r))].
Proof.
  intros Hs Ht. unfold topology_call, emits. rewrite bind_self, Ht.
  now apply emits_call.
Qed.

Lemma emits_report_call c r a :
  sigint r = None -> reportAdapter (engine r) = Some a ->
  emits (report_call c) r [ReportEv c].
Proof.
  intros Hs Ha. unfold report_call, emits. rewrite bind_self, Ha.
  now apply emits_call.
Qed.

(** ** [checkParametersSet] *)

Lemma checkParametersSet_unchanged r : snd (checkParametersSet r) = r.
Proof.
  unfold checkParametersSet. rewrite bind_self.
  unfold bind, raiseException, raise, ret.
  repeat match goal with
         | |- context [if ?b then _ else _] => destruct b
         end; reflexivity.
Qed.

Lemma checkParametersSet_returns_iff r :
  fst (checkParametersSet r) = Ret tt <-> check_passes (engine r) = true.
Proof.
  unfold checkParametersSet, check_passes. rewrite bind_self.
  unfold bind, raiseException, raise, ret.
  destruct (truthy_obj (topology (engine r))),
           (truthy_obj (function (engine r))),
           (PsoType_eqb (psoType (engine r)) INERTIA),
           (truthy_float (inertiaFactorMinus (engine r))),
           (truthy_float (inertiaFactor (engine r))),
           (truthy_list (initialPositionBounds (engine r))),
           (truthy_list (velocityBounds (engine r))),
           (truthy_list (positionBounds (engine r)));
    simpl; split; intros H; try reflexivity; discriminate H.
Qed.

Lemma checkParametersSet_raises_TypeError r :
  check_passes (engine r) = false ->
  exists msg, checkParametersSet r = (Raise (TypeError msg), r).
Proof.
  unfold checkParametersSet, check_passes. rewrite bind_self.
  unfold bind, raiseException, raise, ret.
  destruct (truthy_obj (topology (engine r))),
           (truthy_obj (function (engine r))),
           (PsoType_eqb (psoType (engine r)) INERTIA),
           (truthy_float (inertiaFactorMinus (engine r))),
           (truthy_float (inertiaFactor (engine r))),
           (truthy_list (initialPositionBounds (engine r))),
           (truthy_list (velocityBounds (engine r))),
           (truthy_list (positionBounds (engine r)));
    simpl; intros H; try discriminate H; eexists; reflexivity.
Qed.

Lemma checkParametersSet_passes r :
  check_passes (engine r) = true -> checkParametersSet r = (Ret tt, r).
Proof.
  intros H. apply checkParametersSet_returns_iff in H.
  pose proof (checkParametersSet_unchanged r) as Hs.
  destruct (checkParametersSet r) as [o r']; simpl in *; congruence.
Qed.

(** What a passing check says about the attributes the step loop reads. *)
Lemma check_passes_topology s :
  check_passes s = true -> exists t, topology s = Some t.
Proof.
  unfold check_passes. destruct (topology s) as [t|]; simpl.
  - intros _; now exists t.
  - intros H; discriminate H.
Qed.

Lemma check_passes_schedule s :
  check_passes s = true -> psoType s = INERTIA ->
  exists w d, inertiaFactor s = Some w /\ inertiaFactorMinus s = Some d.
Proof.
  unfold check_passes. intros H Hty. rewrite Hty in H. simpl in H.
  destruct (inertiaFactor s) as [w|], (inertiaFactorMinus s) as [d|];
    simpl in H;
    repeat rewrite ?andb_false_r, ?andb_false_l in H; try discriminate H.
  now exists w, d.
Qed.

(** C1, at the engine of [Examples.inertia_constant]: topology, fitness
    function and the three bound lists are set, the variant is INERTIA and
    the schedule was set by [setInitialInertiaFactor(0.9, 0.9)], so none of
    the four conditions of the claim holds; [checkParametersSet] still
    raises the TypeError asking for [setInitialInertiaFactor], because the
    decrement it stored is [0.0]. *)
Theorem checkParametersSet_rejects_constant_schedule :
  let s := Examples.inertia_constant in
  topology s = Some GlobalTopology /\
  function s = Some "sphere" /\
  psoType s = INERTIA /\
  schedule_set s /\
  (exists d, inertiaFactorMinus s = Some d /\ (d == 0)%Q) /\
  inertiaFactor s = Some (9 # 10)%Q /\
  positionBounds s <> [] /\ initialPositionBounds s <> [] /\
  velocityBounds s <> [] /\
  checkParametersSet (quiet s) =
    (Raise (TypeError "Set the setInitialInertiaFactor() for the Inertia weight."),
     quiet s).
Proof.
  vm_compute.
  repeat split; try reflexivity; try discriminate.
  eexists; split; reflexivity.
Qed.

(** ** The inertia schedule *)

Lemma setInitialInertiaFactor_other_variant w_start w_end r :
  psoType (engine r) <> INERTIA ->
  setInitialInertiaFactor w_start w_end r = (Ret tt, r).
Proof.
  intros H. unfold setInitialInertiaFactor. rewrite bind_self.
  destruct (psoType (engine r)); try reflexivity. now elim H.
Qed.

Lemma updateInertiaFactor_unset r :
  inertiaFactor (engine r) = None \/ inertiaFactorMinus (engine r) = None ->
  updateInertiaFactor r =
    (Raise (TypeError "unsupported operand type(s) for -"), r).
Proof.
  intros H. unfold updateInertiaFactor. rewrite bind_self.
  destruct (inertiaFactor (engine r)), (inertiaFactorMinus (engine r));
    try reflexivity.
  destruct H as [H|H]; discriminate H.
Qed.

Lemma updateInertiaFactor_set r w d :
  inertiaFactor (engine r) = Some w -> inertiaFactorMinus (engine r) = Some d ->
  updateInertiaFactor r =
    (Ret tt, with_engine (set_inertiaFactor (Some (w - d)%Q) (engine r)) r).
Proof.
  intros Hw Hd. unfold updateInertiaFactor. rewrite bind_self, Hw, Hd.
  reflexivity.
Qed.

(** C5, counterexample: on the BASIC engine [Examples.basic3] the call
    [setInitialInertiaFactor(0.9, 0.4)] raises nothing; it returns and the
    engine is as before. *)
Lemma setInitialInertiaFactor_BASIC_is_silent :
  psoType Examples.basic3 = BASIC /\
  setInitialInertiaFactor (9 # 10) (4 # 10) (quiet Examples.basic3)
    = (Ret tt, quiet Examples.basic3).
Proof. split; reflexivity. Qed.

(** C5, as amended: [setInitialInertiaFactor] raises nothing when the
    variant is not INERTIA, it returns with the engine unchanged;
    [updateInertiaFactor] tests no variant: whatever the variant, it fails
    with the TypeError of the subtraction, engine unchanged, when
    [inertiaFactor] or [inertiaFactorMinus] is still [None], and otherwise it
    returns having subtracted the decrement. *)
Theorem inertia_operations_guards :
  (forall w_start w_end r,
      psoType (engine r) <> INERTIA ->
      setInitialInertiaFactor w_start w_end r = (Ret tt, r)) /\
  (forall r,
      inertiaFactor (engine r) = None \/ inertiaFactorMinus (engine r) = None ->
      updateInertiaFactor r =
        (Raise (TypeError "unsupported operand type(s) for -"), r)) /\
  (forall r w d,
      inertiaFactor (engine r) = Some w ->
      inertiaFactorMinus (engine r) = Some d ->
      updateInertiaFactor r =
        (Ret tt, with_engine (set_inertiaFactor (Some (w - d)%Q) (engine r)) r)).
Proof.
  split; [|split].
  - exact setInitialInertiaFactor_other_variant.
  - exact updateInertiaFactor_unset.
  - exact updateInertiaFactor_set.
Qed.

Lemma inertia_operations_guards_witness :
  setInitialInertiaFactor (9 # 10) (4 # 10) (quiet Examples.basic3)
    = (Ret tt, quiet Examples.basic3) /\
  updateInertiaFactor (quiet Examples.basic3)
    = (Raise (TypeError "unsupported operand type(s) for -"),
       quiet Examples.basic3) /\
  exists r',
    updateInertiaFactor (quiet (set_psoType BASIC Examples.inertia_down))
      = (Ret tt, r').
Proof.
  destruct inertia_operations_guards as (H1 & H2 & H3).
  split; [|split].
  - apply H1. vm_compute. discriminate.
  - apply H2. left. vm_compute. reflexivity.
  - eexists. apply (H3 _ (9 # 10)%Q (50 # 1000)%Q); vm_compute; reflexivity.
Defined.

(** ** One step: [constructSolution] *)

Lemma check_passes_steppable s : check_passes s = true -> steppable s.
Proof.
  intros H; split.
  - now apply check_passes_topology.
  - now apply check_passes_schedule.
Qed.

Lemma bind_ret {A B : Type} (a : A) (f : A -> M B) r : bind (ret a) f r = f a r.
Proof. reflexivity. Qed.

Lemma topology_call_run c r t :
  sigint r = None -> topology (engine r) = Some t ->
  topology_call c r =
    (Ret tt,
     add_events
       [TopologyEv c (currentStep (engine r)) (inertiaFactor (engine r))] r).
Proof. exact (emits_topology_call c r t). Qed.

Lemma constructSolution_run r t :
  sigint r = None -> topology (engine r) = Some t ->
  (psoType (engine r) = INERTIA ->
   exists w d, inertiaFactor (engine r) = Some w
               /\ inertiaFactorMinus (engine r) = Some d) ->
  constructSolution r =
    (Ret (currentStep (engine r) + 1 =? timeSteps (engine r)),
     with_engine (advance (engine r)) (add_events (step_events t (engine r)) r)).
Proof.
  intros Hs Ht Hw. unfold constructSolution.
  rewrite (bind_Ret _ _ _ _ _ (topology_call_run _ r t Hs Ht)).
  rewrite (bind_Ret _ _ _ _ _ (topology_call_run _ (add_events _ r) t Hs Ht)).
  rewrite add_events_app, bind_self.
  cbn [engine add_events app]. rewrite Ht.
  assert (Hstore :
    (if is_LocalTopology t then topology_call T_storeBestParticle else ret tt)
      (add_events
         [TopologyEv T_updateParticlesPosition (currentStep (engine r))
            (inertiaFactor (engine r));
          TopologyEv T_updateParticlesInformation (currentStep (engine r))
            (inertiaFactor (engine r))] r)
    = (Ret tt, add_events (step_events t (engine r)) r)).
  { unfold step_events. destruct t; cbn [is_LocalTopology].
    - unfold ret. now rewrite app_nil_r.
    - rewrite (topology_call_run _ (add_events _ r) LocalTopology Hs Ht).
      now rewrite add_events_app.
    - unfold ret. now rewrite app_nil_r. }
  rewrite (bind_Ret _ _ _ _ _ Hstore). clear Hstore.
  unfold advance.
  destruct (psoType (engine r)) eqn:Hty; cbn [PsoType_eqb].
  1,2: rewrite bind_ret; reflexivity.
  destruct (Hw eq_refl) as (w & d & Hw1 & Hd1).
  rewrite (bind_Ret _ _ _ _ _
             (updateInertiaFactor_set (add_events _ r) w d Hw1 Hd1)).
  rewrite Hw1, Hd1. reflexivity.
Qed.

(** C3: on a configured engine with no interrupt pending, one call of
    [constructSolution] calls [updateParticlesPosition], then
    [updateParticlesInformation], then [storeBestParticle] exactly when the
    topology is a LocalTopology, all three seeing the step counter and
    inertia weight from before the call; it then applies the inertia decay
    exactly when the variant is INERTIA, adds one to [currentStep], touches
    no other attribute, and returns whether the new [currentStep] equals
    [timeSteps]. *)
Theorem constructSolution_order r :
  fst (checkParametersSet r) = Ret tt ->
  sigint r = None ->
  exists t r',
    topology (engine r) = Some t /\
    constructSolution r =
      (Ret (currentStep (engine r) + 1 =? timeSteps (engine r)), r') /\
    trace r' =
      trace r
      ++ [TopologyEv T_updateParticlesPosition
            (currentStep (engine r)) (inertiaFactor (engine r));
          TopologyEv T_updateParticlesInformation
            (currentStep (engine r)) (inertiaFactor (engine r))]
      ++ (match t with
          | LocalTopology =>
              [TopologyEv T_storeBestParticle
                 (currentStep (engine r)) (inertiaFactor (engine r))]
          | _ => []
          end) /\
    (match psoType (engine r) with
     | INERTIA =>
         exists w d, inertiaFactor (engine r) = Some w
                     /\ inertiaFactorMinus (engine r) = Some d
                     /\ inertiaFactor (engine r') = Some (w - d)%Q
     | _ => inertiaFactor (engine r') = inertiaFactor (engine r)
     end) /\
    currentStep (engine r') = currentStep (engine r) + 1 /\
    (forall a, a <> a_currentStep -> a <> a_inertiaFactor ->
               getattr (engine r') a = getattr (engine r) a) /\
    sigint r' = None /\ keyboard r' = keyboard r.
Proof.
  intros Hc Hs.
  apply checkParametersSet_returns_iff, check_passes_steppable in Hc.
  destruct Hc as ((t & Ht) & Hw).
  exists t; eexists. split; [exact Ht|].
  split; [apply (constructSolution_run r t Hs Ht Hw)|].
  unfold advance; simpl.
  split; [destruct t; reflexivity|].
  split.
  { destruct (psoType (engine r)) eqn:Hty; simpl; try reflexivity.
    destruct (Hw eq_refl) as (w & d & Hw1 & Hd1).
    exists w, d. rewrite Hw1, Hd1. now simpl. }
  split.
  { destruct (psoType (engine r)) eqn:Hty; simpl; try reflexivity.
    destruct (Hw eq_refl) as (w & d & Hw1 & Hd1).
    rewrite Hw1, Hd1. reflexivity. }
  split; [|split; [exact Hs | reflexivity]].
  intros a Ha1 Ha2.
  destruct (psoType (engine r)) eqn:Hty; simpl;
    try (destruct a; try reflexivity; congruence).
  destruct (Hw eq_refl) as (w & d & Hw1 & Hd1).
  rewrite Hw1, Hd1. destruct a; try reflexivity; congruence.
Qed.

Lemma constructSolution_order_witness :
  exists t r',
    topology Examples.inertia_down = Some t /\
    constructSolution (quiet Examples.inertia_down) = (Ret false, r') /\
    currentStep (engine r') = 1.
Proof.
  destruct (constructSolution_order (quiet Examples.inertia_down))
    as (t & r' & Ht & Hrun & _ & _ & Hstep & _).
  - vm_compute. reflexivity.
  - reflexivity.
  - exists t, r'. split; [exact Ht|]. split; [exact Hrun | exact Hstep].
Defined.

(** ** The statistics output and the body of the loop *)

Lemma call_run ev r :
  sigint r = None -> call ev r = (Ret tt, add_events [ev] r).
Proof. exact (emits_call ev r). Qed.

Lemma report_call_run c r a :
  sigint r = None -> reportAdapter (engine r) = Some a ->
  report_call c r = (Ret tt, add_events [ReportEv c] r).
Proof. exact (emits_report_call c r a). Qed.

(** Discharge the first call of a sequence when no interrupt is pending. *)
Ltac run_call :=
  erewrite bind_Ret
    by (first [ eapply topology_call_run
              | eapply report_call_run
              | eapply call_run ];
        cbn [sigint engine add_events]; eassumption).

Ltac last_call :=
  first [ erewrite topology_call_run
        | erewrite report_call_run
        | erewrite call_run ];
  [ | cbn [sigint engine add_events]; eassumption .. ].

(** Two runs that differ in how their list of calls is bracketed. *)
Ltac same_events :=
  rewrite ?add_events_app; rewrite <- ?app_assoc; rewrite ?app_nil_r;
  reflexivity.

Lemma printStats_run r t :
  sigint r = None -> topology (engine r) = Some t ->
  timeSteps (engine r) <> 0 ->
  printStats r = (Ret tt, add_events (stats_events (engine r)) r).
Proof.
  intros Hs Ht HT. unfold printStats, print. rewrite bind_self.
  destruct (Z.eqb_spec (timeSteps (engine r)) 0) as [E|_]; [contradiction|].
  run_call. run_call. last_call.
  now rewrite !add_events_app.
Qed.

Lemma dumpStatsReport_run r t a :
  sigint r = None -> topology (engine r) = Some t ->
  reportAdapter (engine r) = Some a ->
  dumpStatsReport r = (Ret tt, add_events (dump_events (engine r)) r).
Proof.
  intros Hs Ht Ha. unfold dumpStatsReport, getStatistics.
  run_call. rewrite bind_self. cbn [engine add_events]. rewrite Ha.
  run_call. last_call.
  now rewrite !add_events_app.
Qed.

Lemma on_report_step_run (then_ : M unit) (evs : list Event) r :
  adapter_ok (engine r) ->
  (report_due (engine r) = true -> then_ r = (Ret tt, add_events evs r)) ->
  on_report_step then_ r =
    (Ret tt, add_events (if report_due (engine r) then evs else []) r).
Proof.
  intros Hok Hthen. unfold on_report_step, report_due in *.
  rewrite bind_self.
  destruct (reportAdapter (engine r)) as [a|] eqn:Ha.
  - destruct (Z.eqb_spec (statsGenFreq a) 0) as [E|_].
    + now elim (Hok a).
    + destruct (currentStep (engine r) mod statsGenFreq a =? 0).
      * now apply Hthen.
      * unfold ret. now rewrite add_events_nil.
  - unfold ret. now rewrite add_events_nil.
Qed.

Lemma report_step_dump_run r t :
  sigint r = None -> topology (engine r) = Some t -> adapter_ok (engine r) ->
  on_report_step dumpStatsReport r =
    (Ret tt,
     add_events (if report_due (engine r) then dump_events (engine r) else []) r).
Proof.
  intros Hs Ht Hok. apply on_report_step_run; [exact Hok|].
  unfold report_due. destruct (reportAdapter (engine r)) as [a|] eqn:Ha.
  - intros _. now apply (dumpStatsReport_run r t a).
  - intros H; discriminate H.
Qed.

Lemma loop_body_run freq_stats r t :
  sigint r = None -> topology (engine r) = Some t ->
  body_ready freq_stats (engine r) ->
  loop_body freq_stats r =
    (Ret tt,
     add_events
       (body_events freq_stats (engine r) (keyboard r (currentStep (engine r)))) r).
Proof.
  intros Hs Ht Hready. unfold loop_body, body_events.
  destruct (Z.eqb_spec freq_stats 0) as [E|NE].
  { unfold ret. now rewrite add_events_nil. }
  destruct (Hready NE) as [HT Hok].
  rewrite bind_self.
  assert (H1 :
    (if (currentStep (engine r) mod freq_stats =? 0) || (currentStep (engine r) =? 1)
     then printStats else ret tt) r
    = (Ret tt,
       add_events
         (if (currentStep (engine r) mod freq_stats =? 0)
             || (currentStep (engine r) =? 1)
          then stats_events (engine r) else []) r)).
  { destruct ((currentStep (engine r) mod freq_stats =? 0)
              || (currentStep (engine r) =? 1)).
    - now apply (printStats_run r t).
    - unfold ret. now rewrite add_events_nil. }
  rewrite (bind_Ret _ _ _ _ _ H1). clear H1.
  rewrite (bind_Ret _ _ _ _ _ (report_step_dump_run (add_events _ r) t Hs Ht Hok)).
  cbn [engine add_events]. rewrite add_events_app.
  destruct (interactiveMode (engine r)); cbn [andb].
  - unfold escape_pressed at 1. unfold bind at 1. cbn [keyboard add_events engine].
    destruct (keyboard r (currentStep (engine r))).
    + unfold print. run_call. last_call. same_events.
    + unfold ret. same_events.
  - unfold ret. same_events.
Qed.

(** ** The loop of [execute] *)

Ltac by_cases_of_advance s :=
  unfold advance;
  destruct (PsoType_eqb (psoType s) INERTIA);
  [ destruct (inertiaFactor s) eqn:?, (inertiaFactorMinus s) eqn:? | ];
  cbn; try reflexivity; congruence.

Lemma advance_currentStep s : currentStep (advance s) = currentStep s + 1.
Proof. by_cases_of_advance s. Qed.

Lemma advance_timeSteps s : timeSteps (advance s) = timeSteps s.
Proof. by_cases_of_advance s. Qed.

Lemma advance_topology s : topology (advance s) = topology s.
Proof. by_cases_of_advance s. Qed.

Lemma advance_reportAdapter s : reportAdapter (advance s) = reportAdapter s.
Proof. by_cases_of_advance s. Qed.

Lemma advance_psoType s : psoType (advance s) = psoType s.
Proof. by_cases_of_advance s. Qed.

Lemma advance_inertiaFactorMinus s :
  inertiaFactorMinus (advance s) = inertiaFactorMinus s.
Proof. by_cases_of_advance s. Qed.

Lemma advance_time_init s : time_init (advance s) = time_init s.
Proof. by_cases_of_advance s. Qed.

Lemma advance_inertiaFactor s w d :
  psoType s = INERTIA ->
  inertiaFactor s = Some w -> inertiaFactorMinus s = Some d ->
  inertiaFactor (advance s) = Some (w - d)%Q.
Proof. intros Hty Hw Hd. unfold advance. now rewrite Hty, Hw, Hd. Qed.

Lemma advance_steppable s : steppable s -> steppable (advance s).
Proof.
  intros [Ht Hw]. split.
  - now rewrite advance_topology.
  - rewrite advance_psoType, advance_inertiaFactorMinus. intros Hty.
    destruct (Hw Hty) as (w & d & Hw1 & Hd1).
    exists (w - d)%Q, d. split; [now apply advance_inertiaFactor | exact Hd1].
Qed.

Lemma advance_body_ready freq_stats s :
  body_ready freq_stats s -> body_ready freq_stats (advance s).
Proof.
  unfold body_ready, adapter_ok.
  now rewrite advance_timeSteps, advance_reportAdapter.
Qed.

Lemma advance_n_currentStep n s :
  currentStep (advance_n n s) = currentStep s + Z.of_nat n.
Proof.
  revert s; induction n as [|n IH]; intros s.
  - simpl. lia.
  - cbn [advance_n]. rewrite IH, advance_currentStep. lia.
Qed.

Lemma advance_n_timeSteps n s : timeSteps (advance_n n s) = timeSteps s.
Proof.
  revert s; induction n as [|n IH]; intros s; cbn [advance_n];
    [reflexivity | now rewrite IH, advance_timeSteps].
Qed.

Lemma advance_n_topology n s : topology (advance_n n s) = topology s.
Proof.
  revert s; induction n as [|n IH]; intros s; cbn [advance_n];
    [reflexivity | now rewrite IH, advance_topology].
Qed.

Lemma advance_n_reportAdapter n s :
  reportAdapter (advance_n n s) = reportAdapter s.
Proof.
  revert s; induction n as [|n IH]; intros s; cbn [advance_n];
    [reflexivity | now rewrite IH, advance_reportAdapter].
Qed.

Lemma advance_n_time_init n s : time_init (advance_n n s) = time_init s.
Proof.
  revert s; induction n as [|n IH]; intros s; cbn [advance_n];
    [reflexivity | now rewrite IH, advance_time_init].
Qed.

(** With no interrupt pending, the loop started [n >= 1] steps before the
    budget is reached returns after exactly [n] steps, whatever fuel beyond
    [n] it is given. *)
Lemma run_loop_run freq_stats t n :
  forall fuel r,
    sigint r = None -> topology (engine r) = Some t ->
    steppable (engine r) -> body_ready freq_stats (engine r) ->
    currentStep (engine r) + Z.of_nat (S n) = timeSteps (engine r) ->
    (S n <= fuel)%nat ->
    run_loop fuel freq_stats r =
      (Ret tt,
       with_engine (advance_n (S n) (engine r))
         (add_events (loop_events (S n) freq_stats t (keyboard r) (engine r)) r)).
Proof.
  induction n as [|n IH]; intros fuel r Hs Ht Hst Hready Hstep Hfuel;
    (destruct fuel as [|fuel]; [lia|]); cbn [run_loop];
    rewrite (bind_Ret _ _ _ _ _ (constructSolution_run r t Hs Ht (proj2 Hst))).
  - replace (currentStep (engine r) + 1 =? timeSteps (engine r)) with true
      by (symmetry; apply Z.eqb_eq; lia).
    cbn [loop_events advance_n].
    rewrite advance_currentStep, advance_timeSteps.
    replace (currentStep (engine r) + 1 =? timeSteps (engine r)) with true
      by (symmetry; apply Z.eqb_eq; lia).
    unfold ret. now rewrite app_nil_r.
  - replace (currentStep (engine r) + 1 =? timeSteps (engine r)) with false
      by (symmetry; apply Z.eqb_neq; lia).
    set (r1 := with_engine (advance (engine r))
                 (add_events (step_events t (engine r)) r)).
    assert (Ht1 : topology (engine r1) = Some t)
      by (cbn [r1 engine with_engine]; now rewrite advance_topology).
    assert (Hready1 : body_ready freq_stats (engine r1))
      by (cbn [r1 engine with_engine]; now apply advance_body_ready).
    rewrite (bind_Ret _ _ _ _ _ (loop_body_run freq_stats r1 t Hs Ht1 Hready1)).
    rewrite (IH fuel (add_events _ r1)); try assumption.
    + cbn [loop_events advance_n].
      unfold r1, with_engine, add_events; cbn [engine trace sigint keyboard].
      rewrite !advance_currentStep, !advance_timeSteps.
      replace (currentStep (engine r) + 1 =? timeSteps (engine r)) with false
        by (symmetry; apply Z.eqb_neq; lia).
      rewrite <- !app_assoc. reflexivity.
    + cbn [engine add_events r1 with_engine]. now apply advance_steppable.
    + cbn [engine add_events r1 with_engine].
      rewrite advance_currentStep, advance_timeSteps. lia.
    + lia.
Qed.

(** *** Counting the steps in a trace *)

Lemma count_calls_app c a b :
  count_calls c (a ++ b) = (count_calls c a + count_calls c b)%nat.
Proof. unfold count_calls. now rewrite filter_app, length_app. Qed.

Lemma count_step_events c t s :
  every_step c -> count_calls c (step_events t s) = 1%nat.
Proof. intros [-> | ->]; destruct t; reflexivity. Qed.

Lemma count_body_events c freq_stats s esc :
  every_step c -> count_calls c (body_events freq_stats s esc) = 0%nat.
Proof.
  intros Hc. unfold body_events.
  destruct (freq_stats =? 0); [reflexivity|].
  rewrite !count_calls_app.
  destruct ((currentStep s mod freq_stats =? 0) || (currentStep s =? 1)),
           (report_due s), (interactiveMode s && esc);
    destruct Hc as [-> | ->]; reflexivity.
Qed.

Lemma loop_events_S n freq_stats t kb s :
  loop_events (S n) freq_stats t kb s =
    step_events t s
    ++ (if currentStep (advance s) =? timeSteps (advance s) then []
        else body_events freq_stats (advance s) (kb (currentStep (advance s)))
             ++ loop_events n freq_stats t kb (advance s)).
Proof. reflexivity. Qed.

Lemma count_loop_events c freq_stats t kb n :
  every_step c ->
  forall s,
    currentStep s + Z.of_nat (S n) = timeSteps s ->
    count_calls c (loop_events (S n) freq_stats t kb s) = S n.
Proof.
  intros Hc. induction n as [|n IH]; intros s Hstep;
    rewrite loop_events_S, count_calls_app, (count_step_events c t s Hc),
      advance_currentStep, advance_timeSteps.
  - replace (currentStep s + 1 =? timeSteps s) with true
      by (symmetry; apply Z.eqb_eq; lia).
    reflexivity.
  - replace (currentStep s + 1 =? timeSteps s) with false
      by (symmetry; apply Z.eqb_neq; lia).
    rewrite count_calls_app, (count_body_events c _ _ _ Hc), IH.
    + reflexivity.
    + rewrite advance_currentStep, advance_timeSteps. lia.
Qed.

(** C2: on a fully configured engine (the parameter check passes and the
    report adapter, if any, has a nonzero frequency) with a budget
    [timeSteps >= 1], [currentStep = 0] and no interrupt pending, the loop
    of [execute], given at least [timeSteps] units of fuel, returns: it has
    then made exactly [timeSteps] calls of [updateParticlesPosition] and of
    [updateParticlesInformation], and [currentStep] equals [timeSteps];
    and on every configured engine [constructSolution] returns true exactly
    when the incremented step counter equals the budget. *)
Theorem run_loop_terminates fuel freq_stats r :
  fst (checkParametersSet r) = Ret tt ->
  adapter_ok (engine r) ->
  sigint r = None ->
  currentStep (engine r) = 0 ->
  1 <= timeSteps (engine r) ->
  (Z.to_nat (timeSteps (engine r)) <= fuel)%nat ->
  (forall r0,
      fst (checkParametersSet r0) = Ret tt -> sigint r0 = None ->
      fst (constructSolution r0)
      = Ret (currentStep (engine r0) + 1 =? timeSteps (engine r0))) /\
  exists r',
    run_loop fuel freq_stats r = (Ret tt, r') /\
    currentStep (engine r') = timeSteps (engine r) /\
    count_calls T_updateParticlesPosition (trace r')
      = (count_calls T_updateParticlesPosition (trace r)
         + Z.to_nat (timeSteps (engine r)))%nat /\
    count_calls T_updateParticlesInformation (trace r')
      = (count_calls T_updateParticlesInformation (trace r)
         + Z.to_nat (timeSteps (engine r)))%nat.
Proof.
  intros Hc Hok Hs H0 HT Hfuel.
  split.
  { intros r0 Hc0 Hs0.
    apply checkParametersSet_returns_iff, check_passes_steppable in Hc0.
    destruct Hc0 as [[t0 Ht0] Hw0].
    now rewrite (constructSolution_run r0 t0 Hs0 Ht0 Hw0). }
  apply checkParametersSet_returns_iff, check_passes_steppable in Hc.
  destruct Hc as [[t Ht] Hw].
  destruct (Z.to_nat (timeSteps (engine r))) as [|n] eqn:En; [lia|].
  assert (Hstep : currentStep (engine r) + Z.of_nat (S n) = timeSteps (engine r))
    by lia.
  assert (Hready : body_ready freq_stats (engine r))
    by (intros _; split; [lia | exact Hok]).
  eexists. split.
  - apply (run_loop_run freq_stats t n fuel r Hs Ht (conj (ex_intro _ t Ht) Hw)
             Hready Hstep Hfuel).
  - cbn [engine trace with_engine add_events].
    rewrite advance_n_currentStep, !count_calls_app.
    rewrite !(count_loop_events _ freq_stats t (keyboard r) n) by
      (first [left; reflexivity | right; reflexivity | exact Hstep]).
    repeat split; lia.
Qed.

Lemma run_loop_terminates_witness :
  exists r',
    run_loop 10 1 (quiet Examples.inertia_down) = (Ret tt, r') /\
    currentStep (engine r') = timeSteps (engine (quiet Examples.inertia_down)).
Proof.
  destruct (run_loop_terminates 10 1 (quiet Examples.inertia_down))
    as (_ & r' & Hrun & Hstep & _).
  - vm_compute. reflexivity.
  - intros a Ha. vm_compute in Ha. discriminate Ha.
  - reflexivity.
  - reflexivity.
  - vm_compute. discriminate.
  - vm_compute. lia.
  - exists r'. split; [exact Hrun | exact Hstep].
Defined.

(** ** The inertia weight over a run *)

Lemma setInitialInertiaFactor_run w_start w_end r :
  psoType (engine r) = INERTIA -> timeSteps (engine r) <> 0 ->
  setInitialInertiaFactor w_start w_end r =
    (Ret tt,
     with_engine
       (set_inertiaFactor (Some w_start)
          (set_inertiaFactorMinus
             (Some (Qabs (w_start - w_end) / inject_Z (timeSteps (engine r)))%Q)
             (engine r))) r).
Proof.
  intros Hty HT. unfold setInitialInertiaFactor. rewrite bind_self, Hty.
  cbn [PsoType_eqb].
  destruct (Z.eqb_spec (timeSteps (engine r)) 0) as [E|_]; [contradiction|].
  reflexivity.
Qed.

(** After [n] steps the weight has lost [n] times the decrement. *)
Lemma advance_n_inertiaFactor n :
  forall s w d,
    psoType s = INERTIA ->
    inertiaFactor s = Some w -> inertiaFactorMinus s = Some d ->
    exists w', inertiaFactor (advance_n n s) = Some w'
               /\ (w' == w - inject_Z (Z.of_nat n) * d)%Q.
Proof.
  induction n as [|n IH]; intros s w d Hty Hw Hd.
  - exists w. split; [exact Hw|]. simpl. ring.
  - cbn [advance_n].
    destruct (IH (advance s) (w - d)%Q d) as (w' & Hw' & E).
    + now rewrite advance_psoType.
    + now apply advance_inertiaFactor.
    + now rewrite advance_inertiaFactorMinus.
    + exists w'. split; [exact Hw'|].
      rewrite E, Nat2Z.inj_succ. unfold Z.succ. rewrite inject_Z_plus. ring.
Qed.

(** The schedule through the code: [setInitialInertiaFactor], then the loop
    of [execute] over the whole budget. *)
Lemma inertia_run (w_start w_end : Q) (fuel : nat) (freq_stats : Z)
    (r : Run) (t : TopologyClass) :
  psoType (engine r) = INERTIA -> 1 <= timeSteps (engine r) ->
  topology (engine r) = Some t -> adapter_ok (engine r) -> sigint r = None ->
  currentStep (engine r) = 0 ->
  (Z.to_nat (timeSteps (engine r)) <= fuel)%nat ->
  exists r1 r2 w',
    setInitialInertiaFactor w_start w_end r = (Ret tt, r1) /\
    inertiaFactorMinus (engine r1)
    = Some (Qabs (w_start - w_end) / inject_Z (timeSteps (engine r)))%Q /\
    inertiaFactor (engine r1) = Some w_start /\
    run_loop fuel freq_stats r1 = (Ret tt, r2) /\
    currentStep (engine r2) = timeSteps (engine r) /\
    inertiaFactor (engine r2) = Some w' /\
    (w' == w_start - Qabs (w_start - w_end))%Q.
Proof.
  intros Hty HT Ht Hok Hs H0 Hfuel.
  set (d := (Qabs (w_start - w_end) / inject_Z (timeSteps (engine r)))%Q).
  set (s1 := set_inertiaFactor (Some w_start)
               (set_inertiaFactorMinus (Some d) (engine r))).
  destruct (Z.to_nat (timeSteps (engine r))) as [|n] eqn:En; [lia|].
  assert (Hloop := run_loop_run freq_stats t n fuel (with_engine s1 r)).
  cbn [engine with_engine sigint keyboard] in Hloop.
  specialize (Hloop Hs Ht).
  destruct (advance_n_inertiaFactor (S n) s1 w_start d) as (w' & Hw' & E);
    try reflexivity; [exact Hty|].
  exists (with_engine s1 r). eexists. exists w'.
  split; [exact (setInitialInertiaFactor_run w_start w_end r Hty ltac:(lia))|].
  split; [reflexivity|]. split; [reflexivity|].
  split.
  - apply Hloop.
    + split; [now exists t|]. intros _. now exists w_start, d.
    + intros _. split; [cbn; lia | exact Hok].
    + cbn [s1 currentStep timeSteps set_inertiaFactor set_inertiaFactorMinus].
      lia.
    + exact Hfuel.
  - cbn [engine with_engine]. split.
    + rewrite advance_n_currentStep.
      cbn [s1 currentStep set_inertiaFactor set_inertiaFactorMinus]. lia.
    + split; [exact Hw'|]. rewrite E. unfold d.
      replace (Z.of_nat (S n)) with (timeSteps (engine r)) by lia.
      field. intros Hz. unfold Qeq, inject_Z in Hz. simpl in Hz. lia.
Qed.

(** One step on an INERTIA engine whose schedule is set: the weight loses
    the decrement once, the decrement stays. *)
Lemma constructSolution_decrements r t w d :
  sigint r = None -> topology (engine r) = Some t ->
  psoType (engine r) = INERTIA ->
  inertiaFactor (engine r) = Some w -> inertiaFactorMinus (engine r) = Some d ->
  exists r',
    constructSolution r
    = (Ret (currentStep (engine r) + 1 =? timeSteps (engine r)), r') /\
    inertiaFactor (engine r') = Some (w - d)%Q /\
    inertiaFactorMinus (engine r') = Some d /\
    currentStep (engine r') = currentStep (engine r) + 1.
Proof.
  intros Hs Ht Hty Hw Hd. eexists. split.
  - apply (constructSolution_run r t Hs Ht). intros _. now exists w, d.
  - cbn [engine with_engine].
    rewrite (advance_inertiaFactor _ w d Hty Hw Hd),
      advance_inertiaFactorMinus, advance_currentStep.
    now repeat split.
Qed.

(** C4, as amended: with variant INERTIA, a budget [timeSteps >= 1] and the
    schedule set by [setInitialInertiaFactor(start, end)] with
    [end <= start], [inertiaFactorMinus] is [|start - end| / timeSteps],
    computed at that call, and [inertiaFactor] starts at [start]; each
    completed step ([constructSolution] that returns) takes
    [inertiaFactorMinus] off [inertiaFactor] once and leaves
    [inertiaFactorMinus] alone; and the run of [timeSteps] steps from step
    zero leaves [inertiaFactor] at [end], the arithmetic being exact. *)
Theorem inertia_falling_schedule_reaches_end (w_start w_end : Q)
    (fuel : nat) (freq_stats : Z) (r : Run) (t : TopologyClass) :
  (w_end <= w_start)%Q ->
  psoType (engine r) = INERTIA -> 1 <= timeSteps (engine r) ->
  topology (engine r) = Some t -> adapter_ok (engine r) -> sigint r = None ->
  currentStep (engine r) = 0 ->
  (Z.to_nat (timeSteps (engine r)) <= fuel)%nat ->
  (exists r1 r2 w',
      setInitialInertiaFactor w_start w_end r = (Ret tt, r1) /\
      inertiaFactorMinus (engine r1)
      = Some (Qabs (w_start - w_end) / inject_Z (timeSteps (engine r)))%Q /\
      inertiaFactor (engine r1) = Some w_start /\
      run_loop fuel freq_stats r1 = (Ret tt, r2) /\
      currentStep (engine r2) = timeSteps (engine r) /\
      inertiaFactor (engine r2) = Some w' /\
      (w' == w_end)%Q) /\
  (forall r0 t0 w d,
      sigint r0 = None -> topology (engine r0) = Some t0 ->
      psoType (engine r0) = INERTIA ->
      inertiaFactor (engine r0) = Some w ->
      inertiaFactorMinus (engine r0) = Some d ->
      exists r0',
        constructSolution r0
        = (Ret (currentStep (engine r0) + 1 =? timeSteps (engine r0)), r0') /\
        inertiaFactor (engine r0') = Some (w - d)%Q /\
        inertiaFactorMinus (engine r0') = Some d /\
        currentStep (engine r0') = currentStep (engine r0) + 1).
Proof.
  intros Hle Hty HT Ht Hok Hs H0 Hfuel. split.
  - destruct (inertia_run w_start w_end fuel freq_stats r t
                Hty HT Ht Hok Hs H0 Hfuel)
      as (r1 & r2 & w' & H1 & H2 & H3 & H4 & H5 & H6 & E).
    exists r1, r2, w'. repeat (split; [assumption|]).
    rewrite E, Qabs_pos.
    + ring.
    + unfold Qminus. rewrite <- Qle_minus_iff. exact Hle.
  - intros r0 t0 w d. apply constructSolution_decrements.
Qed.

Lemma inertia_falling_schedule_reaches_end_witness :
  exists r1 r2 w',
    setInitialInertiaFactor (9 # 10) (4 # 10)
      (quiet (set_inertiaFactor None
                (set_inertiaFactorMinus None Examples.inertia_down)))
    = (Ret tt, r1) /\
    run_loop 10 0 r1 = (Ret tt, r2) /\
    inertiaFactor (engine r2) = Some w' /\
    (w' == 4 # 10)%Q.
Proof.
  destruct (inertia_falling_schedule_reaches_end (9 # 10) (4 # 10) 10 0
              (quiet (set_inertiaFactor None
                        (set_inertiaFactorMinus None Examples.inertia_down)))
              GlobalTopology) as (Hrun & _).
  - vm_compute. discriminate.
  - reflexivity.
  - vm_compute. discriminate.
  - reflexivity.
  - intros a Ha. vm_compute in Ha. discriminate Ha.
  - reflexivity.
  - reflexivity.
  - vm_compute. lia.
  - destruct Hrun as (r1 & r2 & w' & H1 & _ & _ & H4 & _ & H6 & E).
    exists r1, r2, w'. repeat split; assumption.
Defined.

(** Whatever the order of [start] and [end]: with variant INERTIA and a
    budget [timeSteps >= 1], [setInitialInertiaFactor(start, end)] followed
    by the loop of [execute] over the whole budget leaves the weight at
    [start - |start - end|], the arithmetic being exact: at [end] for a
    falling schedule, at [2 * start - end] for a rising one. *)
Theorem inertia_weight_after_run (w_start w_end : Q)
    (fuel : nat) (freq_stats : Z) (r : Run) (t : TopologyClass) :
  psoType (engine r) = INERTIA -> 1 <= timeSteps (engine r) ->
  topology (engine r) = Some t -> adapter_ok (engine r) -> sigint r = None ->
  currentStep (engine r) = 0 ->
  (Z.to_nat (timeSteps (engine r)) <= fuel)%nat ->
  exists r1 r2 w',
    setInitialInertiaFactor w_start w_end r = (Ret tt, r1) /\
    run_loop fuel freq_stats r1 = (Ret tt, r2) /\
    currentStep (engine r2) = timeSteps (engine r) /\
    inertiaFactor (engine r2) = Some w' /\
    (w' == w_start - Qabs (w_start - w_end))%Q /\
    (w_start <= w_end -> w' == 2 * w_start - w_end)%Q.
Proof.
  intros Hty HT Ht Hok Hs H0 Hfuel.
  destruct (inertia_run w_start w_end fuel freq_stats r t
              Hty HT Ht Hok Hs H0 Hfuel)
    as (r1 & r2 & w' & H1 & _ & _ & H4 & H5 & H6 & E).
  exists r1, r2, w'. repeat (split; [assumption|]).
  intros Hle. rewrite E, Qabs_neg.
  - ring.
  - unfold Qminus. apply (Qplus_le_l _ _ w_end). ring_simplify. exact Hle.
Qed.

Lemma inertia_weight_after_run_witness :
  exists r1 r2 w',
    setInitialInertiaFactor (4 # 10) (9 # 10) (quiet Examples.inertia_up)
    = (Ret tt, r1) /\
    run_loop 10 1 r1 = (Ret tt, r2) /\
    inertiaFactor (engine r2) = Some w' /\
    (w' == (4 # 10) - Qabs ((4 # 10) - (9 # 10)))%Q.
Proof.
  destruct (inertia_weight_after_run (4 # 10) (9 # 10) 10 1
              (quiet Examples.inertia_up) GlobalTopology)
    as (r1 & r2 & w' & H1 & H2 & _ & H4 & E & _).
  - reflexivity.
  - vm_compute. discriminate.
  - reflexivity.
  - intros a Ha. vm_compute in Ha. discriminate Ha.
  - reflexivity.
  - reflexivity.
  - vm_compute. lia.
  - exists r1, r2, w'. repeat split; assumption.
Defined.

(** C4, counterexample: at the engine of [Examples.inertia_up], configured
    with variant INERTIA, ten steps and [setInitialInertiaFactor(0.4, 0.9)],
    the decrement is [|0.4 - 0.9| / 10], the weight starts at [0.4], and the
    run of ten steps leaves it at [-0.1], a whole unit away from the end
    value [0.9]. *)
Theorem inertia_rising_schedule_misses_end :
  let s := Examples.inertia_up in
  psoType s = INERTIA /\ timeSteps s = 10 /\
  (exists d, inertiaFactorMinus s = Some d
             /\ (d == Qabs ((4 # 10) - (9 # 10)) / inject_Z 10)%Q) /\
  inertiaFactor s = Some (4 # 10)%Q /\
  exists r' w',
    run_loop 10 0 (quiet s) = (Ret tt, r') /\
    currentStep (engine r') = 10 /\
    inertiaFactor (engine r') = Some w' /\
    (w' == - (1 # 10))%Q /\ ~ (w' == 9 # 10)%Q.
Proof.
  cbv zeta. split; [reflexivity|]. split; [reflexivity|].
  split; [eexists; split; reflexivity|]. split; [reflexivity|].
  eexists; eexists.
  split; [vm_compute; reflexivity|].
  split; [reflexivity|]. split; [reflexivity|].
  split; [reflexivity|]. intros H; vm_compute in H; discriminate H.
Qed.

(** ** What no method of the run touches *)

(** A computation that ends at once, in the state it started from. *)
Lemma settled_still {A : Type} (o : Outcome A) :
  ~ is_interrupt o -> settled (fun r => (o, r)).
Proof.
  intros Ho r o' r' H. injection H as <- <-.
  repeat split; auto; [exists []; now rewrite app_nil_r | contradiction].
Qed.

Lemma settled_ret {A : Type} (a : A) : settled (ret a).
Proof. apply (settled_still (Ret a)). exact (fun H => H). Qed.

Lemma settled_raise {A : Type} (e : PyExc) :
  e <> KeyboardInterrupt -> settled (@raise A e).
Proof.
  intros He. apply (settled_still (Raise e)). destruct e; cbn; auto.
Qed.

Lemma settled_out_of_fuel {A : Type} : settled (fun r => (@OutOfFuel A, r)).
Proof. apply (settled_still OutOfFuel). exact (fun H => H). Qed.

Lemma settled_bind {A B : Type} (m : M A) (f : A -> M B) :
  settled m -> (forall a, settled (f a)) -> settled (bind m f).
Proof.
  intros Hm Hf r o r' H. unfold bind in H.
  destruct (m r) as [[a|e|] r1] eqn:Em;
    destruct (Hm _ _ _ Em) as (F1 & K1 & (ev1 & T1) & S1 & I1).
  - destruct (Hf a _ _ _ H) as (F2 & K2 & (ev2 & T2) & S2 & I2).
    repeat split; try congruence; auto.
    exists (ev1 ++ ev2). now rewrite T2, T1, app_assoc.
  - injection H as <- <-.
    split; [exact F1|]. split; [exact K1|]. split; [now exists ev1|].
    split; [exact S1 | exact I1].
  - injection H as <- <-.
    split; [exact F1|]. split; [exact K1|]. split; [now exists ev1|].
    split; [exact S1 | intros []].
Qed.

Lemma settled_self : settled self.
Proof.
  intros r o r' H. injection H as <- <-.
  repeat split; auto; [exists []; now rewrite app_nil_r | intros []].
Qed.

Lemma settled_assign (f : Singleton -> Singleton) :
  (forall s, frozen (f s) = frozen s) -> settled (assign f).
Proof.
  intros Hf r o r' H. injection H as <- <-. cbn.
  repeat split; auto; [exists []; now rewrite app_nil_r | intros []].
Qed.

Lemma settled_call ev : settled (call ev).
Proof.
  intros r o r' H. unfold call in H.
  destruct (sigint r) as [[|k]|] eqn:Es; injection H as <- <-; cbn;
    repeat split; auto; try discriminate; try (intros []);
    solve [ exists []; now rewrite app_nil_r | now exists [ev] ].
Qed.

Lemma settled_escape_pressed : settled escape_pressed.
Proof.
  intros r o r' H. injection H as <- <-.
  repeat split; auto; [exists []; now rewrite app_nil_r | intros []].
Qed.

Create HintDb settled.
#[local] Hint Resolve settled_ret settled_self settled_call
  settled_escape_pressed settled_out_of_fuel : settled.

(** Take a method apart along its sequencing and branching. *)
Ltac settle :=
  repeat first
    [ solve [ auto with settled ]
    | apply settled_raise; discriminate
    | apply settled_assign; intros ?; reflexivity
    | apply settled_bind
    | match goal with
      | |- forall _, _ => intros ?
      | |- settled (if ?b then _ else _) => destruct b
      | |- settled (match ?x with _ => _ end) => destruct x
      end ].

Lemma settled_topology_call c : settled (topology_call c).
Proof. unfold topology_call. settle. Qed.

Lemma settled_report_call c : settled (report_call c).
Proof. unfold report_call. settle. Qed.

Lemma settled_print m : settled (print m).
Proof. exact (settled_call (PrintEv m)). Qed.

#[local] Hint Resolve settled_topology_call settled_report_call
  settled_print : settled.

Lemma settled_updateInertiaFactor : settled updateInertiaFactor.
Proof. unfold updateInertiaFactor. settle. Qed.

Lemma settled_printStats : settled printStats.
Proof. unfold printStats. settle. Qed.

Lemma settled_dumpStatsReport : settled dumpStatsReport.
Proof. unfold dumpStatsReport, getStatistics. settle. Qed.

#[local] Hint Resolve settled_updateInertiaFactor settled_printStats
  settled_dumpStatsReport : settled.

Lemma settled_on_report_step (then_ : M unit) :
  settled then_ -> settled (on_report_step then_).
Proof. intros H. unfold on_report_step. settle. Qed.

Lemma settled_constructSolution : settled constructSolution.
Proof. unfold constructSolution. settle. Qed.

#[local] Hint Resolve settled_on_report_step : settled.

Lemma settled_loop_body freq_stats : settled (loop_body freq_stats).
Proof. unfold loop_body. settle. Qed.

#[local] Hint Resolve settled_constructSolution settled_loop_body : settled.

Lemma settled_run_loop fuel freq_stats : settled (run_loop fuel freq_stats).
Proof.
  induction fuel as [|fuel IH]; cbn [run_loop]; settle.
Qed.

Lemma frozen_topology s s' : frozen s' = frozen s -> topology s' = topology s.
Proof. intros H. exact (f_equal topology H). Qed.

Lemma frozen_timeSteps s s' : frozen s' = frozen s -> timeSteps s' = timeSteps s.
Proof. intros H. exact (f_equal timeSteps H). Qed.

Lemma frozen_time_init s s' : frozen s' = frozen s -> time_init s' = time_init s.
Proof. intros H. exact (f_equal time_init H). Qed.

Lemma frozen_reportAdapter s s' :
  frozen s' = frozen s -> reportAdapter s' = reportAdapter s.
Proof. intros H. exact (f_equal reportAdapter H). Qed.

(** ** Before and after the loop *)

Lemma initialize_run r t :
  sigint r = None -> topology (engine r) = Some t ->
  initialize r =
    (Ret tt,
     add_events
       [TopologyEv T_initialize (currentStep (engine r)) (inertiaFactor (engine r));
        PrintEv MsgInitialized] r).
Proof.
  intros Hs Ht. unfold initialize, print. run_call. last_call. same_events.
Qed.

Lemma prelude_run r :
  check_passes (engine r) = true -> sigint r = None ->
  prelude r =
    (Ret tt,
     add_events (prelude_events (engine r))
       (with_engine (set_time_init (Some (List.length (trace r))) (engine r)) r)).
Proof.
  intros Hc Hs. unfold prelude, print.
  rewrite (bind_Ret _ _ _ _ _ (checkParametersSet_passes r Hc)).
  destruct (check_passes_topology _ Hc) as [t Ht].
  unfold time at 1. unfold bind at 1. unfold assign at 1. unfold bind at 1.
  fold (with_engine (set_time_init (Some (List.length (trace r))) (engine r)) r).
  set (r0 := with_engine _ r).
  assert (Hs0 : sigint r0 = None) by exact Hs.
  assert (Ht0 : topology (engine r0) = Some t) by exact Ht.
  rewrite bind_self. unfold prelude_events.
  change (reportAdapter (engine r0)) with (reportAdapter (engine r)).
  destruct (reportAdapter (engine r)) as [a|] eqn:Ha; cbn [truthy_obj].
  - assert (Ha0 : reportAdapter (engine r0) = Some a) by exact Ha.
    run_call.
    rewrite (bind_Ret _ _ _ _ _ (initialize_run (add_events _ r0) t Hs0 Ht0)).
    last_call. same_events.
  - rewrite bind_ret.
    rewrite (bind_Ret _ _ _ _ _ (initialize_run r0 t Hs0 Ht0)).
    last_call. same_events.
Qed.

(** A prelude that returns has checked the parameters, stamped the start
    time and left the rest of the configuration alone. *)
Lemma prelude_returns r r0 :
  prelude r = (Ret tt, r0) ->
  check_passes (engine r) = true /\
  topology (engine r0) = topology (engine r) /\
  timeSteps (engine r0) = timeSteps (engine r) /\
  reportAdapter (engine r0) = reportAdapter (engine r) /\
  exists t0, time_init (engine r0) = Some t0.
Proof.
  unfold prelude. intros H.
  destruct (check_passes (engine r)) eqn:Hc.
  - rewrite (bind_Ret _ _ _ _ _ (checkParametersSet_passes r Hc)) in H.
    unfold time at 1 in H. unfold bind at 1 in H.
    unfold assign at 1 in H. unfold bind at 1 in H.
    match type of H with
    | ?rest ?ra = _ =>
        assert (Hrest : settled rest)
          by (unfold initialize; settle);
        destruct (Hrest _ _ _ H) as (F & _)
    end.
    cbn [engine] in F.
    split; [reflexivity|].
    split; [exact (frozen_topology _ _ F)|].
    split; [exact (frozen_timeSteps _ _ F)|].
    split; [exact (frozen_reportAdapter _ _ F)|].
    eexists. exact (frozen_time_init _ _ F).
  - destruct (checkParametersSet_raises_TypeError r Hc) as [msg Hraise].
    rewrite (bind_Raise _ _ _ _ _ Hraise) in H. discriminate H.
Qed.

Lemma printTimeElapsed_run r t0 :
  sigint r = None -> time_init (engine r) = Some t0 ->
  printTimeElapsed r =
    (Ret tt, add_events [PrintEv (MsgTimeElapsed (time_init (engine r)))] r).
Proof.
  intros Hs Ht0. unfold printTimeElapsed, print.
  rewrite bind_self, Ht0. now apply call_run.
Qed.

Lemma final_output_run freq_stats r t :
  sigint r = None -> topology (engine r) = Some t ->
  adapter_ok (engine r) -> output_ready freq_stats (engine r) ->
  final_output freq_stats r =
    (Ret tt, add_events (final_events freq_stats (engine r)) r).
Proof.
  intros Hs Ht Hok Hready. unfold final_output, final_events.
  assert (H1 :
    (if freq_stats =? 0 then ret tt else printStats ;; printTimeElapsed) r
    = (Ret tt,
       add_events
         (if freq_stats =? 0 then []
          else stats_events (engine r)
               ++ [PrintEv (MsgTimeElapsed (time_init (engine r)))]) r)).
  { destruct (Z.eqb_spec freq_stats 0) as [E|NE].
    - unfold ret. now rewrite add_events_nil.
    - destruct (Hready NE) as (HT & t0 & Ht0).
      rewrite (bind_Ret _ _ _ _ _ (printStats_run r t Hs Ht HT)).
      rewrite (printTimeElapsed_run (add_events _ r) t0 Hs Ht0).
      same_events. }
  rewrite (bind_Ret _ _ _ _ _ H1). clear H1.
  rewrite (on_report_step_run _
             (dump_events (engine r) ++ [ReportEv R_saveAndClose])
             (add_events _ r) Hok).
  - cbn [engine add_events]. same_events.
  - unfold report_due. cbn [engine add_events].
    destruct (reportAdapter (engine r)) as [a|] eqn:Ha; [|discriminate].
    intros _.
    rewrite (bind_Ret _ _ _ _ _
               (dumpStatsReport_run (add_events _ r) t a Hs Ht Ha)).
    rewrite (report_call_run R_saveAndClose (add_events _ (add_events _ r)) a Hs Ha).
    cbn [engine add_events]. same_events.
Qed.

Lemma guarded_loop_returns fuel freq_stats r r' :
  run_loop fuel freq_stats r = (Ret tt, r') ->
  guarded_loop fuel freq_stats r = (Ret tt, r').
Proof.
  intros H. unfold guarded_loop, try_except_KeyboardInterrupt. now rewrite H.
Qed.

Lemma guarded_loop_interrupted fuel freq_stats r r1 :
  run_loop fuel freq_stats r = (Raise KeyboardInterrupt, r1) ->
  guarded_loop fuel freq_stats r =
    (Ret tt, add_events [PrintEv MsgBreak] r1).
Proof.
  intros H. unfold guarded_loop, try_except_KeyboardInterrupt. rewrite H.
  apply call_run.
  destruct (settled_run_loop fuel freq_stats _ _ _ H) as (_ & _ & _ & _ & I).
  now apply I.
Qed.

(** ** [execute]: interrupts and the final output *)

(** C7, counterexample: a run of five steps with a report adapter of
    frequency five and [freq_stats = 0], interrupted during its second step.
    [execute] returns, with [currentStep = 1]; after the break message it
    calls nothing: no [printStats], no report dump. *)
Lemma execute_interrupted_outputs_nothing :
  let r := interrupted_at 7 (Examples.reporting 5 5) in
  exists r',
    execute 10 0 r = (Ret tt, r') /\
    currentStep (engine r') = 1 /\
    trace r' =
      [ReportEv R_open; TopologyEv T_initialize 0 None;
       PrintEv MsgInitialized; PrintEv MsgStartingLoop;
       TopologyEv T_updateParticlesPosition 0 None;
       TopologyEv T_updateParticlesInformation 0 None;
       TopologyEv T_updateParticlesPosition 1 None;
       PrintEv MsgBreak] /\
    count_calls T_printStats (trace r') = 0%nat /\
    filter is_insert (trace r') = [].
Proof.
  eexists. split; [vm_compute; reflexivity|].
  repeat split; reflexivity.
Qed.

(** C7, as amended: when the prelude of [execute] has returned and an
    interrupt is delivered during the loop, [execute] catches it and
    returns normally; the engine it leaves is the engine at the moment of
    the interrupt and the calls made until then stay made; after the break
    message it runs the same final output as a run that ends by itself, on
    the step counter reached: [printStats] and the elapsed time when
    [freq_stats] is not zero, and the report dump when an adapter is set
    and the step counter is a multiple of its frequency. *)
Theorem execute_absorbs_interrupt fuel freq_stats r r0 r1 :
  prelude r = (Ret tt, r0) ->
  run_loop fuel freq_stats r0 = (Raise KeyboardInterrupt, r1) ->
  adapter_ok (engine r) ->
  (freq_stats <> 0 -> timeSteps (engine r) <> 0) ->
  exists r',
    execute fuel freq_stats r = (Ret tt, r') /\
    engine r' = engine r1 /\
    (exists before, trace r1 = trace r0 ++ before) /\
    trace r' =
      trace r1
      ++ [PrintEv MsgBreak]
      ++ (if freq_stats =? 0 then []
          else stats_events (engine r1)
               ++ [PrintEv (MsgTimeElapsed (time_init (engine r1)))])
      ++ (if report_due (engine r1)
          then dump_events (engine r1) ++ [ReportEv R_saveAndClose]
          else []).
Proof.
  intros Hpre Hloop Hok HT.
  destruct (prelude_returns r r0 Hpre) as (Hc & Ht0 & HT0 & Ha0 & t0 & Hti0).
  destruct (check_passes_topology _ Hc) as [t Ht].
  destruct (settled_run_loop fuel freq_stats _ _ _ Hloop)
    as (F & _ & Hbefore & _ & I).
  pose proof (I Logic.I) as Hs1.
  set (r2 := add_events [PrintEv MsgBreak] r1).
  assert (Hfinal :
    final_output freq_stats r2
    = (Ret tt, add_events (final_events freq_stats (engine r2)) r2)).
  { apply (final_output_run freq_stats r2 t).
    - exact Hs1.
    - cbn [r2 engine add_events].
      now rewrite (frozen_topology _ _ F), Ht0.
    - unfold adapter_ok. cbn [r2 engine add_events].
      now rewrite (frozen_reportAdapter _ _ F), Ha0.
    - intros NE. cbn [r2 engine add_events].
      rewrite (frozen_timeSteps _ _ F), (frozen_time_init _ _ F), HT0.
      split; [now apply HT | now exists t0]. }
  exists (add_events (final_events freq_stats (engine r2)) r2).
  split.
  - unfold execute. rewrite (bind_Ret _ _ _ _ _ Hpre).
    rewrite (bind_Ret _ _ _ _ _
               (guarded_loop_interrupted fuel freq_stats r0 r1 Hloop)).
    exact Hfinal.
  - split; [reflexivity|]. split; [exact Hbefore|].
    unfold final_events. cbn [r2 engine trace add_events].
    now rewrite <- !app_assoc.
Qed.

Lemma execute_absorbs_interrupt_witness :
  let r := interrupted_at 7 (Examples.reporting 5 1) in
  exists r',
    execute 10 1 r = (Ret tt, r') /\
    engine r' = engine (snd (run_loop 10 1 (snd (prelude r)))).
Proof.
  cbv zeta.
  destruct (execute_absorbs_interrupt 10 1
              (interrupted_at 7 (Examples.reporting 5 1))
              (snd (prelude (interrupted_at 7 (Examples.reporting 5 1))))
              (snd (run_loop 10 1
                      (snd (prelude (interrupted_at 7 (Examples.reporting 5 1)))))))
    as (r' & Hrun & Heng & _).
  - vm_compute. reflexivity.
  - vm_compute. reflexivity.
  - intros a Ha. vm_compute in Ha. injection Ha as <-. vm_compute. discriminate.
  - intros _. vm_compute. discriminate.
  - exists r'. split; [exact Hrun | exact Heng].
Defined.

(** C8, counterexample: a run of three steps with a report adapter of
    frequency two and [freq_stats = 0] ends by itself with
    [currentStep = timeSteps = 3]; no statistics are computed, nothing is
    inserted into the adapter, and the adapter, opened before the loop, is
    never saved and closed. *)
Lemma execute_ends_without_final_statistics :
  let r := quiet (Examples.reporting 3 2) in
  exists r',
    execute 3 0 r = (Ret tt, r') /\
    currentStep (engine r') = timeSteps (engine r') /\
    reportAdapter (engine r') = Some {| statsGenFreq := 2 |} /\
    count_calls T_statistics (trace r') = 0%nat /\
    filter is_report_call (trace r') = [ReportEv R_open] /\
    filter is_saveAndClose (trace r') = [].
Proof.
  eexists. split; [vm_compute; reflexivity|].
  repeat split; reflexivity.
Qed.

(** A whole run with no interrupt: the calls of the prelude, of the loop
    and of the final output, one after the other. *)
Lemma execute_run fuel freq_stats r t n :
  check_passes (engine r) = true ->
  topology (engine r) = Some t ->
  adapter_ok (engine r) ->
  sigint r = None ->
  0 <= currentStep (engine r) ->
  currentStep (engine r) + Z.of_nat (S n) = timeSteps (engine r) ->
  (S n <= fuel)%nat ->
  let s0 := set_time_init (Some (List.length (trace r))) (engine r) in
  let s' := advance_n (S n) s0 in
  execute fuel freq_stats r =
    (Ret tt,
     with_engine s'
       (add_events
          (prelude_events (engine r)
           ++ loop_events (S n) freq_stats t (keyboard r) s0
           ++ final_events freq_stats s') r)).
Proof.
  intros Hc Ht Hok Hs Hpos Hstep Hfuel s0 s'.
  unfold execute.
  rewrite (bind_Ret _ _ _ _ _ (prelude_run r Hc Hs)).
  set (r0 := add_events (prelude_events (engine r)) (with_engine s0 r)).
  assert (Hst0 : steppable (engine r0)).
  { destruct (check_passes_steppable _ Hc) as [Htop Hw]. split; assumption. }
  assert (HT : timeSteps (engine r) <> 0) by lia.
  assert (Hready0 : body_ready freq_stats (engine r0))
    by (intros _; split; assumption).
  pose proof (run_loop_run freq_stats t n fuel r0 Hs Ht Hst0 Hready0 Hstep Hfuel)
    as Hloop.
  rewrite (bind_Ret _ _ _ _ _ (guarded_loop_returns _ _ _ _ Hloop)).
  rewrite (final_output_run freq_stats _ t).
  - cbn [engine with_engine add_events r0]. fold s'.
    unfold r0, with_engine, add_events; cbn [engine trace sigint keyboard].
    now rewrite <- !app_assoc.
  - exact Hs.
  - cbn [engine with_engine]. now rewrite advance_n_topology.
  - unfold adapter_ok. cbn [engine with_engine].
    now rewrite advance_n_reportAdapter.
  - intros _. cbn [engine with_engine].
    rewrite advance_n_timeSteps, advance_n_time_init.
    split; [exact HT | now eexists].
Qed.

Lemma count_printStats_quiet_loop t kb n :
  forall s, count_calls T_printStats (loop_events n 0 t kb s) = 0%nat.
Proof.
  induction n as [|n IH]; intros s; [reflexivity|].
  rewrite loop_events_S, count_calls_app.
  replace (count_calls T_printStats (step_events t s)) with 0%nat
    by (destruct t; reflexivity).
  destruct (currentStep (advance s) =? timeSteps (advance s)); [reflexivity|].
  rewrite count_calls_app, IH. reflexivity.
Qed.

(** C8, as amended: a configured engine started at step zero with a budget
    of at least one step, no interrupt pending and enough fuel runs to the
    end of [execute] with [currentStep = timeSteps]; the last calls of the
    run are, in this order: when [freq_stats] is not zero, the final
    [printStats] (which computes the statistics) and the elapsed time; and,
    when a report adapter is set and [timeSteps] is a multiple of its
    frequency, the statistics, their insertion into the adapter at step
    [timeSteps] and [saveAndClose].  With [freq_stats = 0] the run calls
    [printStats] nowhere. *)
Theorem execute_final_output fuel freq_stats r :
  fst (checkParametersSet r) = Ret tt ->
  adapter_ok (engine r) ->
  sigint r = None ->
  currentStep (engine r) = 0 ->
  1 <= timeSteps (engine r) ->
  (Z.to_nat (timeSteps (engine r)) <= fuel)%nat ->
  exists r' before,
    execute fuel freq_stats r = (Ret tt, r') /\
    currentStep (engine r') = timeSteps (engine r) /\
    trace r' =
      trace r ++ before
      ++ (if freq_stats =? 0 then []
          else stats_events (engine r')
               ++ [PrintEv (MsgTimeElapsed (time_init (engine r')))])
      ++ (match reportAdapter (engine r) with
          | Some a =>
              if timeSteps (engine r) mod statsGenFreq a =? 0
              then [TopologyEv T_statistics (timeSteps (engine r))
                      (inertiaFactor (engine r'));
                    TopologyEv T_getStatistics (timeSteps (engine r))
                      (inertiaFactor (engine r'));
                    ReportEv (R_insert (timeSteps (engine r)));
                    ReportEv R_saveAndClose]
              else []
          | None => []
          end) /\
    (freq_stats = 0 ->
     count_calls T_printStats (trace r') = count_calls T_printStats (trace r)).
Proof.
  intros Hc Hok Hs H0 HT Hfuel.
  apply checkParametersSet_returns_iff in Hc.
  destruct (check_passes_topology _ Hc) as [t Ht].
  destruct (Z.to_nat (timeSteps (engine r))) as [|n] eqn:En; [lia|].
  assert (Hstep : currentStep (engine r) + Z.of_nat (S n) = timeSteps (engine r))
    by lia.
  assert (Hpos : 0 <= currentStep (engine r)) by lia.
  pose proof (execute_run fuel freq_stats r t n Hc Ht Hok Hs Hpos Hstep Hfuel)
    as Hrun. cbv zeta in Hrun.
  set (s0 := set_time_init (Some (List.length (trace r))) (engine r)) in *.
  set (s' := advance_n (S n) s0) in *.
  assert (Hcur : currentStep s' = timeSteps (engine r)).
  { unfold s'. rewrite advance_n_currentStep. unfold s0.
    cbn [currentStep set_time_init]. lia. }
  assert (Had : reportAdapter s' = reportAdapter (engine r)).
  { unfold s'. now rewrite advance_n_reportAdapter. }
  exists (with_engine s'
            (add_events
               (prelude_events (engine r)
                ++ loop_events (S n) freq_stats t (keyboard r) s0
                ++ final_events freq_stats s') r)).
  exists (prelude_events (engine r)
          ++ loop_events (S n) freq_stats t (keyboard r) s0).
  split; [exact Hrun|].
  cbn [engine trace with_engine add_events].
  split; [exact Hcur|].
  split.
  - unfold final_events, report_due, dump_events.
    rewrite Had, Hcur, <- !app_assoc.
    destruct (reportAdapter (engine r)) as [a|]; [|reflexivity].
    destruct (timeSteps (engine r) mod statsGenFreq a =? 0); reflexivity.
  - intros ->. rewrite !count_calls_app, count_printStats_quiet_loop.
    unfold prelude_events, final_events, dump_events.
    destruct (truthy_obj (reportAdapter (engine r))), (report_due s');
      cbn; lia.
Qed.

Lemma execute_final_output_witness :
  exists r' before,
    execute 4 1 (quiet (Examples.reporting 4 2)) = (Ret tt, r') /\
    currentStep (engine r') = timeSteps (engine (quiet (Examples.reporting 4 2))) /\
    trace r' =
      trace (quiet (Examples.reporting 4 2)) ++ before
      ++ (stats_events (engine r')
          ++ [PrintEv (MsgTimeElapsed (time_init (engine r')))])
      ++ [TopologyEv T_statistics 4 (inertiaFactor (engine r'));
          TopologyEv T_getStatistics 4 (inertiaFactor (engine r'));
          ReportEv (R_insert 4); ReportEv R_saveAndClose].
Proof.
  destruct (execute_final_output 4 1 (quiet (Examples.reporting 4 2)))
    as (r' & before & Hrun & Hcur & Htrace & _).
  - vm_compute. reflexivity.
  - intros a Ha. vm_compute in Ha. injection Ha as <-. vm_compute. discriminate.
  - reflexivity.
  - vm_compute. reflexivity.
  - vm_compute. discriminate.
  - vm_compute. lia.
  - exists r', before. split; [exact Hrun|]. split; [exact Hcur|].
    exact Htrace.
Defined.

(** ** The periodic report *)

Lemma report_calls_app a b :
  report_calls (a ++ b) = report_calls a ++ report_calls b.
Proof. apply filter_app. Qed.

Lemma report_calls_step_events t s : report_calls (step_events t s) = [].
Proof. destruct t; reflexivity. Qed.

(** With [freq_stats = 0] the loop calls the adapter at no step, whether one
    is set or not. *)
Lemma quiet_loop_makes_no_report t kb n :
  forall s, report_calls (loop_events n 0 t kb s) = [].
Proof.
  induction n as [|n IH]; intros s; [reflexivity|].
  rewrite loop_events_S, report_calls_app, report_calls_step_events.
  destruct (currentStep (advance s) =? timeSteps (advance s)); [reflexivity|].
  rewrite report_calls_app, IH. reflexivity.
Qed.

(** With no adapter set the loop calls none, whatever [freq_stats]. *)
Lemma loop_without_adapter_makes_no_report freq_stats t kb n :
  forall s, reportAdapter s = None ->
            report_calls (loop_events n freq_stats t kb s) = [].
Proof.
  induction n as [|n IH]; intros s Ha; [reflexivity|].
  rewrite loop_events_S, report_calls_app, report_calls_step_events.
  destruct (currentStep (advance s) =? timeSteps (advance s)); [reflexivity|].
  rewrite report_calls_app, IH by now rewrite advance_reportAdapter.
  unfold body_events, report_due. rewrite advance_reportAdapter, Ha.
  destruct (freq_stats =? 0); [reflexivity|].
  rewrite !report_calls_app.
  destruct ((currentStep (advance s) mod freq_stats =? 0)
            || (currentStep (advance s) =? 1)),
           (interactiveMode (advance s) && kb (currentStep (advance s)));
    reflexivity.
Qed.

(** A run with no adapter set makes no report call at all, and as many
    steps as its budget. *)
Lemma execute_without_adapter fuel freq_stats r :
  fst (checkParametersSet r) = Ret tt ->
  reportAdapter (engine r) = None ->
  sigint r = None ->
  currentStep (engine r) = 0 ->
  1 <= timeSteps (engine r) ->
  (Z.to_nat (timeSteps (engine r)) <= fuel)%nat ->
  exists r' evs,
    execute fuel freq_stats r = (Ret tt, r') /\
    trace r' = trace r ++ evs /\
    report_calls evs = [] /\
    count_calls T_updateParticlesPosition evs = Z.to_nat (timeSteps (engine r)).
Proof.
  intros Hc Ha Hs H0 HT Hfuel.
  apply checkParametersSet_returns_iff in Hc.
  destruct (check_passes_topology _ Hc) as [t Ht].
  destruct (Z.to_nat (timeSteps (engine r))) as [|n] eqn:En; [lia|].
  assert (Hstep : currentStep (engine r) + Z.of_nat (S n) = timeSteps (engine r))
    by lia.
  assert (Hpos : 0 <= currentStep (engine r)) by lia.
  assert (Hok : adapter_ok (engine r))
    by (intros a Ha'; rewrite Ha in Ha'; discriminate Ha').
  pose proof (execute_run fuel freq_stats r t n Hc Ht Hok Hs Hpos Hstep Hfuel)
    as Hrun. cbv zeta in Hrun.
  eexists; eexists. split; [exact Hrun|].
  cbn [trace with_engine add_events]. split; [reflexivity|].
  split.
  - rewrite !report_calls_app.
    rewrite loop_without_adapter_makes_no_report by exact Ha.
    unfold prelude_events, final_events, report_due.
    rewrite advance_n_reportAdapter. cbn [reportAdapter set_time_init].
    rewrite Ha. cbn [truthy_obj].
    destruct (freq_stats =? 0); reflexivity.
  - rewrite !count_calls_app.
    rewrite (count_loop_events T_updateParticlesPosition)
      by (first [left; reflexivity | exact Hstep]).
    unfold prelude_events, final_events.
    destruct (truthy_obj (reportAdapter (engine r))), (freq_stats =? 0),
             (report_due _); cbn; lia.
Qed.

(** C9, at the engine of [Examples.reporting 3 1], three steps with a report
    adapter of frequency one: with [freq_stats = 0] the run opens the
    adapter and inserts nothing at steps one and two, its only insertion is
    the final one; the same engine run with [freq_stats = 7] inserts at
    every step. *)
Theorem periodic_report_follows_freq_stats :
  let r := quiet (Examples.reporting 3 1) in
  reportAdapter (engine r) = Some {| statsGenFreq := 1 |} /\
  (exists r',
      execute 3 0 r = (Ret tt, r') /\
      report_calls (trace r') =
        [ReportEv R_open; ReportEv (R_insert 3); ReportEv R_saveAndClose]) /\
  (exists r',
      execute 3 7 r = (Ret tt, r') /\
      report_calls (trace r') =
        [ReportEv R_open; ReportEv (R_insert 1); ReportEv (R_insert 2);
         ReportEv (R_insert 3); ReportEv R_saveAndClose]).
Proof.
  split; [reflexivity|].
  split; (eexists; split; [vm_compute; reflexivity | reflexivity]).
Qed.

(** ** The bound setters *)

Lemma list_update_length {A : Type} (xs : list A) n v :
  List.length (list_update xs n v) = List.length xs.
Proof.
  revert n; induction xs as [|x xs IH]; intros [|n]; simpl; auto.
Qed.

Lemma nth_error_list_update {A : Type} (xs : list A) n v i :
  nth_error (list_update xs n v) i =
    if Nat.eqb i n && Nat.ltb n (List.length xs) then Some v
    else nth_error xs i.
Proof.
  revert n i; induction xs as [|x xs IH]; intros n i.
  - simpl. destruct n; rewrite andb_false_r; reflexivity.
  - destruct n as [|n], i as [|i]; simpl; try reflexivity.
    rewrite IH. reflexivity.
Qed.

Lemma range_cons first last :
  first < last -> range first last = first :: range (first + 1) last.
Proof.
  intros H. unfold range.
  replace (Z.to_nat (last - first)) with (S (Z.to_nat (last - (first + 1))))
    by lia.
  cbn [seq map]. f_equal; [lia|].
  rewrite <- seq_shift, map_map.
  apply map_ext. intros k. lia.
Qed.

Lemma range_empty first last : last <= first -> range first last = [].
Proof.
  intros H. unfold range. now replace (Z.to_nat (last - first)) with O by lia.
Qed.

Section BoundList.

(** One of the three bound lists, as an attribute one reads and assigns. *)
Variable get : Singleton -> list PyVal.
Variable set : list PyVal -> Singleton -> Singleton.
Hypothesis get_set : forall l s, get (set l s) = l.
Hypothesis set_set : forall l l' s, set l (set l' s) = set l s.
Hypothesis set_get : forall s, set (get s) s = s.

Lemma store_bound_inside i v r :
  0 <= i < Z.of_nat (List.length (get (engine r))) ->
  store_bound get set i v r =
    (Ret tt,
     with_engine (set (list_update (get (engine r)) (Z.to_nat i) v) (engine r)) r).
Proof.
  intros Hi. unfold store_bound, setitem. rewrite bind_self.
  replace (0 <=? i) with true by (symmetry; apply Z.leb_le; lia).
  replace (i <? Z.of_nat (List.length (get (engine r)))) with true
    by (symmetry; apply Z.ltb_lt; lia).
  reflexivity.
Qed.

Lemma store_bound_empty i v r :
  get (engine r) = [] -> store_bound get set i v r = (Raise IndexError, r).
Proof.
  intros He. unfold store_bound, setitem. rewrite bind_self, He.
  cbn [List.length Z.of_nat Z.opp].
  destruct (0 <=? i) eqn:E1, (i <? 0) eqn:E2; try reflexivity.
  apply Z.leb_le in E1. apply Z.ltb_lt in E2. lia.
Qed.

(** Storing into [n] consecutive slots that all exist. *)
Lemma store_range v n :
  forall first r,
    0 <= first ->
    first + Z.of_nat n <= Z.of_nat (List.length (get (engine r))) ->
    exists l',
      for_each (range first (first + Z.of_nat n))
        (fun i => store_bound get set i v) r
      = (Ret tt, with_engine (set l' (engine r)) r) /\
      filled (get (engine r)) l' first (first + Z.of_nat n) v.
Proof.
  induction n as [|n IH]; intros first r Hf Hl.
  - exists (get (engine r)).
    rewrite range_empty by lia. cbn [for_each]. unfold ret.
    rewrite set_get. split.
    + now destruct r.
    + split; [reflexivity|]. intros i.
      destruct (first <=? Z.of_nat i) eqn:E1,
               (Z.of_nat i <? first + Z.of_nat 0) eqn:E2; try reflexivity.
      apply Z.leb_le in E1. apply Z.ltb_lt in E2. lia.
  - rewrite range_cons by lia. cbn [for_each].
    rewrite (bind_Ret _ _ _ _ _ (store_bound_inside first v r ltac:(lia))).
    set (l1 := list_update (get (engine r)) (Z.to_nat first) v).
    set (r1 := with_engine (set l1 (engine r)) r).
    assert (Hg1 : get (engine r1) = l1) by apply get_set.
    destruct (IH (first + 1) r1) as (l' & Hrun & Hlen & Hnth).
    + lia.
    + rewrite Hg1. unfold l1. rewrite list_update_length. lia.
    + exists l'. split.
      * replace (first + Z.of_nat (S n)) with (first + 1 + Z.of_nat n) by lia.
        rewrite Hrun. unfold r1, with_engine; cbn [engine trace sigint keyboard].
        now rewrite set_set.
      * rewrite Hg1 in Hlen, Hnth. unfold l1 in Hlen, Hnth.
        rewrite list_update_length in Hlen.
        split; [exact Hlen|]. intros i. rewrite Hnth, nth_error_list_update.
        destruct (Nat.eqb_spec i (Z.to_nat first)) as [Heq|Hne];
          destruct (Nat.ltb_spec (Z.to_nat first)
                      (List.length (get (engine r)))) as [Hlt|Hge];
          cbn [andb];
          destruct (first + 1 <=? Z.of_nat i) eqn:E1,
                   (Z.of_nat i <? first + 1 + Z.of_nat n) eqn:E2,
                   (first <=? Z.of_nat i) eqn:E3,
                   (Z.of_nat i <? first + Z.of_nat (S n)) eqn:E4;
          cbn [andb]; try reflexivity;
          rewrite ?Z.leb_le, ?Z.leb_gt, ?Z.ltb_lt, ?Z.ltb_ge in *; lia.
Qed.

(** The loop of a setter over a range that fits the list. *)
Lemma store_fitting_range first last v r :
  0 <= first <= last ->
  last <= Z.of_nat (List.length (get (engine r))) ->
  exists l',
    for_each (range first last) (fun i => store_bound get set i v) r
    = (Ret tt, with_engine (set l' (engine r)) r) /\
    filled (get (engine r)) l' first last v.
Proof.
  intros Hf Hl.
  destruct (store_range v (Z.to_nat (last - first)) first r) as (l' & H1 & H2);
    try lia.
  replace (first + Z.of_nat (Z.to_nat (last - first))) with last in * by lia.
  now exists l'.
Qed.

(** The loop of a setter on a list that was never filled. *)
Lemma store_into_empty first last v r :
  first < last -> get (engine r) = [] ->
  for_each (range first last) (fun i => store_bound get set i v) r
  = (Raise IndexError, r).
Proof.
  intros Hlt He. rewrite range_cons by exact Hlt. cbn [for_each].
  now rewrite (bind_Raise _ _ _ _ _ (store_bound_empty first v r He)).
Qed.

End BoundList.

Lemma set_positionBounds_same s : set_positionBounds (positionBounds s) s = s.
Proof. now destruct s. Qed.

Lemma set_initialPositionBounds_same s :
  set_initialPositionBounds (initialPositionBounds s) s = s.
Proof. now destruct s. Qed.

Lemma set_velocityBounds_same s : set_velocityBounds (velocityBounds s) s = s.
Proof. now destruct s. Qed.

(** C6, counterexample: on the engine [Examples.basic3], whose bounds were
    initialized for two dimensions, [definePositionBounds(0, 1, (1, 2, 3))]
    raises nothing and stores the triple in slot zero, although a triple is
    not a (min, max) pair. *)
Lemma definePositionBounds_accepts_a_triple :
  let v := PyTuple [PyFloat (1 # 1); PyFloat (2 # 1); PyFloat (3 # 1)] in
  exists r',
    definePositionBounds 0 1 v (quiet Examples.basic3) = (Ret tt, r') /\
    nth_error (positionBounds (engine r')) 0 = Some v.
Proof. eexists. split; [vm_compute; reflexivity | reflexivity]. Qed.

(** C6, as amended.  For [0 <= first < last] no greater than the length of
    the bound list: [definePositionBounds] and [defineInitialPositionBounds],
    given any tuple, and [defineVelocityBounds], given any value, return
    having stored the value in every slot of [first .. last - 1] of their
    list and having changed no other slot and no other attribute.  The two
    position setters raise their TypeError, engine unchanged, exactly when
    the value is not a tuple, of whatever length.  On a bound list that was
    never initialized, each setter called with [first < last] (and a tuple,
    for the position setters) fails with IndexError, engine unchanged. *)
Theorem define_bounds_fill_range (first last : Z) (v : PyVal) (r : Run) :
  first < last ->
  (0 <= first ->
   (is_tuple v = true ->
    last <= Z.of_nat (List.length (positionBounds (engine r))) ->
    exists l',
      definePositionBounds first last v r
      = (Ret tt, with_engine (set_positionBounds l' (engine r)) r) /\
      filled (positionBounds (engine r)) l' first last v) /\
   (is_tuple v = true ->
    last <= Z.of_nat (List.length (initialPositionBounds (engine r))) ->
    exists l',
      defineInitialPositionBounds first last v r
      = (Ret tt, with_engine (set_initialPositionBounds l' (engine r)) r) /\
      filled (initialPositionBounds (engine r)) l' first last v) /\
   (last <= Z.of_nat (List.length (velocityBounds (engine r))) ->
    exists l',
      defineVelocityBounds first last v r
      = (Ret tt, with_engine (set_velocityBounds l' (engine r)) r) /\
      filled (velocityBounds (engine r)) l' first last v)) /\
  (is_tuple v = false ->
   definePositionBounds first last v r
   = (Raise (TypeError "minMaxValue type must be a tuple (a,b)."), r) /\
   defineInitialPositionBounds first last v r
   = (Raise (TypeError "minMaxValue type must be a tuple (a,b)."), r)) /\
  (is_tuple v = true -> positionBounds (engine r) = [] ->
   definePositionBounds first last v r = (Raise IndexError, r)) /\
  (is_tuple v = true -> initialPositionBounds (engine r) = [] ->
   defineInitialPositionBounds first last v r = (Raise IndexError, r)) /\
  (velocityBounds (engine r) = [] ->
   defineVelocityBounds first last v r = (Raise IndexError, r)).
Proof.
  intros Hlt.
  split; [intros Hf; split; [|split]|split; [|split; [|split]]].
  - intros Hv Hl. unfold definePositionBounds. rewrite Hv. cbn [negb].
    rewrite bind_ret.
    apply (store_fitting_range positionBounds set_positionBounds); auto.
    + apply set_positionBounds_same.
    + lia.
  - intros Hv Hl. unfold defineInitialPositionBounds. rewrite Hv. cbn [negb].
    rewrite bind_ret.
    apply (store_fitting_range initialPositionBounds set_initialPositionBounds);
      auto.
    + apply set_initialPositionBounds_same.
    + lia.
  - intros Hl. unfold defineVelocityBounds.
    apply (store_fitting_range velocityBounds set_velocityBounds); auto.
    + apply set_velocityBounds_same.
    + lia.
  - intros Hv. unfold definePositionBounds, defineInitialPositionBounds.
    rewrite Hv. split; reflexivity.
  - intros Hv He. unfold definePositionBounds. rewrite Hv. cbn [negb].
    rewrite bind_ret.
    now apply (store_into_empty positionBounds set_positionBounds).
  - intros Hv He. unfold defineInitialPositionBounds. rewrite Hv. cbn [negb].
    rewrite bind_ret.
    now apply (store_into_empty initialPositionBounds set_initialPositionBounds).
  - intros He. unfold defineVelocityBounds.
    now apply (store_into_empty velocityBounds set_velocityBounds).
Qed.

Lemma define_bounds_fill_range_witness :
  (exists l',
      defineVelocityBounds 0 2 (PyFloat (3 # 1)) (quiet Examples.basic3)
      = (Ret tt,
         with_engine (set_velocityBounds l' (engine (quiet Examples.basic3)))
           (quiet Examples.basic3)) /\
      filled (velocityBounds (engine (quiet Examples.basic3))) l' 0 2
        (PyFloat (3 # 1))) /\
  definePositionBounds 0 2 (PyFloat (3 # 1)) (quiet Examples.basic3)
  = (Raise (TypeError "minMaxValue type must be a tuple (a,b)."),
     quiet Examples.basic3).
Proof.
  destruct (define_bounds_fill_range 0 2 (PyFloat (3 # 1))
              (quiet Examples.basic3)) as (Hin & Hty & _).
  - lia.
  - split.
    + destruct Hin as (_ & _ & Hvel); [lia|].
      apply Hvel. vm_compute. discriminate.
    + apply Hty. reflexivity.
Defined.

(** ** The singleton handle *)

Lemma getattr_setattr s a v : getattr (setattr s a v) a = v.
Proof. destruct a; reflexivity. Qed.

Lemma nth_error_list_update_same {A : Type} (xs : list A) n v :
  (n < List.length xs)%nat -> nth_error (list_update xs n v) n = Some v.
Proof.
  intros H. rewrite nth_error_list_update, Nat.eqb_refl.
  destruct (Nat.ltb_spec n (List.length xs)); [reflexivity | lia].
Qed.

(** Once the class holds an instance, a construction allocates nothing and
    changes nothing: it only hands out a reference to that instance. *)
Lemma PSO___init___again k p l :
  _iInstance p = Some l ->
  PSO___init__ k p = ({| EventHandler_instance := l |}, p).
Proof. intros H. unfold PSO___init__. rewrite H. cbv zeta. now rewrite H. Qed.

Lemma PSO___init___first k p :
  _iInstance p = None ->
  PSO___init__ k p =
    ({| EventHandler_instance := List.length (heap p) |},
     {| heap := heap p ++ [Singleton___init__ k true];
        _iInstance := Some (List.length (heap p)) |}).
Proof. intros H. unfold PSO___init__. rewrite H. reflexivity. Qed.

Lemma PSO___init___well_formed k p :
  well_formed p ->
  well_formed (snd (PSO___init__ k p)) /\
  _iInstance (snd (PSO___init__ k p))
  = Some (EventHandler_instance (fst (PSO___init__ k p))).
Proof.
  unfold well_formed. intros Hwf.
  destruct (_iInstance p) as [l|] eqn:Hi.
  - rewrite (PSO___init___again k p l Hi). cbn [fst snd EventHandler_instance].
    rewrite Hi. now split.
  - rewrite (PSO___init___first k p Hi).
    cbn [fst snd EventHandler_instance _iInstance heap].
    split; [|reflexivity]. rewrite length_app. cbn. lia.
Qed.

(** C10: whatever the interpreter state, two constructions [e1 = PSO()],
    [e2 = PSO()] in a row give two handles that hold the same reference,
    the one the class attribute [_iInstance] holds; the second construction
    leaves the interpreter state as the first left it; every attribute
    reads the same through both handles; a value assigned through one
    handle is read back through the other; and after such an assignment,
    or after any method run through a handle, one more construction again
    hands out the same reference and changes nothing. *)
Theorem PSO_handles_share_one_instance (k : Consts) (p : Process) :
  well_formed p ->
  let e1 := fst (PSO___init__ k p) in
  let p1 := snd (PSO___init__ k p) in
  let e2 := fst (PSO___init__ k p1) in
  let p2 := snd (PSO___init__ k p1) in
  p2 = p1 /\
  e2 = e1 /\
  _iInstance p1 = Some (EventHandler_instance e1) /\
  (exists s, instance_of p1 e1 = Some s /\ instance_of p2 e2 = Some s) /\
  (forall a, PSO___getattr__ p2 e2 a = PSO___getattr__ p2 e1 a) /\
  (forall a v,
      exists p3,
        PSO___setattr__ p2 e1 a v = Some p3 /\
        PSO___getattr__ p3 e2 a = Some v /\
        PSO___setattr__ p2 e2 a v = Some p3 /\
        PSO___getattr__ p3 e1 a = Some v /\
        PSO___init__ k p3 = (e1, p3)) /\
  (forall (A : Type) (m : M A) (env : Run),
      exists o env' p3,
        PSO_method p2 e1 m env = Some (o, env', p3) /\
        instance_of p3 e2 = Some (engine env') /\
        PSO___init__ k p3 = (e1, p3)).
Proof.
  intros Hwf. cbv zeta.
  destruct (PSO___init___well_formed k p Hwf) as [Hwf1 Hi1].
  destruct (PSO___init__ k p) as [e1 p1] eqn:E1.
  cbn [fst snd] in *.
  rewrite (PSO___init___again k p1 _ Hi1). cbn [fst snd].
  assert (He : {| EventHandler_instance := EventHandler_instance e1 |} = e1)
    by now destruct e1.
  rewrite He.
  unfold well_formed in Hwf1. rewrite Hi1 in Hwf1.
  destruct (nth_error (heap p1) (EventHandler_instance e1)) as [s|] eqn:Hs;
    [|apply nth_error_None in Hs; lia].
  assert (Hinst : instance_of p1 e1 = Some s)
    by (unfold instance_of; now rewrite Hi1).
  split; [reflexivity|]. split; [reflexivity|]. split; [exact Hi1|].
  split; [now exists s|]. split; [reflexivity|].
  split.
  - intros a v.
    exists {| heap := list_update (heap p1) (EventHandler_instance e1)
                        (setattr s a v);
              _iInstance := _iInstance p1 |}.
    assert (Hset : PSO___setattr__ p1 e1 a v = Some
              {| heap := list_update (heap p1) (EventHandler_instance e1)
                           (setattr s a v);
                 _iInstance := _iInstance p1 |})
      by (unfold PSO___setattr__; now rewrite Hi1, Hs).
    assert (Hget : forall h,
              PSO___getattr__
                {| heap := list_update (heap p1) (EventHandler_instance e1)
                             (setattr s a v);
                   _iInstance := _iInstance p1 |} h a = Some v).
    { intros h. unfold PSO___getattr__, instance_of. cbn [_iInstance heap].
      rewrite Hi1, nth_error_list_update_same by exact Hwf1.
      now rewrite getattr_setattr. }
    split; [exact Hset|]. split; [apply Hget|].
    split; [exact Hset|]. split; [apply Hget|].
    rewrite (PSO___init___again k _ (EventHandler_instance e1)) by exact Hi1.
    now rewrite He.
  - intros A m env.
    unfold PSO_method. rewrite Hi1, Hs.
    do 3 eexists. split; [reflexivity|].
    split.
    + unfold instance_of. cbn [_iInstance heap].
      now rewrite nth_error_list_update_same by exact Hwf1.
    + rewrite (PSO___init___again k _ (EventHandler_instance e1))
        by reflexivity.
      now rewrite He.
Qed.

Lemma PSO_handles_share_one_instance_witness :
  let e1 := fst (PSO___init__ Examples.consts fresh_process) in
  let p1 := snd (PSO___init__ Examples.consts fresh_process) in
  let e2 := fst (PSO___init__ Examples.consts p1) in
  let p2 := snd (PSO___init__ Examples.consts p1) in
  p2 = p1 /\ e2 = e1.
Proof.
  destruct (PSO_handles_share_one_instance Examples.consts fresh_process)
    as (H1 & H2 & _).
  - exact I.
  - split; [exact H1 | exact H2].
Defined.

(** ** [initializeBounds] *)

(** One round of the loop of [initializeBounds]. *)
Lemma initializeBounds_rounds (xs : list Z) :
  forall r,
    exists s',
      for_each xs (fun _ =>
        assign (fun s => set_initialPositionBounds (initialPositionBounds s ++ [zero_pair]) s) ;;
        assign (fun s => set_positionBounds (positionBounds s ++ [zero_pair]) s) ;;
        assign (fun s => set_velocityBounds (velocityBounds s ++ [PyFloat 0]) s)) r
      = (Ret tt, with_engine s' r) /\
      positionBounds s'
      = positionBounds (engine r) ++ repeat zero_pair (List.length xs) /\
      initialPositionBounds s'
      = initialPositionBounds (engine r) ++ repeat zero_pair (List.length xs) /\
      velocityBounds s'
      = velocityBounds (engine r) ++ repeat (PyFloat 0) (List.length xs) /\
      (forall a, a <> a_positionBounds -> a <> a_initialPositionBounds ->
                 a <> a_velocityBounds -> getattr s' a = getattr (engine r) a).
Proof.
  induction xs as [|x xs IH]; intros r.
  - exists (engine r). cbn [for_each List.length repeat]. unfold ret.
    rewrite !app_nil_r. split; [now destruct r|]. now repeat split.
  - cbn [for_each]. unfold bind at 1. unfold bind at 1. unfold bind at 1.
    unfold assign at 1. unfold assign at 1. unfold assign at 1.
    cbn [engine trace sigint keyboard].
    match goal with
    | |- context [for_each xs _ ?r1] =>
        destruct (IH r1) as (s' & Hrun & Hp & Hi & Hv & Hother)
    end.
    exists s'. rewrite Hrun. cbn [engine] in *.
    split; [reflexivity|].
    cbn [positionBounds initialPositionBounds velocityBounds
         set_velocityBounds set_positionBounds set_initialPositionBounds] in *.
    rewrite Hp, Hi, Hv. cbn [List.length repeat].
    rewrite <- !app_assoc. cbn [app].
    repeat split; try reflexivity.
    intros a H1 H2 H3. rewrite (Hother a H1 H2 H3).
    destruct a; try reflexivity; congruence.
Qed.

Lemma range_length first last :
  List.length (range first last) = Z.to_nat (last - first).
Proof. unfold range. now rewrite length_map, length_seq. Qed.

Lemma initializeBounds_run (dimensions : Z) (r : Run) :
  exists s',
    initializeBounds dimensions r = (Ret tt, with_engine s' r) /\
    positionBounds s'
    = positionBounds (engine r) ++ repeat zero_pair (Z.to_nat dimensions) /\
    initialPositionBounds s'
    = initialPositionBounds (engine r) ++ repeat zero_pair (Z.to_nat dimensions) /\
    velocityBounds s'
    = velocityBounds (engine r) ++ repeat (PyFloat 0) (Z.to_nat dimensions) /\
    (forall a, a <> a_positionBounds -> a <> a_initialPositionBounds ->
               a <> a_velocityBounds -> getattr s' a = getattr (engine r) a).
Proof.
  unfold initializeBounds.
  destruct (initializeBounds_rounds (range 0 dimensions) r)
    as (s' & Hrun & Hp & Hi & Hv & Hother).
  rewrite range_length, Z.sub_0_r in Hp, Hi, Hv.
  exists s'. now repeat split.
Qed.

(** [initializeBounds(d)] never fails and never resets: it appends
    [max(d, 0)] default entries, [(0.0, 0.0)] or [0.0], to each of the three
    bound lists, keeps the entries already there and changes no other
    attribute. *)
Theorem initializeBounds_appends (dimensions : Z) (r : Run) :
  exists s',
    initializeBounds dimensions r = (Ret tt, with_engine s' r) /\
    positionBounds s'
    = positionBounds (engine r) ++ repeat zero_pair (Z.to_nat dimensions) /\
    initialPositionBounds s'
    = initialPositionBounds (engine r) ++ repeat zero_pair (Z.to_nat dimensions) /\
    velocityBounds s'
    = velocityBounds (engine r) ++ repeat (PyFloat 0) (Z.to_nat dimensions) /\
    (forall a, a <> a_positionBounds -> a <> a_initialPositionBounds ->
               a <> a_velocityBounds -> getattr s' a = getattr (engine r) a).
Proof. exact (initializeBounds_run dimensions r). Qed.

(** Called twice, [initializeBounds] doubles the lists: after
    [initializeBounds(d1)] and [initializeBounds(d2)] each list has grown by
    [d1 + d2] entries. *)
Theorem initializeBounds_accumulates (d1 d2 : Z) (r : Run) :
  0 <= d1 -> 0 <= d2 ->
  exists r',
    (initializeBounds d1 ;; initializeBounds d2) r = (Ret tt, r') /\
    List.length (positionBounds (engine r'))
    = (List.length (positionBounds (engine r)) + Z.to_nat (d1 + d2))%nat /\
    List.length (initialPositionBounds (engine r'))
    = (List.length (initialPositionBounds (engine r)) + Z.to_nat (d1 + d2))%nat /\
    List.length (velocityBounds (engine r'))
    = (List.length (velocityBounds (engine r)) + Z.to_nat (d1 + d2))%nat.
Proof.
  intros H1 H2.
  destruct (initializeBounds_run d1 r) as (s1 & Hrun1 & Hp1 & Hi1 & Hv1 & _).
  destruct (initializeBounds_run d2 (with_engine s1 r))
    as (s2 & Hrun2 & Hp2 & Hi2 & Hv2 & _).
  exists (with_engine s2 r).
  rewrite (bind_Ret _ _ _ _ _ Hrun1), Hrun2.
  split; [reflexivity|].
  cbn [engine with_engine] in *.
  rewrite Hp2, Hi2, Hv2, Hp1, Hi1, Hv1.
  rewrite !length_app, !repeat_length. repeat split; lia.
Qed.

Lemma initializeBounds_accumulates_witness :
  exists r',
    (initializeBounds 2 ;; initializeBounds 3) (quiet Examples.basic3)
    = (Ret tt, r') /\
    List.length (positionBounds (engine r'))
    = (List.length (positionBounds (engine (quiet Examples.basic3)))
       + Z.to_nat (2 + 3))%nat.
Proof.
  destruct (initializeBounds_accumulates 2 3 (quiet Examples.basic3))
    as (r' & Hrun & Hp & _); [lia | lia |].
  exists r'. split; [exact Hrun | exact Hp].
Defined.

Lemma truthy_list_app_repeat {A : Type} (l : list A) (x : A) n :
  (0 < n)%nat -> truthy_list (l ++ repeat x n) = true.
Proof.
  intros Hn. destruct l; [|reflexivity].
  destruct n; [lia | reflexivity].
Qed.

(** The parameter check does not tell bounds that were defined from bounds
    left at their defaults: on an engine with topology and fitness function
    set and a variant other than INERTIA, [initializeBounds(d)] with
    [d >= 1] alone is enough for [checkParametersSet] to pass. *)
Theorem default_bounds_pass_the_check (dimensions : Z) (r : Run) :
  1 <= dimensions ->
  topology (engine r) <> None -> function (engine r) <> None ->
  psoType (engine r) <> INERTIA ->
  exists r',
    (initializeBounds dimensions ;; checkParametersSet) r = (Ret tt, r') /\
    positionBounds (engine r')
    = positionBounds (engine r) ++ repeat zero_pair (Z.to_nat dimensions).
Proof.
  intros Hd Ht Hf Hty.
  destruct (initializeBounds_run dimensions r)
    as (s' & Hrun & Hp & Hi & Hv & Hother).
  exists (with_engine s' r).
  rewrite (bind_Ret _ _ _ _ _ Hrun).
  split; [|exact Hp].
  apply checkParametersSet_passes. cbn [engine with_engine].
  unfold check_passes. rewrite Hp, Hi, Hv.
  rewrite !truthy_list_app_repeat by lia.
  pose proof (Hother a_topology) as Et. pose proof (Hother a_function) as Ef.
  pose proof (Hother a_psoType) as Ep. cbn [getattr] in Et, Ef, Ep.
  rewrite Et, Ef, Ep by discriminate.
  destruct (topology (engine r)); [|congruence].
  destruct (function (engine r)); [|congruence].
  destruct (psoType (engine r)); try reflexivity. congruence.
Qed.

Lemma default_bounds_pass_the_check_witness :
  exists r',
    (initializeBounds 2 ;; checkParametersSet)
      (quiet (set_topology (Some GlobalTopology)
                (set_function (Some "sphere")
                   (Singleton___init__ Examples.consts true))))
    = (Ret tt, r').
Proof.
  destruct (default_bounds_pass_the_check 2
              (quiet (set_topology (Some GlobalTopology)
                        (set_function (Some "sphere")
                           (Singleton___init__ Examples.consts true)))))
    as (r' & Hrun & _).
  - lia.
  - cbn. discriminate.
  - cbn. discriminate.
  - cbn. discriminate.
  - exists r'. exact Hrun.
Defined.

(** ** The bound setters outside the list *)

Lemma bind_assoc {A B C : Type} (m : M A) (f : A -> M B) (g : B -> M C) r :
  bind (bind m f) g r = bind m (fun a => bind (f a) g) r.
Proof. unfold bind. destruct (m r) as [[a|e|] r1]; reflexivity. Qed.

Lemma bind_ext {A B : Type} (m : M A) (f g : A -> M B) r :
  (forall a r', f a r' = g a r') -> bind m f r = bind m g r.
Proof.
  intros H. unfold bind. destruct (m r) as [[a|e|] r1]; try reflexivity.
  apply H.
Qed.

Lemma for_each_app {A : Type} (xs ys : list A) (body : A -> M unit) r :
  for_each (xs ++ ys) body r = (for_each xs body ;; for_each ys body) r.
Proof.
  revert r; induction xs as [|x xs IH]; intros r.
  - reflexivity.
  - cbn [app for_each]. rewrite bind_assoc.
    apply bind_ext. intros _ r'. apply IH.
Qed.

Lemma map_seq_from {B : Type} (f : nat -> B) (a b : nat) :
  forall c, map f (seq (a + c) b) = map (fun k => f (a + k)%nat) (seq c b).
Proof.
  induction b as [|b IH]; intros c; cbn [seq map]; [reflexivity|].
  f_equal. rewrite <- Nat.add_succ_r. apply IH.
Qed.

Lemma range_split first mid last :
  first <= mid <= last -> range first last = range first mid ++ range mid last.
Proof.
  intros H. unfold range.
  replace (Z.to_nat (last - first))
    with (Z.to_nat (mid - first) + Z.to_nat (last - mid))%nat by lia.
  rewrite seq_app, map_app. f_equal.
  rewrite <- (Nat.add_0_r (0 + Z.to_nat (mid - first))), Nat.add_0_l.
  rewrite map_seq_from. apply map_ext. intros k. lia.
Qed.

Section BoundListEdges.

Variable get : Singleton -> list PyVal.
Variable set : list PyVal -> Singleton -> Singleton.
Hypothesis get_set : forall l s, get (set l s) = l.
Hypothesis set_set : forall l l' s, set l (set l' s) = set l s.
Hypothesis set_get : forall s, set (get s) s = s.

Lemma store_bound_outside i v r :
  Z.of_nat (List.length (get (engine r))) <= i ->
  store_bound get set i v r = (Raise IndexError, r).
Proof.
  intros Hi. unfold store_bound, setitem. rewrite bind_self.
  replace (i <? Z.of_nat (List.length (get (engine r)))) with false
    by (symmetry; apply Z.ltb_ge; lia).
  replace (i <? 0) with false by (symmetry; apply Z.ltb_ge; lia).
  now rewrite !andb_false_r.
Qed.

Lemma store_bound_from_the_end i v r :
  - Z.of_nat (List.length (get (engine r))) <= i < 0 ->
  store_bound get set i v r =
    (Ret tt,
     with_engine
       (set (list_update (get (engine r))
               (Z.to_nat (Z.of_nat (List.length (get (engine r))) + i)) v)
          (engine r)) r).
Proof.
  intros Hi. unfold store_bound, setitem. rewrite bind_self.
  replace (0 <=? i) with false by (symmetry; apply Z.leb_gt; lia).
  replace (- Z.of_nat (List.length (get (engine r))) <=? i) with true
    by (symmetry; apply Z.leb_le; lia).
  replace (i <? 0) with true by (symmetry; apply Z.ltb_lt; lia).
  reflexivity.
Qed.

(** A range that starts inside the list and runs past its end: the slots
    up to the end are written, then the assignment fails. *)
Lemma store_overrun first last v r :
  0 <= first <= Z.of_nat (List.length (get (engine r))) ->
  Z.of_nat (List.length (get (engine r))) < last ->
  exists l',
    for_each (range first last) (fun i => store_bound get set i v) r
    = (Raise IndexError, with_engine (set l' (engine r)) r) /\
    filled (get (engine r)) l' first
      (Z.of_nat (List.length (get (engine r)))) v.
Proof.
  intros Hf Hl.
  set (len := Z.of_nat (List.length (get (engine r)))) in *.
  destruct (store_fitting_range get set get_set set_set set_get
              first len v r) as (l' & Hrun & Hfill); [lia | unfold len; lia |].
  exists l'. split; [|exact Hfill].
  rewrite (range_split first len last) by lia.
  rewrite for_each_app, (bind_Ret _ _ _ _ _ Hrun).
  rewrite range_cons by lia. cbn [for_each].
  apply bind_Raise. apply store_bound_outside.
  cbn [engine with_engine]. rewrite get_set.
  destruct Hfill as [Hlen _]. rewrite Hlen. fold len. lia.
Qed.

(** Storing into the [n] slots that end [stop] slots before the end of the
    list, addressed from the end. *)
Lemma store_range_from_the_end v n :
  forall first r,
    - Z.of_nat (List.length (get (engine r))) <= first ->
    first + Z.of_nat n <= 0 ->
    exists l',
      for_each (range first (first + Z.of_nat n))
        (fun i => store_bound get set i v) r
      = (Ret tt, with_engine (set l' (engine r)) r) /\
      filled (get (engine r)) l'
        (Z.of_nat (List.length (get (engine r))) + first)
        (Z.of_nat (List.length (get (engine r))) + first + Z.of_nat n) v.
Proof.
  induction n as [|n IH]; intros first r Hf Hl.
  - exists (get (engine r)).
    rewrite range_empty by lia. cbn [for_each]. unfold ret.
    rewrite set_get. split.
    + now destruct r.
    + split; [reflexivity|]. intros i.
      destruct (Z.of_nat (List.length (get (engine r))) + first <=? Z.of_nat i) eqn:E1,
               (Z.of_nat i <? Z.of_nat (List.length (get (engine r))) + first
                               + Z.of_nat 0) eqn:E2; try reflexivity.
      apply Z.leb_le in E1. apply Z.ltb_lt in E2. lia.
  - rewrite range_cons by lia. cbn [for_each].
    rewrite (bind_Ret _ _ _ _ _ (store_bound_from_the_end first v r ltac:(lia))).
    set (len := List.length (get (engine r))) in *.
    set (l1 := list_update (get (engine r)) (Z.to_nat (Z.of_nat len + first)) v).
    set (r1 := with_engine (set l1 (engine r)) r).
    assert (Hg1 : get (engine r1) = l1) by apply get_set.
    assert (Hlen1 : List.length l1 = len)
      by (unfold l1; now rewrite list_update_length).
    destruct (IH (first + 1) r1) as (l' & Hrun & Hlen & Hnth).
    + rewrite Hg1, Hlen1. lia.
    + lia.
    + exists l'. split.
      * replace (first + Z.of_nat (S n)) with (first + 1 + Z.of_nat n) by lia.
        rewrite Hrun. unfold r1, with_engine; cbn [engine trace sigint keyboard].
        now rewrite set_set.
      * rewrite Hg1, Hlen1 in Hlen, Hnth.
        split; [exact Hlen|]. intros i. rewrite Hnth.
        unfold l1. rewrite nth_error_list_update. fold len.
        destruct (Nat.eqb_spec i (Z.to_nat (Z.of_nat len + first))) as [Heq|Hne];
          destruct (Nat.ltb_spec (Z.to_nat (Z.of_nat len + first)) len)
            as [Hlt|Hge];
          cbn [andb];
          destruct (Z.of_nat len + (first + 1) <=? Z.of_nat i) eqn:E1,
                   (Z.of_nat i <? Z.of_nat len + (first + 1) + Z.of_nat n) eqn:E2,
                   (Z.of_nat len + first <=? Z.of_nat i) eqn:E3,
                   (Z.of_nat i <? Z.of_nat len + first + Z.of_nat (S n)) eqn:E4;
          cbn [andb]; try reflexivity;
          rewrite ?Z.leb_le, ?Z.leb_gt, ?Z.ltb_lt, ?Z.ltb_ge in *; lia.
Qed.

End BoundListEdges.

(** A call runs past the end of the bound list: for
    [0 <= first <= len < last], [len] the length of the list, each setter
    (the position setters given a tuple) writes the slots
    [first .. len - 1], then fails with IndexError; the slots written stay
    written. *)
Theorem define_bounds_overrun (first last : Z) (v : PyVal) (r : Run) :
  (is_tuple v = true ->
   0 <= first <= Z.of_nat (List.length (positionBounds (engine r))) ->
   Z.of_nat (List.length (positionBounds (engine r))) < last ->
   exists l',
     definePositionBounds first last v r
     = (Raise IndexError, with_engine (set_positionBounds l' (engine r)) r) /\
     filled (positionBounds (engine r)) l' first
       (Z.of_nat (List.length (positionBounds (engine r)))) v) /\
  (is_tuple v = true ->
   0 <= first <= Z.of_nat (List.length (initialPositionBounds (engine r))) ->
   Z.of_nat (List.length (initialPositionBounds (engine r))) < last ->
   exists l',
     defineInitialPositionBounds first last v r
     = (Raise IndexError,
        with_engine (set_initialPositionBounds l' (engine r)) r) /\
     filled (initialPositionBounds (engine r)) l' first
       (Z.of_nat (List.length (initialPositionBounds (engine r)))) v) /\
  (0 <= first <= Z.of_nat (List.length (velocityBounds (engine r))) ->
   Z.of_nat (List.length (velocityBounds (engine r))) < last ->
   exists l',
     defineVelocityBounds first last v r
     = (Raise IndexError, with_engine (set_velocityBounds l' (engine r)) r) /\
     filled (velocityBounds (engine r)) l' first
       (Z.of_nat (List.length (velocityBounds (engine r)))) v).
Proof.
  split; [|split].
  - intros Hv Hf Hl. unfold definePositionBounds. rewrite Hv. cbn [negb].
    rewrite bind_ret.
    apply (store_overrun positionBounds set_positionBounds); auto.
    apply set_positionBounds_same.
  - intros Hv Hf Hl. unfold defineInitialPositionBounds. rewrite Hv. cbn [negb].
    rewrite bind_ret.
    apply (store_overrun initialPositionBounds set_initialPositionBounds); auto.
    apply set_initialPositionBounds_same.
  - intros Hf Hl. unfold defineVelocityBounds.
    apply (store_overrun velocityBounds set_velocityBounds); auto.
    apply set_velocityBounds_same.
Qed.

Lemma define_bounds_overrun_witness :
  exists l',
    defineVelocityBounds 1 5 (PyFloat (3 # 1)) (quiet Examples.basic3)
    = (Raise IndexError,
       with_engine (set_velocityBounds l' (engine (quiet Examples.basic3)))
         (quiet Examples.basic3)) /\
    filled (velocityBounds (engine (quiet Examples.basic3))) l' 1
      (Z.of_nat (List.length (velocityBounds (engine (quiet Examples.basic3)))))
      (PyFloat (3 # 1)).
Proof.
  destruct (define_bounds_overrun 1 5 (PyFloat (3 # 1)) (quiet Examples.basic3))
    as (_ & _ & Hvel).
  apply Hvel; vm_compute; [split|]; congruence.
Defined.

(** A negative range counts from the end, as Python list indices do: for
    [1 <= k <= len], a setter called on the range [-k .. 0) (the position
    setters given a tuple) returns having written the last [k] slots of its
    list and no other. *)
Theorem define_bounds_from_the_end (k : Z) (v : PyVal) (r : Run) :
  1 <= k ->
  (is_tuple v = true ->
   k <= Z.of_nat (List.length (positionBounds (engine r))) ->
   exists l',
     definePositionBounds (- k) 0 v r
     = (Ret tt, with_engine (set_positionBounds l' (engine r)) r) /\
     filled (positionBounds (engine r)) l'
       (Z.of_nat (List.length (positionBounds (engine r))) - k)
       (Z.of_nat (List.length (positionBounds (engine r)))) v) /\
  (is_tuple v = true ->
   k <= Z.of_nat (List.length (initialPositionBounds (engine r))) ->
   exists l',
     defineInitialPositionBounds (- k) 0 v r
     = (Ret tt, with_engine (set_initialPositionBounds l' (engine r)) r) /\
     filled (initialPositionBounds (engine r)) l'
       (Z.of_nat (List.length (initialPositionBounds (engine r))) - k)
       (Z.of_nat (List.length (initialPositionBounds (engine r)))) v) /\
  (k <= Z.of_nat (List.length (velocityBounds (engine r))) ->
   exists l',
     defineVelocityBounds (- k) 0 v r
     = (Ret tt, with_engine (set_velocityBounds l' (engine r)) r) /\
     filled (velocityBounds (engine r)) l'
       (Z.of_nat (List.length (velocityBounds (engine r))) - k)
       (Z.of_nat (List.length (velocityBounds (engine r)))) v).
Proof.
  intros Hk.
  assert (Hgen : forall get set,
    (forall l s, get (set l s) = l) ->
    (forall l l' s, set l (set l' s) = set l s) ->
    (forall s, set (get s) s = s) ->
    k <= Z.of_nat (List.length (get (engine r))) ->
    exists l',
      for_each (range (- k) 0) (fun i => store_bound get set i v) r
      = (Ret tt, with_engine (set l' (engine r)) r) /\
      filled (get (engine r)) l'
        (Z.of_nat (List.length (get (engine r))) - k)
        (Z.of_nat (List.length (get (engine r)))) v).
  { intros get set L1 L2 L3 Hlen.
    destruct (store_range_from_the_end get set L1 L2 L3 v (Z.to_nat k) (- k) r)
      as (l' & Hrun & Hfill); try lia.
    replace (- k + Z.of_nat (Z.to_nat k)) with 0 in Hrun by lia.
    replace (Z.of_nat (List.length (get (engine r))) + - k
             + Z.of_nat (Z.to_nat k))
      with (Z.of_nat (List.length (get (engine r)))) in Hfill by lia.
    replace (Z.of_nat (List.length (get (engine r))) + - k)
      with (Z.of_nat (List.length (get (engine r))) - k) in Hfill by lia.
    now exists l'. }
  split; [|split].
  - intros Hv Hl. unfold definePositionBounds. rewrite Hv. cbn [negb].
    rewrite bind_ret.
    apply (Hgen positionBounds set_positionBounds); auto.
    apply set_positionBounds_same.
  - intros Hv Hl. unfold defineInitialPositionBounds. rewrite Hv. cbn [negb].
    rewrite bind_ret.
    apply (Hgen initialPositionBounds set_initialPositionBounds); auto.
    apply set_initialPositionBounds_same.
  - intros Hl. unfold defineVelocityBounds.
    apply (Hgen velocityBounds set_velocityBounds); auto.
    apply set_velocityBounds_same.
Qed.

Lemma define_bounds_from_the_end_witness :
  exists l',
    defineVelocityBounds (- 1) 0 (PyFloat (3 # 1)) (quiet Examples.basic3)
    = (Ret tt,
       with_engine (set_velocityBounds l' (engine (quiet Examples.basic3)))
         (quiet Examples.basic3)) /\
    nth_error l' 1 = Some (PyFloat (3 # 1)) /\
    nth_error l' 0 = nth_error (velocityBounds Examples.basic3) 0.
Proof.
  destruct (define_bounds_from_the_end 1 (PyFloat (3 # 1)) (quiet Examples.basic3))
    as (_ & _ & Hvel); [lia|].
  destruct Hvel as (l' & Hrun & _ & Hnth); [vm_compute; congruence|].
  exists l'. split; [exact Hrun|].
  split; [exact (Hnth 1%nat) | exact (Hnth 0%nat)].
Defined.

Lemma filled_whole (l l' : list PyVal) (d : Z) (v : PyVal) :
  Z.of_nat (List.length l) = d ->
  filled l l' 0 d v ->
  l' = repeat v (List.length l).
Proof.
  intros <- [Hlen Hnth]. apply nth_error_ext. intros i. rewrite Hnth.
  destruct (Nat.lt_ge_cases i (List.length l)) as [Hlt|Hge].
  - replace (0 <=? Z.of_nat i) with true by (symmetry; apply Z.leb_le; lia).
    replace (Z.of_nat i <? Z.of_nat (List.length l)) with true
      by (symmetry; apply Z.ltb_lt; lia).
    cbn [andb]. symmetry. now apply nth_error_repeat.
  - replace (Z.of_nat i <? Z.of_nat (List.length l)) with false
      by (symmetry; apply Z.ltb_ge; lia).
    rewrite andb_false_r.
    transitivity (@None PyVal); [|symmetry];
      apply nth_error_None; [|rewrite repeat_length]; lia.
Qed.

(** The usual configuration of the bounds: on an engine whose bound lists
    are still empty, [initializeBounds(d)] followed by the three setters
    over the whole range [0 .. d) leaves each list holding [d] copies of the
    value given for it. *)
Theorem bounds_configured_over_all_dimensions
    (dimensions : Z) (pos init vel : PyVal) (r : Run) :
  1 <= dimensions ->
  is_tuple pos = true -> is_tuple init = true ->
  positionBounds (engine r) = [] ->
  initialPositionBounds (engine r) = [] ->
  velocityBounds (engine r) = [] ->
  exists r',
    (initializeBounds dimensions ;;
     definePositionBounds 0 dimensions pos ;;
     defineInitialPositionBounds 0 dimensions init ;;
     defineVelocityBounds 0 dimensions vel) r = (Ret tt, r') /\
    positionBounds (engine r') = repeat pos (Z.to_nat dimensions) /\
    initialPositionBounds (engine r') = repeat init (Z.to_nat dimensions) /\
    velocityBounds (engine r') = repeat vel (Z.to_nat dimensions) /\
    (forall a, a <> a_positionBounds -> a <> a_initialPositionBounds ->
               a <> a_velocityBounds ->
               getattr (engine r') a = getattr (engine r) a).
Proof.
  intros Hd Hpos Hinit Ep Ei Ev.
  destruct (initializeBounds_run dimensions r)
    as (s0 & Hrun0 & Hp0 & Hi0 & Hv0 & Hother).
  rewrite Ep in Hp0. rewrite Ei in Hi0. rewrite Ev in Hv0. cbn [app] in *.
  rewrite (bind_Ret _ _ _ _ _ Hrun0).
  set (r0 := with_engine s0 r).
  assert (Hlen : forall (x : PyVal),
             Z.of_nat (List.length (repeat x (Z.to_nat dimensions))) = dimensions)
    by (intros x; rewrite repeat_length; lia).
  (* position *)
  destruct (store_fitting_range positionBounds set_positionBounds
              (fun _ _ => eq_refl) (fun _ _ _ => eq_refl)
              set_positionBounds_same 0 dimensions pos r0)
    as (l1 & Hrun1 & Hfill1);
    [lia | cbn [r0 engine with_engine]; rewrite Hp0, Hlen; lia |].
  cbn [r0 engine with_engine] in Hfill1. rewrite Hp0 in Hfill1.
  apply (filled_whole _ _ _ _ (Hlen zero_pair)) in Hfill1.
  rewrite repeat_length in Hfill1.
  unfold definePositionBounds at 1. rewrite Hpos. cbn [negb].
  rewrite bind_assoc, bind_ret, (bind_Ret _ _ _ _ _ Hrun1).
  set (r1 := with_engine (set_positionBounds l1 (engine r0)) r0).
  (* initial position *)
  destruct (store_fitting_range initialPositionBounds set_initialPositionBounds
              (fun _ _ => eq_refl) (fun _ _ _ => eq_refl)
              set_initialPositionBounds_same 0 dimensions init r1)
    as (l2 & Hrun2 & Hfill2);
    [lia | cbn [r1 r0 engine with_engine initialPositionBounds set_positionBounds];
           rewrite Hi0, Hlen; lia |].
  cbn [r1 r0 engine with_engine initialPositionBounds set_positionBounds]
    in Hfill2.
  rewrite Hi0 in Hfill2. apply (filled_whole _ _ _ _ (Hlen zero_pair)) in Hfill2.
  rewrite repeat_length in Hfill2.
  unfold defineInitialPositionBounds at 1. rewrite Hinit. cbn [negb].
  rewrite bind_assoc, bind_ret, (bind_Ret _ _ _ _ _ Hrun2).
  set (r2 := with_engine (set_initialPositionBounds l2 (engine r1)) r1).
  (* velocity *)
  destruct (store_fitting_range velocityBounds set_velocityBounds
              (fun _ _ => eq_refl) (fun _ _ _ => eq_refl)
              set_velocityBounds_same 0 dimensions vel r2)
    as (l3 & Hrun3 & Hfill3);
    [lia | cbn [r2 r1 r0 engine with_engine velocityBounds
                set_positionBounds set_initialPositionBounds];
           rewrite Hv0, Hlen; lia |].
  cbn [r2 r1 r0 engine with_engine velocityBounds
       set_positionBounds set_initialPositionBounds] in Hfill3.
  rewrite Hv0 in Hfill3. apply (filled_whole _ _ _ _ (Hlen (PyFloat 0))) in Hfill3.
  rewrite repeat_length in Hfill3.
  unfold defineVelocityBounds. rewrite Hrun3.
  eexists. split; [reflexivity|].
  cbn [r2 r1 r0 engine with_engine].
  cbn [positionBounds initialPositionBounds velocityBounds
       set_positionBounds set_initialPositionBounds set_velocityBounds].
  repeat split; try assumption.
  intros a H1 H2 H3. rewrite <- (Hother a H1 H2 H3).
  destruct a; try reflexivity; congruence.
Qed.

Lemma bounds_configured_over_all_dimensions_witness :
  exists r',
    (initializeBounds 3 ;;
     definePositionBounds 0 3 (PyTuple [PyFloat (-10 # 1); PyFloat (10 # 1)]) ;;
     defineInitialPositionBounds 0 3 (PyTuple [PyFloat (-5 # 1); PyFloat (5 # 1)]) ;;
     defineVelocityBounds 0 3 (PyFloat (2 # 1)))
      (quiet (Singleton___init__ Examples.consts true)) = (Ret tt, r') /\
    velocityBounds (engine r') = repeat (PyFloat (2 # 1)) (Z.to_nat 3).
Proof.
  destruct (bounds_configured_over_all_dimensions 3
              (PyTuple [PyFloat (-10 # 1); PyFloat (10 # 1)])
              (PyTuple [PyFloat (-5 # 1); PyFloat (5 # 1)])
              (PyFloat (2 # 1))
              (quiet (Singleton___init__ Examples.consts true)))
    as (r' & Hrun & _ & _ & Hv & _); try reflexivity; [lia|].
  exists r'. split; [exact Hrun | exact Hv].
Defined.

(** ** The parameter check, case by case *)

Lemma truthy_float_true_iff (x : option Q) :
  truthy_float x = true <-> holds_nonzero x.
Proof.
  unfold truthy_float, holds_nonzero. destruct x as [q|].
  - rewrite negb_true_iff. split.
    + intros H. exists q. split; [reflexivity|]. now apply Qeq_bool_neq.
    + intros (q' & Hq & Hne). injection Hq as <-.
      destruct (Qeq_bool q 0) eqn:E; [|reflexivity].
      apply Qeq_bool_iff in E. contradiction.
  - split; [discriminate|]. intros (q & Hq & _). discriminate Hq.
Qed.

Lemma truthy_list_true_iff {A : Type} (l : list A) :
  truthy_list l = true <-> l <> [].
Proof. destruct l; cbn; split; congruence. Qed.

Lemma truthy_obj_true_iff {A : Type} (x : option A) :
  truthy_obj x = true <-> x <> None.
Proof. destruct x; cbn; split; congruence. Qed.

(** [checkParametersSet], guard by guard.  It never changes the engine.  It
    raises the topology/function TypeError when one of the two is unset;
    otherwise, under INERTIA, the schedule TypeError when [inertiaFactorMinus]
    or [inertiaFactor] is [None] or zero; otherwise the bounds TypeError
    when one of the three lists is empty; otherwise it returns. *)
Theorem checkParametersSet_case_by_case (r : Run) :
  let s := engine r in
  let schedule_ok :=
    psoType s = INERTIA ->
    holds_nonzero (inertiaFactorMinus s) /\ holds_nonzero (inertiaFactor s) in
  snd (checkParametersSet r) = r /\
  (topology s = None \/ function s = None ->
   fst (checkParametersSet r)
   = Raise (TypeError "Topology/Evaluation fuction not yet defined.")) /\
  (topology s <> None -> function s <> None -> ~ schedule_ok ->
   fst (checkParametersSet r)
   = Raise (TypeError "Set the setInitialInertiaFactor() for the Inertia weight.")) /\
  (topology s <> None -> function s <> None -> schedule_ok ->
   initialPositionBounds s = [] \/ velocityBounds s = [] \/ positionBounds s = [] ->
   fst (checkParametersSet r)
   = Raise (TypeError "The Position/Velocity/InitialPos Bounds not yet defined.")) /\
  (topology s <> None -> function s <> None -> schedule_ok ->
   initialPositionBounds s <> [] -> velocityBounds s <> [] ->
   positionBounds s <> [] ->
   fst (checkParametersSet r) = Ret tt).
Proof.
  cbv zeta. split; [apply checkParametersSet_unchanged|].
  unfold checkParametersSet. rewrite bind_self.
  unfold bind, raiseException, raise, ret.
  pose proof (truthy_obj_true_iff (topology (engine r))) as Ht.
  pose proof (truthy_obj_true_iff (function (engine r))) as Hf.
  pose proof (truthy_float_true_iff (inertiaFactorMinus (engine r))) as Hd.
  pose proof (truthy_float_true_iff (inertiaFactor (engine r))) as Hw.
  pose proof (truthy_list_true_iff (initialPositionBounds (engine r))) as Hi.
  pose proof (truthy_list_true_iff (velocityBounds (engine r))) as Hv.
  pose proof (truthy_list_true_iff (positionBounds (engine r))) as Hp.
  destruct (truthy_obj (topology (engine r))),
           (truthy_obj (function (engine r)));
    cbn [negb orb fst];
    try (repeat split; try reflexivity; intros;
         exfalso; intuition congruence).
  destruct (psoType (engine r)) eqn:Hty; cbn [PsoType_eqb];
    destruct (truthy_float (inertiaFactorMinus (engine r))),
             (truthy_float (inertiaFactor (engine r)));
    destruct (truthy_list (initialPositionBounds (engine r))),
             (truthy_list (velocityBounds (engine r))),
             (truthy_list (positionBounds (engine r)));
    cbn [negb orb fst];
    repeat split; try reflexivity; intros; exfalso;
    try (intuition congruence);
    try (match goal with
         | H : ~ _ |- _ => apply H; intros; try discriminate; intuition
         end).
Qed.

Lemma checkParametersSet_case_by_case_witness :
  fst (checkParametersSet (quiet (Singleton___init__ Examples.consts true)))
  = Raise (TypeError "Topology/Evaluation fuction not yet defined.") /\
  fst (checkParametersSet (quiet Examples.inertia_down)) = Ret tt.
Proof.
  split.
  - apply (checkParametersSet_case_by_case
             (quiet (Singleton___init__ Examples.consts true))).
    left. reflexivity.
  - apply (checkParametersSet_case_by_case (quiet Examples.inertia_down));
      try discriminate.
    intros _. split; eexists; (split; [reflexivity | discriminate]).
Defined.

(** ** [execute] on an engine that is not ready *)

(** [execute] fails fast: when the parameter check fails, [execute] raises
    the TypeError of the check and nothing else has happened: no collaborator
    was called (the adapter is not opened, the swarm not initialized) and the
    engine is as before (the start time is not stamped). *)
Theorem execute_fails_fast (fuel : nat) (freq_stats : Z) (r : Run) :
  fst (checkParametersSet r) <> Ret tt ->
  exists msg, execute fuel freq_stats r = (Raise (TypeError msg), r).
Proof.
  intros H.
  destruct (check_passes (engine r)) eqn:Hc.
  - elim H. now apply checkParametersSet_returns_iff.
  - destruct (checkParametersSet_raises_TypeError r Hc) as [msg Hraise].
    exists msg. unfold execute, prelude.
    rewrite bind_assoc. now apply bind_Raise.
Qed.

Lemma execute_fails_fast_witness :
  exists msg,
    execute 5 1 (quiet (Singleton___init__ Examples.consts true))
    = (Raise (TypeError msg), quiet (Singleton___init__ Examples.consts true)).
Proof.
  apply (execute_fails_fast 5 1 (quiet (Singleton___init__ Examples.consts true))).
  vm_compute. discriminate.
Defined.

(** A newly constructed engine, whatever the defaults of [Consts.py] and
    whatever environment it runs in, is rejected by [execute] with the
    topology/function TypeError. *)
Theorem new_engine_is_rejected (k : Consts) (interactive : bool)
    (fuel : nat) (freq_stats : Z) (env : Run) :
  execute fuel freq_stats (with_engine (Singleton___init__ k interactive) env)
  = (Raise (TypeError "Topology/Evaluation fuction not yet defined."),
     with_engine (Singleton___init__ k interactive) env).
Proof.
  unfold execute, prelude. rewrite bind_assoc. apply bind_Raise. reflexivity.
Qed.

(** ** The inertia schedule and the order of the configuration calls *)

Lemma Qabs_zero_iff (x : Q) : (Qabs x == 0 <-> x == 0)%Q.
Proof.
  split; intros H.
  - apply Qle_antisym.
    + rewrite <- H. apply Qle_Qabs.
    + assert (Hn : (- x <= 0)%Q).
      { rewrite <- H, <- Qabs_opp. apply Qle_Qabs. }
      apply Qopp_le_compat in Hn. rewrite Qopp_involutive in Hn. exact Hn.
  - rewrite H. reflexivity.
Qed.

Lemma decrement_zero_iff (x : Q) (T : Z) :
  T <> 0 -> (Qabs x / inject_Z T == 0 <-> x == 0)%Q.
Proof.
  intros HT.
  assert (HTq : ~ (inject_Z T == 0)%Q).
  { intros E. unfold Qeq, inject_Z in E. simpl in E. lia. }
  split; intros H.
  - apply Qabs_zero_iff.
    setoid_replace (Qabs x) with ((Qabs x / inject_Z T) * inject_Z T)%Q
      by (field; exact HTq).
    rewrite H. ring.
  - unfold Qdiv. rewrite (proj2 (Qabs_zero_iff x) H). apply Qmult_0_l.
Qed.

(** A constant schedule and a schedule that starts at zero are rejected:
    on an INERTIA engine with topology and fitness function set and a budget
    [timeSteps >= 1] that a double can hold,
    [setInitialInertiaFactor(start, end)] with [start = end] or [start = 0]
    stores the schedule, and [checkParametersSet] then raises the schedule
    TypeError, whatever the bounds. *)
Theorem constant_or_zero_schedule_is_rejected (w_start w_end : Q) (r : Run) :
  psoType (engine r) = INERTIA ->
  1 <= timeSteps (engine r) < 2 ^ 1024 ->
  topology (engine r) <> None -> function (engine r) <> None ->
  (w_start == w_end \/ w_start == 0)%Q ->
  exists d,
    (setInitialInertiaFactor w_start w_end ;; checkParametersSet) r
    = (Raise (TypeError "Set the setInitialInertiaFactor() for the Inertia weight."),
       with_engine
         (set_inertiaFactor (Some w_start)
            (set_inertiaFactorMinus (Some d) (engine r))) r) /\
    (w_start == w_end -> d == 0)%Q.
Proof.
  intros Hty HT Ht Hf Hdeg.
  exists (Qabs (w_start - w_end) / inject_Z (timeSteps (engine r)))%Q.
  split.
  - rewrite (bind_Ret _ _ _ _ _
               (setInitialInertiaFactor_run w_start w_end r Hty ltac:(lia))).
    unfold checkParametersSet. rewrite bind_self.
    cbn [engine with_engine topology function psoType inertiaFactorMinus
         inertiaFactor set_inertiaFactor set_inertiaFactorMinus].
    rewrite (proj2 (truthy_obj_true_iff _) Ht),
      (proj2 (truthy_obj_true_iff _) Hf), Hty.
    cbn [negb orb PsoType_eqb truthy_float]. rewrite bind_ret.
    assert (Hfalsy :
      negb (negb (Qeq_bool
                    (Qabs (w_start - w_end) / inject_Z (timeSteps (engine r))) 0))
      || negb (negb (Qeq_bool w_start 0)) = true).
    { rewrite !negb_involutive. apply orb_true_iff.
      destruct Hdeg as [E|E].
      - left. apply Qeq_bool_iff. apply decrement_zero_iff; [lia|].
        rewrite E. ring.
      - right. now apply Qeq_bool_iff. }
    rewrite Hfalsy. reflexivity.
  - intros E. apply decrement_zero_iff; [lia|]. rewrite E. ring.
Qed.

Lemma constant_or_zero_schedule_is_rejected_witness :
  exists d,
    (setInitialInertiaFactor (9 # 10) (9 # 10) ;; checkParametersSet)
      (quiet Examples.inertia_down)
    = (Raise (TypeError "Set the setInitialInertiaFactor() for the Inertia weight."),
       with_engine
         (set_inertiaFactor (Some (9 # 10)%Q)
            (set_inertiaFactorMinus (Some d)
               (engine (quiet Examples.inertia_down))))
         (quiet Examples.inertia_down)).
Proof.
  destruct (constant_or_zero_schedule_is_rejected (9 # 10) (9 # 10)
              (quiet Examples.inertia_down)) as (d & Hrun & _).
  - reflexivity.
  - split; [vm_compute; discriminate | reflexivity].
  - discriminate.
  - discriminate.
  - left. reflexivity.
  - exists d. exact Hrun.
Defined.

(** The schedule must be set after the variant: on an engine of another
    variant whose schedule is unset, [setInitialInertiaFactor] followed by
    [setPsoType(INERTIA)] leaves the schedule unset, and the parameter check
    then raises the schedule TypeError. *)
Theorem schedule_set_before_variant_is_lost (w_start w_end : Q) (r : Run) :
  psoType (engine r) <> INERTIA ->
  inertiaFactor (engine r) = None ->
  topology (engine r) <> None -> function (engine r) <> None ->
  (setInitialInertiaFactor w_start w_end ;;
   setPsoType (Some INERTIA) ;;
   checkParametersSet) r
  = (Raise (TypeError "Set the setInitialInertiaFactor() for the Inertia weight."),
     with_engine (set_psoType INERTIA (engine r)) r).
Proof.
  intros Hty Hw Ht Hf.
  rewrite (bind_Ret _ _ _ _ _
             (setInitialInertiaFactor_other_variant w_start w_end r Hty)).
  unfold setPsoType. unfold bind at 1. unfold assign at 1.
  fold (with_engine (set_psoType INERTIA (engine r)) r).
  unfold checkParametersSet. rewrite bind_self.
  cbn [engine with_engine topology function psoType inertiaFactor
       inertiaFactorMinus set_psoType PsoType_eqb].
  rewrite (proj2 (truthy_obj_true_iff _) Ht), (proj2 (truthy_obj_true_iff _) Hf).
  rewrite Hw. cbn [negb orb truthy_float]. rewrite orb_true_r.
  rewrite bind_ret. reflexivity.
Qed.

Lemma schedule_set_before_variant_is_lost_witness :
  fst ((setInitialInertiaFactor (9 # 10) (4 # 10) ;;
        setPsoType (Some INERTIA) ;;
        checkParametersSet) (quiet Examples.basic3))
  = Raise (TypeError "Set the setInitialInertiaFactor() for the Inertia weight.").
Proof.
  rewrite (schedule_set_before_variant_is_lost (9 # 10) (4 # 10)
             (quiet Examples.basic3)); try discriminate; reflexivity.
Defined.

(** The decrement is computed once, from the budget of the moment: a
    [setTimeSteps(T2)] made after [setInitialInertiaFactor(start, end)]
    leaves the decrement at [|start - end| / T1], [T1] the budget before, so
    that the run of [T2] steps ends with the weight at
    [start - T2 * (|start - end| / T1)]. *)
Theorem schedule_ignores_later_setTimeSteps
    (w_start w_end : Q) (T2 : Z) (fuel : nat) (r : Run) (t : TopologyClass) :
  psoType (engine r) = INERTIA -> 1 <= timeSteps (engine r) -> 1 <= T2 ->
  topology (engine r) = Some t -> sigint r = None ->
  currentStep (engine r) = 0 -> (Z.to_nat T2 <= fuel)%nat ->
  exists r1 r2 w',
    (setInitialInertiaFactor w_start w_end ;; setTimeSteps T2) r = (Ret tt, r1) /\
    timeSteps (engine r1) = T2 /\
    inertiaFactorMinus (engine r1)
    = Some (Qabs (w_start - w_end) / inject_Z (timeSteps (engine r)))%Q /\
    run_loop fuel 0 r1 = (Ret tt, r2) /\
    currentStep (engine r2) = T2 /\
    inertiaFactor (engine r2) = Some w' /\
    (w' == w_start
           - inject_Z T2
             * (Qabs (w_start - w_end) / inject_Z (timeSteps (engine r))))%Q.
Proof.
  intros Hty HT1 HT2 Ht Hs H0 Hfuel.
  set (d := (Qabs (w_start - w_end) / inject_Z (timeSteps (engine r)))%Q).
  set (s1 := set_timeSteps T2
               (set_inertiaFactor (Some w_start)
                  (set_inertiaFactorMinus (Some d) (engine r)))).
  assert (Hrun1 :
    (setInitialInertiaFactor w_start w_end ;; setTimeSteps T2) r
    = (Ret tt, with_engine s1 r)).
  { rewrite (bind_Ret _ _ _ _ _
               (setInitialInertiaFactor_run w_start w_end r Hty ltac:(lia))).
    unfold setTimeSteps.
    replace (T2 <? 1) with false by (symmetry; apply Z.ltb_ge; lia).
    rewrite bind_ret. reflexivity. }
  destruct (Z.to_nat T2) as [|n] eqn:En; [lia|].
  assert (Hloop := run_loop_run 0 t n fuel (with_engine s1 r)).
  cbn [engine with_engine sigint keyboard] in Hloop.
  specialize (Hloop Hs Ht).
  destruct (advance_n_inertiaFactor (S n) s1 w_start d) as (w' & Hw' & E);
    try reflexivity; [exact Hty|].
  exists (with_engine s1 r). eexists. exists w'.
  split; [exact Hrun1|]. split; [reflexivity|]. split; [reflexivity|].
  split.
  - apply Hloop.
    + split; [now exists t|]. intros _. now exists w_start, d.
    + intros NE. now elim NE.
    + cbn [s1 currentStep timeSteps set_timeSteps set_inertiaFactor
           set_inertiaFactorMinus]. lia.
    + exact Hfuel.
  - cbn [engine with_engine]. split.
    + rewrite advance_n_currentStep.
      cbn [s1 currentStep set_timeSteps set_inertiaFactor
           set_inertiaFactorMinus]. lia.
    + split; [exact Hw'|]. rewrite E. now replace (Z.of_nat (S n)) with T2 by lia.
Qed.

Lemma schedule_ignores_later_setTimeSteps_witness :
  exists r1 r2 w',
    (setInitialInertiaFactor (9 # 10) (4 # 10) ;; setTimeSteps 5)
      (quiet Examples.inertia_down) = (Ret tt, r1) /\
    run_loop 5 0 r1 = (Ret tt, r2) /\
    inertiaFactor (engine r2) = Some w' /\
    (w' == (9 # 10) - inject_Z 5
                      * (Qabs ((9 # 10) - (4 # 10))
                         / inject_Z (timeSteps (engine (quiet Examples.inertia_down)))))%Q.
Proof.
  destruct (schedule_ignores_later_setTimeSteps (9 # 10) (4 # 10) 5 5
              (quiet Examples.inertia_down) GlobalTopology)
    as (r1 & r2 & w' & H1 & _ & _ & H2 & _ & H3 & H4).
  - reflexivity.
  - vm_compute. discriminate.
  - lia.
  - reflexivity.
  - reflexivity.
  - reflexivity.
  - vm_compute. lia.
  - exists r1, r2, w'. repeat split; assumption.
Defined.

(** ** Steps and reports outside [execute] *)

(** A step is not atomic.  Called on an INERTIA engine whose schedule is
    unset, with a topology set and no interrupt pending, [constructSolution]
    fails with the TypeError of the subtraction after it has moved the swarm:
    the position and information updates (and [storeBestParticle], for a
    LocalTopology) are made, the step counter is not advanced. *)
Theorem constructSolution_fails_after_moving (r : Run) (t : TopologyClass) :
  sigint r = None -> topology (engine r) = Some t ->
  psoType (engine r) = INERTIA ->
  inertiaFactor (engine r) = None \/ inertiaFactorMinus (engine r) = None ->
  constructSolution r
  = (Raise (TypeError "unsupported operand type(s) for -"),
     add_events (step_events t (engine r)) r).
Proof.
  intros Hs Ht Hty Hw. unfold constructSolution.
  rewrite (bind_Ret _ _ _ _ _ (topology_call_run _ r t Hs Ht)).
  rewrite (bind_Ret _ _ _ _ _ (topology_call_run _ (add_events _ r) t Hs Ht)).
  rewrite add_events_app, bind_self.
  cbn [engine add_events app]. rewrite Ht, Hty. cbn [PsoType_eqb].
  assert (Hstore :
    (if is_LocalTopology t then topology_call T_storeBestParticle else ret tt)
      (add_events
         [TopologyEv T_updateParticlesPosition (currentStep (engine r))
            (inertiaFactor (engine r));
          TopologyEv T_updateParticlesInformation (currentStep (engine r))
            (inertiaFactor (engine r))] r)
    = (Ret tt, add_events (step_events t (engine r)) r)).
  { unfold step_events. destruct t; cbn [is_LocalTopology].
    - unfold ret. now rewrite app_nil_r.
    - rewrite (topology_call_run _ (add_events _ r) LocalTopology Hs Ht).
      now rewrite add_events_app.
    - unfold ret. now rewrite app_nil_r. }
  rewrite (bind_Ret _ _ _ _ _ Hstore).
  apply bind_Raise. now apply updateInertiaFactor_unset.
Qed.

Lemma constructSolution_fails_after_moving_witness :
  constructSolution (quiet (set_psoType INERTIA Examples.basic3))
  = (Raise (TypeError "unsupported operand type(s) for -"),
     add_events
       (step_events LocalTopology (set_psoType INERTIA Examples.basic3))
       (quiet (set_psoType INERTIA Examples.basic3))).
Proof.
  apply (constructSolution_fails_after_moving
           (quiet (set_psoType INERTIA Examples.basic3)) LocalTopology);
    try reflexivity.
  left. reflexivity.
Defined.

(** [dumpStatsReport] with no report adapter set: the statistics are
    computed, then the call fails with AttributeError; nothing is read from
    the topology after that and the engine is unchanged. *)
Theorem dumpStatsReport_without_adapter (r : Run) (t : TopologyClass) :
  sigint r = None -> topology (engine r) = Some t ->
  reportAdapter (engine r) = None ->
  dumpStatsReport r
  = (Raise AttributeError,
     add_events
       [TopologyEv T_statistics (currentStep (engine r)) (inertiaFactor (engine r))]
       r).
Proof.
  intros Hs Ht Ha. unfold dumpStatsReport.
  run_call. rewrite bind_self. cbn [engine add_events]. now rewrite Ha.
Qed.

Lemma dumpStatsReport_without_adapter_witness :
  fst (dumpStatsReport (quiet Examples.basic3)) = Raise AttributeError.
Proof.
  now rewrite (dumpStatsReport_without_adapter (quiet Examples.basic3)
                 LocalTopology).
Defined.

(** ** A loop started at or past its budget *)

Lemma run_loop_past_budget (freq_stats : Z) (fuel : nat) :
  forall r,
    sigint r = None -> steppable (engine r) ->
    body_ready freq_stats (engine r) ->
    timeSteps (engine r) <= currentStep (engine r) ->
    fst (run_loop fuel freq_stats r) = OutOfFuel.
Proof.
  induction fuel as [|fuel IH]; intros r Hs Hst Hready Hpast; [reflexivity|].
  destruct Hst as [[t Ht] Hw]. cbn [run_loop].
  rewrite (bind_Ret _ _ _ _ _ (constructSolution_run r t Hs Ht Hw)).
  replace (currentStep (engine r) + 1 =? timeSteps (engine r)) with false
    by (symmetry; apply Z.eqb_neq; lia).
  set (r1 := with_engine (advance (engine r))
               (add_events (step_events t (engine r)) r)).
  assert (Ht1 : topology (engine r1) = Some t)
    by (cbn [r1 engine with_engine]; now rewrite advance_topology).
  assert (Hready1 : body_ready freq_stats (engine r1))
    by (cbn [r1 engine with_engine]; now apply advance_body_ready).
  rewrite (bind_Ret _ _ _ _ _ (loop_body_run freq_stats r1 t Hs Ht1 Hready1)).
  apply IH.
  - exact Hs.
  - cbn [engine add_events r1 with_engine].
    apply advance_steppable. split; [now exists t | exact Hw].
  - exact Hready1.
  - cbn [engine add_events r1 with_engine].
    rewrite advance_currentStep, advance_timeSteps. lia.
Qed.

(** [execute] never resets [currentStep], and the loop stops only when the
    counter equals the budget: started with [currentStep >= timeSteps] and
    no interrupt pending, the loop does not return, whatever fuel it is
    given. *)
Theorem run_loop_past_budget_never_returns (freq_stats : Z) (fuel : nat) :
  forall r,
    sigint r = None -> steppable (engine r) ->
    body_ready freq_stats (engine r) ->
    timeSteps (engine r) <= currentStep (engine r) ->
    fst (run_loop fuel freq_stats r) = OutOfFuel.
Proof. exact (run_loop_past_budget freq_stats fuel). Qed.

Lemma run_loop_past_budget_never_returns_witness :
  fst (run_loop 50 0 (snd (execute 3 0 (quiet Examples.basic3)))) = OutOfFuel.
Proof.
  apply run_loop_past_budget_never_returns.
  - reflexivity.
  - split; [exists LocalTopology; reflexivity|].
    intros H. vm_compute in H. discriminate H.
  - intros H. now elim H.
  - vm_compute. discriminate.
Defined.

(** A second [execute] on the engine a completed run has left (it still
    passes the parameter check) does not return either: the prelude runs
    again, the loop never stops. *)
Theorem execute_again_never_returns (freq_stats : Z) (fuel : nat) (r : Run) :
  fst (checkParametersSet r) = Ret tt ->
  adapter_ok (engine r) -> sigint r = None ->
  (freq_stats <> 0 -> timeSteps (engine r) <> 0) ->
  timeSteps (engine r) <= currentStep (engine r) ->
  fst (execute fuel freq_stats r) = OutOfFuel.
Proof.
  intros Hc Hok Hs HT Hpast.
  apply checkParametersSet_returns_iff in Hc.
  unfold execute. rewrite (bind_Ret _ _ _ _ _ (prelude_run r Hc Hs)).
  set (r0 := add_events (prelude_events (engine r))
               (with_engine
                  (set_time_init (Some (List.length (trace r))) (engine r)) r)).
  assert (Hloop : fst (run_loop fuel freq_stats r0) = OutOfFuel).
  { apply run_loop_past_budget.
    - exact Hs.
    - destruct (check_passes_steppable _ Hc) as [Htop Hw]. split; assumption.
    - intros NE. split; [now apply HT | exact Hok].
    - exact Hpast. }
  unfold bind at 1. unfold guarded_loop, try_except_KeyboardInterrupt.
  destruct (run_loop fuel freq_stats r0) as [o r1]. cbn [fst] in Hloop.
  subst o. reflexivity.
Qed.

Lemma execute_again_never_returns_witness :
  fst (execute 50 0 (snd (execute 3 0 (quiet Examples.basic3)))) = OutOfFuel.
Proof.
  apply execute_again_never_returns.
  - vm_compute. reflexivity.
  - intros a Ha. vm_compute in Ha. discriminate Ha.
  - reflexivity.
  - intros H. now elim H.
  - vm_compute. discriminate.
Defined.

(** ** Steps counted and swarm moves made *)

Lemma idle_still {A : Type} (o : Outcome A) : idle (fun r => (o, r)).
Proof. intros r o' r' H. injection H as <- <-. now split. Qed.

Lemma idle_ret {A : Type} (a : A) : idle (ret a).
Proof. exact (idle_still (Ret a)). Qed.

Lemma idle_raise {A : Type} (e : PyExc) : idle (@raise A e).
Proof. exact (idle_still (Raise e)). Qed.

Lemma idle_self : idle self.
Proof. intros r o r' H. injection H as <- <-. now split. Qed.

Lemma idle_time : idle time.
Proof. intros r o r' H. injection H as <- <-. now split. Qed.

Lemma idle_escape_pressed : idle escape_pressed.
Proof. intros r o r' H. injection H as <- <-. now split. Qed.

Lemma idle_bind {A B : Type} (m : M A) (f : A -> M B) :
  idle m -> (forall a, idle (f a)) -> idle (bind m f).
Proof.
  intros Hm Hf r o r' H. unfold bind in H.
  destruct (m r) as [[a|e|] r1] eqn:Em; destruct (Hm _ _ _ Em) as [S1 C1].
  - destruct (Hf a _ _ _ H) as [S2 C2]. split; congruence.
  - injection H as <- <-. now split.
  - injection H as <- <-. now split.
Qed.

Lemma idle_assign (f : Singleton -> Singleton) :
  (forall s, currentStep (f s) = currentStep s) -> idle (assign f).
Proof. intros Hf r o r' H. injection H as <- <-. cbn. now split. Qed.

Lemma idle_call ev :
  is_topology_call T_updateParticlesPosition ev = false -> idle (call ev).
Proof.
  intros Hev r o r' H. unfold call in H.
  destruct (sigint r) as [[|k]|]; injection H as <- <-; cbn;
    (split; [reflexivity|]); try reflexivity;
    unfold count_calls; rewrite filter_app; cbn [filter]; rewrite Hev;
    now rewrite app_nil_r.
Qed.

Lemma idle_print m : idle (print m).
Proof. now apply idle_call. Qed.

Lemma idle_report_call c : idle (report_call c).
Proof.
  unfold report_call. apply idle_bind; [apply idle_self|].
  intros s. destruct (reportAdapter s); [now apply idle_call | apply idle_raise].
Qed.

Lemma idle_topology_call c :
  c <> T_updateParticlesPosition -> idle (topology_call c).
Proof.
  intros Hc. unfold topology_call. apply idle_bind; [apply idle_self|].
  intros s. destruct (topology s); [|apply idle_raise].
  apply idle_call. destruct c; try reflexivity. congruence.
Qed.

Create HintDb idle.
#[local] Hint Resolve idle_ret idle_raise idle_self idle_time
  idle_escape_pressed idle_print idle_report_call : idle.

(** Take a method apart along its sequencing and branching. *)
Ltac idle_steps :=
  repeat first
    [ solve [ auto with idle ]
    | apply idle_topology_call; discriminate
    | apply idle_assign; intros ?; reflexivity
    | apply idle_call; reflexivity
    | apply idle_bind
    | match goal with
      | |- forall _, _ => intros ?
      | |- idle (if ?b then _ else _) => destruct b
      | |- idle (match ?x with _ => _ end) => destruct x
      end ].

Lemma idle_updateInertiaFactor : idle updateInertiaFactor.
Proof. unfold updateInertiaFactor. idle_steps. Qed.

Lemma idle_printStats : idle printStats.
Proof. unfold printStats. idle_steps. Qed.

Lemma idle_printTimeElapsed : idle printTimeElapsed.
Proof. unfold printTimeElapsed. idle_steps. Qed.

Lemma idle_dumpStatsReport : idle dumpStatsReport.
Proof. unfold dumpStatsReport, getStatistics. idle_steps. Qed.

#[local] Hint Resolve idle_updateInertiaFactor idle_printStats
  idle_printTimeElapsed idle_dumpStatsReport : idle.

Lemma idle_on_report_step (then_ : M unit) :
  idle then_ -> idle (on_report_step then_).
Proof. intros H. unfold on_report_step. idle_steps. Qed.

#[local] Hint Resolve idle_on_report_step : idle.

Lemma idle_loop_body freq_stats : idle (loop_body freq_stats).
Proof. unfold loop_body. idle_steps. Qed.

Lemma idle_checkParametersSet : idle checkParametersSet.
Proof. unfold checkParametersSet, raiseException. idle_steps. Qed.

Lemma idle_prelude : idle prelude.
Proof.
  unfold prelude, initialize.
  pose proof idle_checkParametersSet. idle_steps.
Qed.

Lemma idle_final_output freq_stats : idle (final_output freq_stats).
Proof. unfold final_output. idle_steps. Qed.

Lemma advancing_after_idle {A B : Type} (m : M A) (f : A -> M B) :
  idle m -> (forall a, advancing (f a)) -> advancing (bind m f).
Proof.
  intros Hm Hf r o r' H. unfold bind in H.
  destruct (m r) as [[a|e|] r1] eqn:Em; destruct (Hm _ _ _ Em) as [S1 C1].
  - destruct (Hf a _ _ _ H) as (C2 & R2 & N2).
    split; [congruence|]. split; intros Ho.
    + rewrite (R2 Ho). lia.
    + rewrite (N2 Ho). lia.
  - injection H as <- <-. split; [exact C1|]. split; [intros []|now intros _].
  - injection H as <- <-. split; [exact C1|]. split; [intros []|now intros _].
Qed.

Lemma advancing_increment :
  advancing (assign (fun s => set_currentStep (currentStep s + 1) s) ;;
             s' <- self ;;
             ret (currentStep s' =? timeSteps s')).
Proof.
  intros r o r' H. injection H as <- <-. cbn.
  split; [reflexivity|]. split; [reflexivity|]. intros Hn. now elim Hn.
Qed.

(** One step: the swarm is moved at most once, and the counter is advanced
    only when the step returns. *)
Lemma paced_constructSolution : paced constructSolution.
Proof.
  assert (Htail : advancing
    (topology_call T_updateParticlesInformation ;;
     s <- self ;;
     (match topology s with
      | Some t => if is_LocalTopology t then topology_call T_storeBestParticle
                  else ret tt
      | None => ret tt
      end) ;;
     (if PsoType_eqb (psoType s) INERTIA then updateInertiaFactor else ret tt) ;;
     assign (fun s => set_currentStep (currentStep s + 1) s) ;;
     s' <- self ;;
     ret (currentStep s' =? timeSteps s'))).
  { apply advancing_after_idle; [idle_steps|]. intros _.
    apply advancing_after_idle; [idle_steps|]. intros s.
    apply advancing_after_idle; [idle_steps|]. intros _.
    apply advancing_after_idle; [idle_steps|]. intros _.
    apply advancing_increment. }
  intros r o r' H. unfold constructSolution in H.
  unfold bind at 1 in H. unfold topology_call at 1 in H.
  rewrite bind_self in H.
  destruct (topology (engine r)) as [t|].
  - assert (Hmoved : forall r1,
      trace r1 = trace r ++ [TopologyEv T_updateParticlesPosition
                               (currentStep (engine r)) (inertiaFactor (engine r))] ->
      engine r1 = engine r ->
      forall k, k r1 = (o, r') -> advancing k ->
      let steps := currentStep (engine r') - currentStep (engine r) in
      let moves :=
        Z.of_nat (count_calls T_updateParticlesPosition (trace r'))
        - Z.of_nat (count_calls T_updateParticlesPosition (trace r)) in
      0 <= steps <= moves /\ moves <= steps + 1 /\ (is_return o -> moves = steps)).
    { intros r1 Htr Heng k Hk Hadv.
      destruct (Hadv _ _ _ Hk) as (C & R & N).
      rewrite Htr, count_calls_app, Heng in *.
      replace (count_calls T_updateParticlesPosition
                 [TopologyEv T_updateParticlesPosition (currentStep (engine r))
                    (inertiaFactor (engine r))]) with 1%nat in C by reflexivity.
      cbv zeta. rewrite C.
      destruct o as [b|e|].
      - rewrite (R Logic.I). repeat split; lia.
      - rewrite (N (fun H => H)). repeat split; try lia. intros [].
      - rewrite (N (fun H => H)). repeat split; try lia. intros []. }
    unfold call at 1 in H.
    destruct (sigint r) as [[|k]|].
    + injection H as <- <-. cbv zeta. cbn [engine trace].
      repeat split; try lia; intros [].
    + eapply Hmoved; [ | | exact H | exact Htail]; reflexivity.
    + eapply Hmoved; [ | | exact H | exact Htail]; reflexivity.
  - injection H as <- <-. cbv zeta. repeat split; try lia; intros [].
Qed.

Lemma idle_paced {A : Type} (m : M A) : idle m -> paced m.
Proof.
  intros Hm r o r' H. destruct (Hm _ _ _ H) as [S C]. cbv zeta.
  rewrite S, C. repeat split; lia.
Qed.

Lemma paced_bind {A B : Type} (m : M A) (f : A -> M B) :
  paced m -> (forall a, paced (f a)) -> paced (bind m f).
Proof.
  intros Hm Hf r o r' H. unfold bind in H.
  destruct (m r) as [[a|e|] r1] eqn:Em;
    pose proof (Hm _ _ _ Em) as P1; cbv zeta in P1;
    destruct P1 as (L1 & U1 & E1).
  - pose proof (Hf a _ _ _ H) as P2. cbv zeta in P2.
    destruct P2 as (L2 & U2 & E2). specialize (E1 Logic.I).
    cbv zeta. repeat split; try lia. intros Ho. specialize (E2 Ho). lia.
  - injection H as <- <-. cbv zeta. repeat split; try lia. intros [].
  - injection H as <- <-. cbv zeta. repeat split; try lia. intros [].
Qed.

Lemma paced_run_loop fuel freq_stats : paced (run_loop fuel freq_stats).
Proof.
  induction fuel as [|fuel IH]; cbn [run_loop].
  - apply idle_paced, idle_still.
  - apply paced_bind; [apply paced_constructSolution|].
    intros [|].
    + apply idle_paced, idle_ret.
    + apply paced_bind; [apply idle_paced, idle_loop_body | intros _; exact IH].
Qed.

(** The step counter counts completed steps.  However the loop ends
    (return, interrupt, any error, fuel spent), [currentStep] has grown by
    some [steps >= 0] and [updateParticlesPosition] was called [steps] or
    [steps + 1] times; exactly [steps] times when the loop returns. *)
Theorem run_loop_keeps_pace (fuel : nat) (freq_stats : Z) (r : Run)
    (o : Outcome unit) (r' : Run) :
  run_loop fuel freq_stats r = (o, r') ->
  let steps := currentStep (engine r') - currentStep (engine r) in
  let moves :=
    Z.of_nat (count_calls T_updateParticlesPosition (trace r'))
    - Z.of_nat (count_calls T_updateParticlesPosition (trace r)) in
  0 <= steps <= moves /\ moves <= steps + 1 /\
  (is_return o -> moves = steps).
Proof. exact (paced_run_loop fuel freq_stats r o r'). Qed.

Lemma run_loop_keeps_pace_witness :
  let r := interrupted_at 7 (Examples.reporting 5 5) in
  let r' := snd (run_loop 10 0 (snd (prelude r))) in
  let steps := currentStep (engine r') - currentStep (engine (snd (prelude r))) in
  let moves :=
    Z.of_nat (count_calls T_updateParticlesPosition (trace r'))
    - Z.of_nat (count_calls T_updateParticlesPosition (trace (snd (prelude r)))) in
  0 <= steps <= moves /\ moves <= steps + 1.
Proof.
  cbv zeta.
  destruct (run_loop_keeps_pace 10 0
              (snd (prelude (interrupted_at 7 (Examples.reporting 5 5))))
              (fst (run_loop 10 0
                      (snd (prelude (interrupted_at 7 (Examples.reporting 5 5))))))
              (snd (run_loop 10 0
                      (snd (prelude (interrupted_at 7 (Examples.reporting 5 5)))))))
    as (H1 & H2 & _).
  - now destruct (run_loop 10 0
                    (snd (prelude (interrupted_at 7 (Examples.reporting 5 5))))).
  - split; [exact H1 | exact H2].
Defined.

(** The same for a whole [execute], which absorbs an interrupt: however it
    ends, and also when it returns after an interrupt, the swarm was moved
    [currentStep]'s growth or one time more, never less and never two times
    more. *)
Theorem execute_keeps_pace (fuel : nat) (freq_stats : Z) (r : Run)
    (o : Outcome unit) (r' : Run) :
  execute fuel freq_stats r = (o, r') ->
  let steps := currentStep (engine r') - currentStep (engine r) in
  let moves :=
    Z.of_nat (count_calls T_updateParticlesPosition (trace r'))
    - Z.of_nat (count_calls T_updateParticlesPosition (trace r)) in
  0 <= steps <= moves /\ moves <= steps + 1.
Proof.
  intros H. cbv zeta. unfold execute in H. unfold bind at 1 in H.
  destruct (prelude r) as [[[]|e|] r0] eqn:Ep;
    destruct (idle_prelude _ _ _ Ep) as [S0 C0];
    try (injection H as <- <-; rewrite S0, C0; lia).
  unfold bind at 1 in H.
  unfold guarded_loop, try_except_KeyboardInterrupt in H.
  destruct (run_loop fuel freq_stats r0) as [ol r1] eqn:El.
  pose proof (paced_run_loop fuel freq_stats _ _ _ El) as P. cbv zeta in P.
  destruct P as (L1 & U1 & _).
  assert (Hfinal : forall r2,
            currentStep (engine r2) = currentStep (engine r1) ->
            count_calls T_updateParticlesPosition (trace r2)
            = count_calls T_updateParticlesPosition (trace r1) ->
            final_output freq_stats r2 = (o, r') ->
            0 <= currentStep (engine r') - currentStep (engine r)
              <= Z.of_nat (count_calls T_updateParticlesPosition (trace r'))
                 - Z.of_nat (count_calls T_updateParticlesPosition (trace r))
            /\ Z.of_nat (count_calls T_updateParticlesPosition (trace r'))
               - Z.of_nat (count_calls T_updateParticlesPosition (trace r))
               <= currentStep (engine r') - currentStep (engine r) + 1).
  { intros r2 S2 C2 Hf.
    destruct (idle_final_output freq_stats _ _ _ Hf) as [S3 C3]. lia. }
  destruct ol as [[]|e|].
  - now apply (Hfinal r1).
  - destruct e; try (injection H as <- <-; lia).
    destruct (print MsgBreak r1) as [[[]|e|] r2] eqn:Eb;
      destruct (idle_print _ _ _ _ Eb) as [S2 C2];
      try (injection H as <- <-; lia).
    now apply (Hfinal r2).
  - injection H as <- <-. lia.
Qed.

Lemma execute_keeps_pace_witness :
  let r := interrupted_at 7 (Examples.reporting 5 5) in
  let r' := snd (execute 10 0 r) in
  let steps := currentStep (engine r') - currentStep (engine r) in
  let moves :=
    Z.of_nat (count_calls T_updateParticlesPosition (trace r'))
    - Z.of_nat (count_calls T_updateParticlesPosition (trace r)) in
  0 <= steps <= moves /\ moves <= steps + 1.
Proof.
  cbv zeta.
  apply (execute_keeps_pace 10 0 (interrupted_at 7 (Examples.reporting 5 5))
           (fst (execute 10 0 (interrupted_at 7 (Examples.reporting 5 5))))).
  now destruct (execute 10 0 (interrupted_at 7 (Examples.reporting 5 5))).
Defined.

(** ** An interrupt before the loop *)

Lemma call_keeps_engine ev r o r' : call ev r = (o, r') -> engine r' = engine r.
Proof.
  unfold call. destruct (sigint r) as [[|k]|]; intros H; injection H as <- <-;
    reflexivity.
Qed.

(** A sequence of calls met by a pending interrupt: the calls before it are
    made, it is raised in place of the next one. *)
Lemma calls_interrupted (evs : list Event) :
  forall k r,
    sigint r = Some k -> (k < List.length evs)%nat ->
    for_each evs call r
    = (Raise KeyboardInterrupt,
       {| engine := engine r; trace := trace r ++ firstn k evs;
          sigint := None; keyboard := keyboard r |}).
Proof.
  induction evs as [|ev evs IH]; intros k r Hs Hk; [cbn in Hk; lia|].
  cbn [for_each]. unfold bind. unfold call at 1. rewrite Hs.
  destruct k as [|k].
  - cbn [firstn]. now rewrite app_nil_r.
  - rewrite (IH k); [|reflexivity|cbn in Hk; lia].
    cbn [engine trace keyboard firstn]. now rewrite <- app_assoc.
Qed.

Lemma bind_first {A B : Type} (m m' : M A) (f : A -> M B) r :
  m r = m' r -> bind m f r = bind m' f r.
Proof. intros H. unfold bind. now rewrite H. Qed.

(** The calls of the prelude, as one sequence. *)
Lemma prelude_calls r t :
  topology (engine r) = Some t ->
  ((if truthy_obj (reportAdapter (engine r)) then report_call R_open else ret tt) ;;
   initialize ;;
   print MsgStartingLoop) r
  = for_each (prelude_events (engine r)) call r.
Proof.
  intros Ht.
  assert (Hinit : forall r1,
    engine r1 = engine r ->
    (initialize ;; print MsgStartingLoop) r1
    = for_each
        [TopologyEv T_initialize (currentStep (engine r)) (inertiaFactor (engine r));
         PrintEv MsgInitialized; PrintEv MsgStartingLoop] call r1).
  { intros r1 He. unfold initialize. rewrite bind_assoc.
    rewrite (bind_first _
               (call (TopologyEv T_initialize (currentStep (engine r))
                        (inertiaFactor (engine r)))))
      by (unfold topology_call; now rewrite bind_self, He, Ht).
    cbn [for_each]. apply bind_ext. intros _ r2.
    unfold print. apply bind_ext. intros _ r3.
    unfold bind. now destruct (call (PrintEv MsgStartingLoop) r3) as [[[]|e|] r4]. }
  unfold prelude_events.
  destruct (reportAdapter (engine r)) as [a|] eqn:Ha; cbn [truthy_obj app].
  - rewrite (bind_first _ (call (ReportEv R_open)))
      by (unfold report_call; now rewrite bind_self, Ha).
    cbn [for_each]. unfold bind at 1 3.
    destruct (call (ReportEv R_open) r) as [[[]|e|] r1] eqn:Ec; try reflexivity.
    apply Hinit. now apply call_keeps_engine in Ec.
  - rewrite bind_ret. now apply Hinit.
Qed.

(** An interrupt that arrives before the loop is not caught.  On an engine
    that passes the parameter check, with the interrupt due at call number
    [k] of the prelude, [execute] raises KeyboardInterrupt: the start time is
    stamped, the first [k] calls of the prelude are made (so a report
    adapter, once opened, is never saved and closed), and neither the loop
    nor the final output runs. *)
Theorem execute_interrupted_before_loop (fuel : nat) (freq_stats : Z)
    (r : Run) (k : nat) :
  fst (checkParametersSet r) = Ret tt ->
  sigint r = Some k ->
  (k < List.length (prelude_events (engine r)))%nat ->
  execute fuel freq_stats r
  = (Raise KeyboardInterrupt,
     {| engine := set_time_init (Some (List.length (trace r))) (engine r);
        trace := trace r ++ firstn k (prelude_events (engine r));
        sigint := None;
        keyboard := keyboard r |}).
Proof.
  intros Hc Hs Hk.
  apply checkParametersSet_returns_iff in Hc.
  destruct (check_passes_topology _ Hc) as [t Ht].
  unfold execute. apply bind_Raise. unfold prelude.
  rewrite (bind_Ret _ _ _ _ _ (checkParametersSet_passes r Hc)).
  unfold time at 1. unfold bind at 1. unfold assign at 1. unfold bind at 1.
  rewrite bind_self.
  set (r0 := {| engine := set_time_init (Some (List.length (trace r))) (engine r);
                trace := trace r; sigint := sigint r; keyboard := keyboard r |}).
  change (engine r0)
    with (set_time_init (Some (List.length (trace r))) (engine r)).
  change (reportAdapter
            (set_time_init (Some (List.length (trace r))) (engine r)))
    with (reportAdapter (engine r0)).
  rewrite (prelude_calls r0 t Ht).
  exact (calls_interrupted _ k r0 Hs Hk).
Qed.

Lemma execute_interrupted_before_loop_witness :
  fst (execute 10 1 (interrupted_at 1 (Examples.reporting 5 1)))
  = Raise KeyboardInterrupt /\
  trace (snd (execute 10 1 (interrupted_at 1 (Examples.reporting 5 1))))
  = [ReportEv R_open].
Proof.
  rewrite (execute_interrupted_before_loop 10 1
             (interrupted_at 1 (Examples.reporting 5 1)) 1).
  - split; reflexivity.
  - vm_compute. reflexivity.
  - reflexivity.
  - vm_compute. lia.
Defined.

(** ** The variant and the direction, set and read back *)

Lemma PsoType_eqb_eq a b : PsoType_eqb a b = true <-> a = b.
Proof. destruct a, b; cbn; split; congruence. Qed.

Lemma Minimax_eqb_eq a b : Minimax_eqb a b = true <-> a = b.
Proof. destruct a, b; cbn; split; congruence. Qed.

Section DictLookup.

Variable V : Type.
Variable eqb : V -> V -> bool.
Hypothesis eqb_eq : forall a b, eqb a b = true <-> a = b.

Lemma in_values_iff (items : list (string * V)) (x : V) :
  in_values eqb items x = true <-> In x (map snd items).
Proof.
  unfold in_values. rewrite existsb_exists, in_map_iff. split.
  - intros (kv & Hin & He). exists kv. split; [now apply eqb_eq | exact Hin].
  - intros (kv & He & Hin). exists kv. split; [exact Hin | now apply eqb_eq].
Qed.

Lemma dict_key_of_found (items : list (string * V)) (x : V) :
  In x (map snd items) -> In (dict_key_of eqb items x, x) items.
Proof.
  intros Hin. unfold dict_key_of.
  destruct (find (fun kv => eqb (snd kv) x) items) as [kv|] eqn:Ef.
  - apply find_some in Ef. destruct Ef as [Hkv He]. apply eqb_eq in He.
    destruct kv as [k v]. cbn in *. now subst v.
  - apply in_map_iff in Hin. destruct Hin as (kv & He & Hkv).
    pose proof (find_none _ _ Ef kv Hkv) as Hn. cbn in Hn.
    apply eqb_eq in He. congruence.
Qed.

Lemma dict_key_of_missing (items : list (string * V)) (x : V) :
  ~ In x (map snd items) -> dict_key_of eqb items x = "".
Proof.
  intros Hn. unfold dict_key_of.
  destruct (find (fun kv => eqb (snd kv) x) items) as [kv|] eqn:Ef;
    [|reflexivity].
  apply find_some in Ef. destruct Ef as [Hkv He]. apply eqb_eq in He.
  elim Hn. apply in_map_iff. now exists kv.
Qed.

Lemma key_of_distinct_value (items : list (string * V)) (k k' : string) (x : V) :
  NoDup (map snd items) -> In (k, x) items -> In (k', x) items -> k = k'.
Proof.
  induction items as [|[k0 v0] items IH]; intros Hnd H1 H2; [contradiction|].
  cbn [map snd] in Hnd. inversion Hnd as [|? ? Hnotin Hnd']; subst.
  destruct H1 as [E1|H1], H2 as [E2|H2].
  - congruence.
  - injection E1 as -> ->. elim Hnotin. apply in_map_iff. now exists (k', x).
  - injection E2 as -> ->. elim Hnotin. apply in_map_iff. now exists (k, x).
  - now apply IH.
Qed.

End DictLookup.

(** [setPsoType] and [getPsoType], whatever the dict [Consts.psoType] holds:
    a value of the dict is stored and read back as a key the dict maps to
    it, the key itself when the values of the dict are distinct; a value
    that is not in the dict is refused with TypeError, engine unchanged; and
    an engine whose variant is not a value of the dict reads back as the
    empty string. *)
Theorem setPsoType_then_getPsoType
    (items : list (string * PsoType)) (v : PsoType) (r : Run) :
  (In v (map snd items) ->
   exists k,
     (setPsoType_in items v ;; getPsoType items) r
     = (Ret k, with_engine (set_psoType v (engine r)) r) /\
     In (k, v) items /\
     (NoDup (map snd items) -> forall k0, In (k0, v) items -> k = k0)) /\
  (~ In v (map snd items) ->
   setPsoType_in items v r
   = (Raise (TypeError "PsoType must be implemented !"), r)) /\
  (~ In (psoType (engine r)) (map snd items) ->
   getPsoType items r = (Ret "", r)).
Proof.
  split; [|split].
  - intros Hin. exists (dict_key_of PsoType_eqb items v).
    unfold setPsoType_in.
    rewrite (proj2 (in_values_iff _ _ PsoType_eqb_eq items v) Hin).
    split; [reflexivity|].
    pose proof (dict_key_of_found _ _ PsoType_eqb_eq items v Hin) as Hk.
    split; [exact Hk|]. intros Hnd k0 Hk0.
    exact (key_of_distinct_value _ items _ _ v Hnd Hk Hk0).
  - intros Hn. unfold setPsoType_in.
    destruct (in_values PsoType_eqb items v) eqn:E; [|reflexivity].
    apply (in_values_iff _ _ PsoType_eqb_eq) in E. contradiction.
  - intros Hn. unfold getPsoType. rewrite bind_self.
    now rewrite (dict_key_of_missing _ _ PsoType_eqb_eq items _ Hn).
Qed.

Lemma setPsoType_then_getPsoType_witness :
  exists k,
    (setPsoType_in [("BASIC", BASIC); ("INERTIA", INERTIA)] INERTIA ;;
     getPsoType [("BASIC", BASIC); ("INERTIA", INERTIA)])
      (quiet Examples.basic3)
    = (Ret k, with_engine (set_psoType INERTIA (engine (quiet Examples.basic3)))
                (quiet Examples.basic3)) /\
    k = "INERTIA".
Proof.
  destruct (setPsoType_then_getPsoType
              [("BASIC", BASIC); ("INERTIA", INERTIA)] INERTIA
              (quiet Examples.basic3)) as (Hin & _).
  destruct Hin as (k & Hrun & _ & Huniq).
  - right. left. reflexivity.
  - exists k. split; [exact Hrun|]. apply Huniq.
    + repeat constructor; cbn; intuition congruence.
    + right. left. reflexivity.
Defined.

(** [setMinimax] and [getMinimaxType], in the same way. *)
Theorem setMinimax_then_getMinimaxType
    (items : list (string * Minimax)) (v : Minimax) (r : Run) :
  (In v (map snd items) ->
   exists k,
     (setMinimax_in items v ;; getMinimaxType items) r
     = (Ret k, with_engine (set_minimax v (engine r)) r) /\
     In (k, v) items /\
     (NoDup (map snd items) -> forall k0, In (k0, v) items -> k = k0)) /\
  (~ In v (map snd items) ->
   setMinimax_in items v r
   = (Raise (TypeError "Optimization type must be Maximize or Minimize !"), r)) /\
  (~ In (minimax (engine r)) (map snd items) ->
   getMinimaxType items r = (Ret "", r)).
Proof.
  split; [|split].
  - intros Hin. exists (dict_key_of Minimax_eqb items v).
    unfold setMinimax_in.
    rewrite (proj2 (in_values_iff _ _ Minimax_eqb_eq items v) Hin).
    split; [reflexivity|].
    pose proof (dict_key_of_found _ _ Minimax_eqb_eq items v Hin) as Hk.
    split; [exact Hk|]. intros Hnd k0 Hk0.
    exact (key_of_distinct_value _ items _ _ v Hnd Hk Hk0).
  - intros Hn. unfold setMinimax_in.
    destruct (in_values Minimax_eqb items v) eqn:E; [|reflexivity].
    apply (in_values_iff _ _ Minimax_eqb_eq) in E. contradiction.
  - intros Hn. unfold getMinimaxType. rewrite bind_self.
    now rewrite (dict_key_of_missing _ _ Minimax_eqb_eq items _ Hn).
Qed.

Lemma setMinimax_then_getMinimaxType_witness :
  setMinimax_in [("minimize", minimize)] maximize (quiet Examples.basic3)
  = (Raise (TypeError "Optimization type must be Maximize or Minimize !"),
     quiet Examples.basic3).
Proof.
  destruct (setMinimax_then_getMinimaxType [("minimize", minimize)] maximize
              (quiet Examples.basic3)) as (_ & Hout & _).
  apply Hout. cbn. intuition congruence.
Defined.

(** ** More on the singleton handle *)

Lemma getattr_setattr_other s a b v :
  a <> b -> getattr (setattr s a v) b = getattr s b.
Proof. intros H. destruct a, b; try reflexivity; congruence. Qed.

(** An assignment through a handle changes the one attribute assigned: every
    other attribute reads as before, through any handle; the class still
    refers to the same object, and no object is allocated. *)
Theorem PSO_setattr_changes_one_attribute
    (p p' : Process) (h h' : PSO) (a : attr) (v : attr_type a) :
  PSO___setattr__ p h a v = Some p' ->
  _iInstance p' = _iInstance p /\
  List.length (heap p') = List.length (heap p) /\
  PSO___getattr__ p' h' a = Some v /\
  (forall b, a <> b -> PSO___getattr__ p' h' b = PSO___getattr__ p h' b).
Proof.
  unfold PSO___setattr__. intros H.
  destruct (_iInstance p) as [l|] eqn:Hi; [|discriminate H].
  destruct (nth_error (heap p) l) as [s|] eqn:Hs; [|discriminate H].
  injection H as <-. cbn [_iInstance heap].
  assert (Hl : (l < List.length (heap p))%nat)
    by (apply nth_error_Some; congruence).
  split; [reflexivity|]. split; [apply list_update_length|].
  unfold PSO___getattr__, instance_of. cbn [_iInstance heap].
  rewrite ?Hi, nth_error_list_update_same, Hs by exact Hl.
  split; [now rewrite getattr_setattr|].
  intros b Hab. now rewrite getattr_setattr_other.
Qed.

Lemma PSO_setattr_changes_one_attribute_witness :
  let p := snd (PSO___init__ Examples.consts fresh_process) in
  let h := fst (PSO___init__ Examples.consts fresh_process) in
  exists p',
    PSO___setattr__ p h a_timeSteps 7 = Some p' /\
    PSO___getattr__ p' h a_timeSteps = Some 7 /\
    PSO___getattr__ p' h a_currentStep = PSO___getattr__ p h a_currentStep.
Proof.
  cbv zeta. eexists. split; [reflexivity|].
  destruct (PSO_setattr_changes_one_attribute
              (snd (PSO___init__ Examples.consts fresh_process)) _
              (fst (PSO___init__ Examples.consts fresh_process))
              (fst (PSO___init__ Examples.consts fresh_process))
              a_timeSteps 7 eq_refl) as (_ & _ & Hsame & Hother).
  split; [exact Hsame|]. apply Hother. discriminate.
Defined.

Lemma constructions_again k n :
  forall p l,
    _iInstance p = Some l ->
    constructions k n p = (repeat {| EventHandler_instance := l |} n, p).
Proof.
  induction n as [|n IH]; intros p l Hi; [reflexivity|].
  cbn [constructions]. rewrite (PSO___init___again k p l Hi).
  cbn [fst snd]. now rewrite (IH p l Hi).
Qed.

(** However many times [PSO()] is called, one engine at most is allocated:
    [n + 1] constructions in a row return [n + 1] copies of the handle the
    first one returns and leave the interpreter state the first one leaves;
    started with no instance, they leave exactly one more object than there
    was, a newly initialized engine. *)
Theorem constructions_allocate_once (k : Consts) (n : nat) (p : Process) :
  constructions k (S n) p
  = (repeat (fst (PSO___init__ k p)) (S n), snd (PSO___init__ k p)) /\
  (_iInstance p = None ->
   heap (snd (constructions k (S n) p))
   = heap p ++ [Singleton___init__ k true]) /\
  (_iInstance p <> None ->
   snd (constructions k (S n) p) = p).
Proof.
  assert (Hfirst :
    constructions k (S n) p
    = (repeat (fst (PSO___init__ k p)) (S n), snd (PSO___init__ k p))).
  { cbn [constructions repeat].
    destruct (_iInstance p) as [l|] eqn:Hi.
    - rewrite (PSO___init___again k p l Hi). cbn [fst snd].
      now rewrite (constructions_again k n p l Hi).
    - rewrite (PSO___init___first k p Hi). cbn [fst snd].
      now rewrite (constructions_again k n
                     {| heap := heap p ++ [Singleton___init__ k true];
                        _iInstance := Some (List.length (heap p)) |}
                     (List.length (heap p)) eq_refl). }
  split; [exact Hfirst|]. rewrite Hfirst. cbn [snd]. split.
  - intros Hi. now rewrite (PSO___init___first k p Hi).
  - intros Hi. destruct (_iInstance p) as [l|] eqn:E; [|congruence].
    now rewrite (PSO___init___again k p l E).
Qed.

Lemma constructions_allocate_once_witness :
  heap (snd (constructions Examples.consts 5 fresh_process))
  = heap fresh_process ++ [Singleton___init__ Examples.consts true].
Proof.
  apply (constructions_allocate_once Examples.consts 4 fresh_process).
  reflexivity.
Defined.

(** ** The steps at which a report is inserted *)

Lemma due_steps_S f lo n :
  due_steps f lo (S n)
  = (if (lo + 1) mod f =? 0 then [lo + 1] else []) ++ due_steps f (lo + 1) n.
Proof.
  unfold due_steps. cbn [seq map filter].
  rewrite Z.add_0_r.
  rewrite <- seq_shift, map_map.
  replace (map (fun x => lo + 1 + Z.of_nat (S x)) (seq 0 n))
    with (map (fun i => lo + 1 + 1 + Z.of_nat i) (seq 0 n))
    by (apply map_ext; intros i; lia).
  now destruct ((lo + 1) mod f =? 0).
Qed.

Lemma report_calls_body_events freq_stats s esc a :
  freq_stats <> 0 -> reportAdapter s = Some a ->
  report_calls (body_events freq_stats s esc)
  = if currentStep s mod statsGenFreq a =? 0
    then [ReportEv (R_insert (currentStep s))] else [].
Proof.
  intros NE Ha. unfold body_events, report_due. rewrite Ha.
  destruct (Z.eqb_spec freq_stats 0) as [E|_]; [contradiction|].
  rewrite !report_calls_app.
  destruct ((currentStep s mod freq_stats =? 0) || (currentStep s =? 1)),
           (currentStep s mod statsGenFreq a =? 0),
           (interactiveMode s && esc); reflexivity.
Qed.

Lemma report_calls_loop_events freq_stats t kb a n :
  freq_stats <> 0 ->
  forall s,
    reportAdapter s = Some a ->
    currentStep s + Z.of_nat (S n) = timeSteps s ->
    report_calls (loop_events (S n) freq_stats t kb s)
    = map (fun k => ReportEv (R_insert k))
        (due_steps (statsGenFreq a) (currentStep s) n).
Proof.
  intros NE. induction n as [|n IH]; intros s Ha Hstep;
    rewrite loop_events_S, report_calls_app, report_calls_step_events,
      advance_currentStep, advance_timeSteps; cbn [app].
  - replace (currentStep s + 1 =? timeSteps s) with true
      by (symmetry; apply Z.eqb_eq; lia).
    reflexivity.
  - replace (currentStep s + 1 =? timeSteps s) with false
      by (symmetry; apply Z.eqb_neq; lia).
    rewrite report_calls_app.
    rewrite (report_calls_body_events freq_stats (advance s) _ a NE)
      by now rewrite advance_reportAdapter.
    rewrite IH.
    + rewrite advance_currentStep, due_steps_S, map_app.
      now destruct ((currentStep s + 1) mod statsGenFreq a =? 0).
    + now rewrite advance_reportAdapter.
    + rewrite advance_currentStep, advance_timeSteps. lia.
Qed.

(** When [freq_stats] is not zero, the report calls of a whole run with an
    adapter of frequency [f], in order: [open]; one [insert(k)] for each
    step [k] of [1 .. timeSteps - 1] that is a multiple of [f]; and, when
    [timeSteps] is a multiple of [f], [insert(timeSteps)] and
    [saveAndClose]. *)
Theorem execute_report_calls (fuel : nat) (freq_stats : Z) (r : Run)
    (a : ReportAdapter) :
  freq_stats <> 0 ->
  fst (checkParametersSet r) = Ret tt ->
  reportAdapter (engine r) = Some a -> statsGenFreq a <> 0 ->
  sigint r = None ->
  currentStep (engine r) = 0 ->
  1 <= timeSteps (engine r) ->
  (Z.to_nat (timeSteps (engine r)) <= fuel)%nat ->
  exists r' evs,
    execute fuel freq_stats r = (Ret tt, r') /\
    trace r' = trace r ++ evs /\
    report_calls evs
    = [ReportEv R_open]
      ++ map (fun k => ReportEv (R_insert k))
           (due_steps (statsGenFreq a) 0 (Z.to_nat (timeSteps (engine r) - 1)))
      ++ (if timeSteps (engine r) mod statsGenFreq a =? 0
          then [ReportEv (R_insert (timeSteps (engine r)));
                ReportEv R_saveAndClose]
          else []).
Proof.
  intros NE Hc Ha Hf Hs H0 HT Hfuel.
  apply checkParametersSet_returns_iff in Hc.
  destruct (check_passes_topology _ Hc) as [t Ht].
  destruct (Z.to_nat (timeSteps (engine r))) as [|n] eqn:En; [lia|].
  assert (Hstep : currentStep (engine r) + Z.of_nat (S n) = timeSteps (engine r))
    by lia.
  assert (Hpos : 0 <= currentStep (engine r)) by lia.
  assert (Hok : adapter_ok (engine r))
    by (intros a' Ha'; rewrite Ha in Ha'; now injection Ha' as <-).
  pose proof (execute_run fuel freq_stats r t n Hc Ht Hok Hs Hpos Hstep Hfuel)
    as Hrun. cbv zeta in Hrun.
  eexists; eexists. split; [exact Hrun|].
  cbn [trace with_engine add_events]. split; [reflexivity|].
  rewrite !report_calls_app.
  rewrite (report_calls_loop_events freq_stats t (keyboard r) a n NE)
    by (first [exact Ha | exact Hstep]).
  cbn [currentStep set_time_init]. rewrite H0.
  replace (Z.to_nat (timeSteps (engine r) - 1)) with n by lia.
  unfold prelude_events. rewrite Ha. cbn [truthy_obj].
  rewrite report_calls_app. cbn [report_calls filter is_report_call app].
  f_equal. f_equal.
  unfold final_events, report_due, dump_events.
  rewrite advance_n_reportAdapter, advance_n_currentStep.
  cbn [reportAdapter currentStep set_time_init]. rewrite Ha, H0.
  replace (0 + Z.of_nat (S n)) with (timeSteps (engine r)) by lia.
  rewrite report_calls_app.
  destruct (Z.eqb_spec freq_stats 0) as [E|_]; [contradiction|].
  rewrite report_calls_app.
  destruct (timeSteps (engine r) mod statsGenFreq a =? 0); reflexivity.
Qed.

Lemma execute_report_calls_witness :
  exists r' evs,
    execute 5 1 (quiet (Examples.reporting 5 2)) = (Ret tt, r') /\
    trace r' = trace (quiet (Examples.reporting 5 2)) ++ evs /\
    report_calls evs
    = [ReportEv R_open; ReportEv (R_insert 2); ReportEv (R_insert 4)].
Proof.
  destruct (execute_report_calls 5 1 (quiet (Examples.reporting 5 2))
              {| statsGenFreq := 2 |})
    as (r' & evs & Hrun & Htr & Hrep).
  - discriminate.
  - vm_compute. reflexivity.
  - vm_compute. reflexivity.
  - discriminate.
  - reflexivity.
  - vm_compute. reflexivity.
  - vm_compute. discriminate.
  - vm_compute. lia.
  - exists r', evs. split; [exact Hrun|]. split; [exact Htr|].
    rewrite Hrep. vm_compute. reflexivity.
Defined.

(** ** A run without an adapter, at an example *)

Lemma execute_without_adapter_witness :
  exists r' evs,
    execute 3 1 (quiet Examples.basic3) = (Ret tt, r') /\
    trace r' = trace (quiet Examples.basic3) ++ evs /\
    report_calls evs = [].
Proof.
  destruct (execute_without_adapter 3 1 (quiet Examples.basic3))
    as (r' & evs & Hrun & Htr & Hrep & _).
  - vm_compute. reflexivity.
  - reflexivity.
  - reflexivity.
  - reflexivity.
  - vm_compute. discriminate.
  - vm_compute. lia.
  - exists r', evs. split; [exact Hrun|]. split; [exact Htr | exact Hrep].
Defined.
